(** * Tally fulfillment core: order codes, sellable quantities, stock
      adjustments, order status updates and the CSV import.

    A shallow embedding of the TypeScript sources
    ([src/lib/orderUtils.ts], the materials, products, fulfillment, order
    detail and integrations pages) together with the properties checked
    against them. *)

From Stdlib Require Import ZArith NArith Lia Bool List Ascii String.
From stdpp Require Import base option list gmap strings.
Import ListNotations.

Local Open Scope Z_scope.

(* ===================================================================== *)
(** ** JavaScript values used by the sources *)
(* ===================================================================== *)

Module Js.

(** The [number]s the modelled functions compute: integers (exact, which a
    double is below 2^53), the two infinities and NaN. *)
Inductive number : Type :=
  | Int (z : Z)
  | PosInf
  | NegInf
  | NaN.

(** Errors and results of code that can throw. *)
Inductive error : Type :=
  | TypeError (msg : string)
  | DbError (msg : string).

Inductive result (A : Type) : Type :=
  | Ok (a : A)
  | Throw (e : error).
Arguments Ok {A} a.
Arguments Throw {A} e.

(** [Math.min(a, b)]. *)
Definition Math_min (a b : number) : number :=
  match a, b with
  | NaN, _ | _, NaN => NaN
  | NegInf, _ | _, NegInf => NegInf
  | PosInf, y => y
  | x, PosInf => x
  | Int x, Int y => Int (Z.min x y)
  end.

(** [Math.max(a, b)] on integers, as the stock buttons use it. *)
Definition Math_max (a b : Z) : Z := Z.max a b.

(** [Math.floor(a / b)] for integer [a] and [b]: the quotient rounded
    towards minus infinity, and what IEEE division gives for [b = 0]. *)
Definition floor_div (a b : Z) : number :=
  if b =? 0 then
    (if a =? 0 then NaN else if 0 <? a then PosInf else NegInf)
  else Int (a / b).

(** *** Characters and strings

    A [string] is read as a sequence of code units; every character the
    modelled functions inspect is below 256. *)

Definition code (c : ascii) : N := N_of_ascii c.

Definition is_digit (c : ascii) : bool :=
  ((48 <=? code c) && (code c <=? 57))%N.
Definition is_lower (c : ascii) : bool :=
  ((97 <=? code c) && (code c <=? 122))%N.
Definition is_upper (c : ascii) : bool :=
  ((65 <=? code c) && (code c <=? 90))%N.

(** White space skipped by [parseInt]: tab, line feed, vertical tab, form
    feed, carriage return, space and no-break space. *)
Definition is_space (c : ascii) : bool :=
  ((9 <=? code c) && (code c <=? 13) || (code c =? 32) || (code c =? 160))%N.

(** Value of a character as a digit, for radices up to 36. *)
Definition digit_value (c : ascii) : option Z :=
  if is_digit c then Some (Z.of_N (code c) - 48)
  else if is_lower c then Some (Z.of_N (code c) - 87)
  else if is_upper c then Some (Z.of_N (code c) - 55)
  else None.

(** The character for a digit value: [0-9] then [a-z]. *)
Definition digit_char (d : Z) : ascii :=
  if d <? 10 then ascii_of_N (Z.to_N (48 + d)) else ascii_of_N (Z.to_N (87 + d)).

Definition upper_char (c : ascii) : ascii :=
  if is_lower c then ascii_of_N (code c - 32) else c.

(** [s.toUpperCase()] on the strings it is applied to here (rendered
    numbers): ASCII letters are raised, everything else is kept. *)
Fixpoint toUpperCase (s : string) : string :=
  match s with
  | EmptyString => EmptyString
  | String c s' => String (upper_char c) (toUpperCase s')
  end.

(** [s.replace(/-/g, '')]. *)
Fixpoint strip_hyphens (s : string) : string :=
  match s with
  | EmptyString => EmptyString
  | String c s' =>
      if Ascii.eqb c "-" then strip_hyphens s' else String c (strip_hyphens s')
  end.

Fixpoint drop_chars (n : nat) (s : string) : string :=
  match n, s with
  | O, _ => s
  | S _, EmptyString => EmptyString
  | S n', String _ s' => drop_chars n' s'
  end.

(** [s.slice(-k)]: the last [k] characters, the whole string when it is
    shorter. *)
Definition slice_last (k : nat) (s : string) : string :=
  drop_chars (String.length s - k) s.

Fixpoint repeat_char (c : ascii) (n : nat) : string :=
  match n with
  | O => EmptyString
  | S n' => String c (repeat_char c n')
  end.

(** [s.padStart(width, c)] for a one-character filler. *)
Definition padStart (width : nat) (c : ascii) (s : string) : string :=
  repeat_char c (width - String.length s) +:+ s.

Fixpoint trimStart (s : string) : string :=
  match s with
  | EmptyString => EmptyString
  | String c s' => if is_space c then trimStart s' else s
  end.

(** The digits of radix [r] at the start of [s], most significant first. *)
Fixpoint leading_digits (r : Z) (s : string) : list Z :=
  match s with
  | EmptyString => []
  | String c s' =>
      match digit_value c with
      | Some d => if d <? r then d :: leading_digits r s' else []
      | None => []
      end
  end.

(** Value of a digit list, most significant first. *)
Definition digits_value (r : Z) (ds : list Z) : Z :=
  fold_left (fun acc d => acc * r + d) ds 0.

Definition strip_sign (s : string) : bool * string :=
  match s with
  | String c s' =>
      if Ascii.eqb c "-" then (true, s')
      else if Ascii.eqb c "+" then (false, s')
      else (false, s)
  | EmptyString => (false, s)
  end.

Definition strip_0x (s : string) : option string :=
  match s with
  | String c0 (String c1 s') =>
      if Ascii.eqb c0 "0" && (Ascii.eqb c1 "x" || Ascii.eqb c1 "X")
      then Some s' else None
  | _ => None
  end.

(** [parseInt(s, radix)]; [radix = 0] stands for an omitted radix. The
    result carries the integer that the digits denote; it is the double
    that the call returns as long as that integer is below 2^53 in
    magnitude, which the eight hexadecimal characters read by
    [generateOrderCode] always are. Where the text is not bounded,
    [to_number] below turns the integer into the double. *)
Definition parseInt (s : string) (radix : Z) : number :=
  let '(neg, s1) := strip_sign (trimStart s) in
  if (radix <? 0) || (radix =? 1) || (36 <? radix) then NaN
  else
    let '(r, s2) :=
      if (radix =? 0) || (radix =? 16) then
        match strip_0x s1 with
        | Some rest => (16, rest)
        | None => (if radix =? 0 then 10 else radix, s1)
        end
      else (radix, s1) in
    match leading_digits r s2 with
    | [] => NaN
    | ds => Int (if neg then - digits_value r ds else digits_value r ds)
    end.

(** The double nearest to the integer [z], ties to the even significand:
    [z] itself below 2^53, otherwise [z] rounded to 53 significant bits,
    and an infinity from 2^1024 - 2^970 on. *)
Definition round_to_double (z : Z) : number :=
  let a := Z.abs z in
  if a <? 2 ^ 53 then Int z
  else
    let e := Z.log2 a - 52 in
    let q := a / 2 ^ e in
    let r := a mod 2 ^ e in
    let half := 2 ^ (e - 1) in
    let q' := if (half <? r) || ((r =? half) && Z.odd q) then q + 1 else q in
    let m := q' * 2 ^ e in
    if 2 ^ 1024 <=? m then (if z <? 0 then NegInf else PosInf)
    else Int (if z <? 0 then - m else m).

(** The Number value of a parsed integer of any size. *)
Definition to_number (n : number) : number :=
  match n with
  | Int z => round_to_double z
  | _ => n
  end.

(** Digits of [n >= 0] in radix [r], most significant first. The fuel
    bounds the number of digits; [S (log2 n)] is enough for [r >= 2]. *)
Fixpoint to_digits (fuel : nat) (r n : Z) (acc : list Z) : list Z :=
  match fuel with
  | O => n mod r :: acc
  | S fuel' =>
      if n <? r then n :: acc
      else to_digits fuel' r (n / r) (n mod r :: acc)
  end.

Definition nat_digits (r n : Z) : list Z :=
  to_digits (Z.to_nat (Z.log2 n)) r n [].

Definition digits_string (ds : list Z) : string :=
  string_of_list_ascii (map digit_char ds).

(** The same digits in upper case. *)
Definition upper_digits (ds : list Z) : string :=
  string_of_list_ascii (map (fun d => upper_char (digit_char d)) ds).

(** [n.toString(radix)] for the numbers above, [2 <= radix <= 36]. *)
Definition toString (radix : Z) (n : number) : string :=
  match n with
  | NaN => "NaN"
  | PosInf => "Infinity"
  | NegInf => "-Infinity"
  | Int z =>
      if z <? 0 then String "-" (digits_string (nat_digits radix (- z)))
      else digits_string (nat_digits radix z)
  end.

Fixpoint all_chars (P : ascii -> bool) (s : string) : bool :=
  match s with
  | EmptyString => true
  | String c s' => P c && all_chars P s'
  end.

(** Truthiness of a number: [0] and [NaN] are falsy. *)
Definition truthy (n : number) : bool :=
  match n with
  | NaN => false
  | Int z => negb (z =? 0)
  | _ => true
  end.

End Js.

(* ===================================================================== *)
(** ** Records of the data model *)
(* ===================================================================== *)

(** The rows of the four tables as the pages declare them. Columns that
    the modelled functions neither read nor write ([cost], [price],
    [created_at]) are left out; object spreads carry them along
    unchanged. Quantities are the integers of their [INTEGER] columns. *)

Record Material : Type := mkMaterial {
  m_id : string;
  m_name : string;
  m_variant : option string;
  m_sku : string;
  on_hand : Z;
  reorder_point : Z;
  m_archived : bool
}.

Record BOMItem : Type := mkBOMItem {
  materialId : string;
  qty : Z
}.

Record Product : Type := mkProduct {
  p_id : string;
  p_name : string;
  p_variant : option string;
  p_sku : string;
  bom : option (list BOMItem);
  p_archived : bool
}.

Record Order : Type := mkOrder {
  o_id : string;
  o_code : option string;
  channel : string;
  external_id : option string;
  customer_name : option string;
  status : string;
  carrier : option string;
  tracking : option string
}.

Record OrderLine : Type := mkOrderLine {
  ol_id : string;
  order_id : string;
  product_id : string;
  ol_qty : Z
}.

Record OrderWithLines : Type := mkOrderWithLines {
  owl_order : Order;
  order_lines : list OrderLine
}.

(** The object sent to [supabase.from('orders').update(...)]: [status] is
    always present, [carrier] and [tracking] only when the key was set. *)
Record StatusPatch : Type := mkStatusPatch {
  patch_status : string;
  patch_carrier : option string;
  patch_tracking : option string
}.

(** What an update with a patch does to a row, and what spreading the
    patch over an order object ([{ ...prev, ...updateData }]) does. *)
Definition apply_patch (p : StatusPatch) (o : Order) : Order :=
  {| o_id := o_id o;
     o_code := o_code o;
     channel := channel o;
     external_id := external_id o;
     customer_name := customer_name o;
     status := patch_status p;
     carrier := match patch_carrier p with Some c => Some c | None => carrier o end;
     tracking := match patch_tracking p with Some t => Some t | None => tracking o end |}.

(** [{ ...material, on_hand: newQuantity }]. *)
Definition set_on_hand (newQuantity : Z) (material : Material) : Material :=
  {| m_id := m_id material;
     m_name := m_name material;
     m_variant := m_variant material;
     m_sku := m_sku material;
     on_hand := newQuantity;
     reorder_point := reorder_point material;
     m_archived := m_archived material |}.

(* ===================================================================== *)
(** ** [src/lib/orderUtils.ts] *)
(* ===================================================================== *)

Module OrderUtils.
Import Js.

(** [generateOrderCode(orderId)]. [year] is [new Date().getFullYear()] of
    the call; [orderId] is [None] when the caller passes no argument, and
    reading [orderId.replace] then throws. *)
Definition generateOrderCode (orderId : option string) (year : N) : result string :=
  let year' := Z.of_N year mod 100 in
  let yearStr := padStart 2 "0" (toString 10 (Int year')) in
  match orderId with
  | None => Throw (TypeError "Cannot read properties of undefined (reading 'replace')")
  | Some orderId =>
      let uuidHex := slice_last 8 (strip_hyphens orderId) in
      let number := parseInt uuidHex 16 in
      let base36 := toUpperCase (toString 36 number) in
      Ok (yearStr +:+ "-" +:+ base36)
  end.

(** The callback of [bom.reduce]. *)
Definition sellable_step (materialsMap : gmap string Material)
    (minSellable : number) (item : BOMItem) : number :=
  match materialsMap !! materialId item with
  | None => Int 0
  | Some material =>
      let possibleQty := floor_div (on_hand material) (qty item) in
      Math_min minSellable possibleQty
  end.

(** [calculateSellable(bom, materialsMap)]; [bom = None] is a [null] or
    [undefined] BOM. *)
Definition calculateSellable (bom : option (list BOMItem))
    (materialsMap : gmap string Material) : number :=
  match bom with
  | None | Some [] => Int 0
  | Some items => fold_left (sellable_step materialsMap) items PosInf
  end.

End OrderUtils.

(* ===================================================================== *)
(** ** Products page: the caller of [calculateSellable] *)
(* ===================================================================== *)

Module ProductsPage.
Import Js OrderUtils.

(** The em dash shown for a product without a BOM, as the bytes of the
    source literal. *)
Definition em_dash : string := "—".

(** The lookup [loadData] builds: [map.set(material.id, material)] for
    every material loaded. *)
Definition lookup_of (materialsData : list Material) : gmap string Material :=
  fold_left (fun map material => <[m_id material := material]> map) materialsData ∅.

(** [getSellableQuantity(product)]; [materialsMap] is the page state. *)
Definition getSellableQuantity (materialsMap : gmap string Material)
    (product : Product) : string :=
  match bom product with
  | None | Some [] => em_dash
  | Some items => toString 10 (calculateSellable (Some items) materialsMap)
  end.

End ProductsPage.

(* ===================================================================== *)
(** ** Materials page: stock adjustments *)
(* ===================================================================== *)

Module MaterialsPage.
Import Js.

(** The page state [materials] next to the [materials] table it mirrors.
    The table is kept in the order of the page's query (newest first). *)
Record State : Type := mkState {
  materials : list Material;
  table : list Material
}.

(** How the write of [updateQuantity] and the reload after a failed write
    turn out. *)
Inductive Outcome : Type :=
  | WriteOk
  | WriteFailed_ReloadOk
  | WriteFailed_ReloadFailed.

Definition set_quantity (materialId : string) (newQuantity : Z)
    (l : list Material) : list Material :=
  map (fun material =>
         if String.eqb (m_id material) materialId
         then set_on_hand newQuantity material
         else material) l.

(** The rows [loadMaterials] puts into the page state. *)
Definition loadMaterials (tbl : list Material) : list Material :=
  List.filter (fun material => negb (m_archived material)) tbl.

(** [updateQuantity(materialId, newQuantity)]: the optimistic update of
    the page state, the write, and on a failed write the reload. *)
Definition updateQuantity (materialId : string) (newQuantity : Z)
    (env : Outcome) (st : State) : State :=
  let updatedMaterials := set_quantity materialId newQuantity (materials st) in
  match env with
  | WriteOk =>
      {| materials := updatedMaterials;
         table := set_quantity materialId newQuantity (table st) |}
  | WriteFailed_ReloadOk =>
      {| materials := loadMaterials (table st); table := table st |}
  | WriteFailed_ReloadFailed =>
      {| materials := updatedMaterials; table := table st |}
  end.

(** The quantities the two buttons of a row ask for. *)
Definition decrement_request (material : Material) : Z :=
  Math_max 0 (on_hand material - 1).
Definition increment_request (material : Material) : Z :=
  on_hand material + 1.

(** The [disabled] attribute of the minus button. *)
Definition decrement_disabled (material : Material) : bool :=
  on_hand material <=? 0.

(** A click on the minus or the plus button of the row at position [row]
    of the rendered list, with the way its write turns out. *)
Inductive Click : Type :=
  | Minus (row : nat) (env : Outcome)
  | Plus (row : nat) (env : Outcome).

(** The click handled from the optimistic update to the end of its write
    (and of the reload after a failed write), with no other write or
    reload under way meanwhile. *)
Definition click (st : State) (c : Click) : State :=
  match c with
  | Minus row env =>
      match nth_error (materials st) row with
      | Some material =>
          if decrement_disabled material then st
          else updateQuantity (m_id material) (decrement_request material) env st
      | None => st
      end
  | Plus row env =>
      match nth_error (materials st) row with
      | Some material =>
          updateQuantity (m_id material) (increment_request material) env st
      | None => st
      end
  end.

(** The [onClick] of the minus button run even where the button is
    disabled: the clamp alone has to keep the quantity at 0. *)
Definition click_unguarded (st : State) (c : Click) : State :=
  match c with
  | Minus row env =>
      match nth_error (materials st) row with
      | Some material =>
          updateQuantity (m_id material) (decrement_request material) env st
      | None => st
      end
  | Plus _ _ => click st c
  end.

(** Clicks one after the other, each with its write (and reload) over
    before the next click is made. *)
Definition clicks (st : State) (cs : list Click) : State :=
  fold_left click cs st.
Definition clicks_unguarded (st : State) (cs : list Click) : State :=
  fold_left click_unguarded cs st.

(** [isLowStock(material)]. *)
Definition isLowStock (material : Material) : bool :=
  on_hand material <? reorder_point material.

End MaterialsPage.

(* ===================================================================== *)
(** ** Order status updates *)
(* ===================================================================== *)

(** [a || b] where [a] is a string or [undefined] and [b] a string or
    [null]: the empty string is falsy. *)
Definition or_string (a b : option string) : option string :=
  match a with
  | Some s => if String.eqb s EmptyString then b else Some s
  | None => b
  end.

(** The [orders] table after [update(patch).eq('id', orderId)]. *)
Definition update_orders (orderId : string) (p : StatusPatch)
    (tbl : list Order) : list Order :=
  map (fun o => if String.eqb (o_id o) orderId then apply_patch p o else o) tbl.

(** [updateData] as both pages build it. *)
Definition updateData (status : string) (carrier tracking : option string)
    : StatusPatch :=
  {| patch_status := status; patch_carrier := carrier; patch_tracking := tracking |}.

Module FulfillmentPage.

(** The page state [orders] next to the [orders] table. *)
Record State : Type := mkState {
  orders : list OrderWithLines;
  table : list Order
}.

(** The object the page puts in place of the order after a write:
    [{ ...order, status, carrier: carrier || order.carrier,
       tracking: tracking || order.tracking }]. *)
Definition local_update (status : string) (carrier' tracking' : option string)
    (order : OrderWithLines) : OrderWithLines :=
  let o := owl_order order in
  {| owl_order :=
       {| o_id := o_id o;
          o_code := o_code o;
          channel := channel o;
          external_id := external_id o;
          customer_name := customer_name o;
          status := status;
          carrier := or_string carrier' (carrier o);
          tracking := or_string tracking' (tracking o) |};
     order_lines := order_lines order |}.

(** [updateOrderStatus(orderId, status, carrier?, tracking?)];
    [write_ok] tells whether the update came back without an error. *)
Definition updateOrderStatus (orderId status : string)
    (carrier' tracking' : option string) (write_ok : bool) (st : State) : State :=
  let p := updateData status carrier' tracking' in
  if write_ok then
    {| orders :=
         map (fun order =>
                if String.eqb (o_id (owl_order order)) orderId
                then local_update status carrier' tracking' order
                else order) (orders st);
       table := update_orders orderId p (table st) |}
  else st.

End FulfillmentPage.

Module OrderDetailPage.

(** The page state [order] ([None] while nothing is loaded) next to the
    [orders] table. *)
Record State : Type := mkState {
  order : option OrderWithLines;
  table : list Order
}.

(** [{ ...prev, ...updateData }]. *)
Definition spread (p : StatusPatch) (prev : OrderWithLines) : OrderWithLines :=
  {| owl_order := apply_patch p (owl_order prev);
     order_lines := order_lines prev |}.

(** [updateOrderStatus(status, newCarrier?, newTracking?)]. *)
Definition updateOrderStatus (status : string)
    (newCarrier newTracking : option string) (write_ok : bool) (st : State) : State :=
  match order st with
  | None => st
  | Some cur =>
      let p := updateData status newCarrier newTracking in
      if write_ok then
        {| order := option_map (spread p) (order st);
           table := update_orders (o_id (owl_order cur)) p (table st) |}
      else st
  end.

(** [handleMarkShipped] and [handleSetInProgress], with the contents of
    the two input fields. *)
Definition handleMarkShipped (carrier' tracking' : string) :=
  updateOrderStatus "SHIPPED" (Some carrier') (Some tracking').
Definition handleSetInProgress :=
  updateOrderStatus "IN_PROGRESS" None None.

End OrderDetailPage.

(* ===================================================================== *)
(** ** Integrations page: the CSV import *)
(* ===================================================================== *)

Module IntegrationsPage.
Import Js OrderUtils.

(** A parsed row: PapaParse is run without dynamic typing, so every field
    is the text of its cell. *)
Record CSVRow : Type := mkCSVRow {
  row_external_id : string;
  row_channel : string;
  row_customer_name : string;
  row_sku : string;
  row_qty : string
}.

Record Line : Type := mkLine {
  line_sku : string;
  line_qty : number
}.

Record GroupedOrder : Type := mkGroupedOrder {
  g_channel : string;
  g_external_id : string;
  g_customer_name : string;
  lines : list Line
}.

(** [a || b] on numbers. *)
Definition or_number (a b : number) : number := if truthy a then a else b.

(** [parseInt(row.qty?.toString()) || 1]. The cell is a text of any
    length, so the parsed integer is taken to the double it is stored as:
    rounded from 2^53 on, [Infinity] (which is truthy, and kept) for a
    cell of more than 308 digits. *)
Definition parse_qty (q : string) : number :=
  or_number (to_number (parseInt q 0)) (Int 1).

(** [!row.external_id || !row.channel || !row.sku]. *)
Definition row_skipped (row : CSVRow) : bool :=
  String.eqb (row_external_id row) EmptyString || String.eqb (row_channel row) EmptyString
  || String.eqb (row_sku row) EmptyString.

(** [`${row.channel}-${row.external_id}`]. *)
Definition orderKey (row : CSVRow) : string :=
  row_channel row +:+ "-" +:+ row_external_id row.

(** The [Map<string, GroupedOrder>] with its insertion order. *)
Definition Groups : Type := list (string * GroupedOrder).

Fixpoint has (k : string) (m : Groups) : bool :=
  match m with
  | [] => false
  | (k', _) :: m' => String.eqb k' k || has k m'
  end.

(** [order.lines.push(line)]. *)
Definition add_line (g : GroupedOrder) (line : Line) : GroupedOrder :=
  {| g_channel := g_channel g;
     g_external_id := g_external_id g;
     g_customer_name := g_customer_name g;
     lines := lines g ++ [line] |}.

(** The push on the group that [groupedOrders.get(k)] returns. *)
Fixpoint push_line (k : string) (line : Line) (m : Groups) : Groups :=
  match m with
  | [] => []
  | (k', g) :: m' =>
      if String.eqb k' k
      then (k', add_line g line) :: m'
      else (k', g) :: push_line k line m'
  end.

(** One turn of the grouping loop; [row.customer_name || ''] is the
    cell itself, which is a text. *)
Definition add_row (groupedOrders : Groups) (row : CSVRow) : Groups :=
  if row_skipped row then groupedOrders
  else
    let key := orderKey row in
    let groupedOrders' :=
      if has key groupedOrders then groupedOrders
      else groupedOrders ++
           [(key, {| g_channel := row_channel row;
                     g_external_id := row_external_id row;
                     g_customer_name := row_customer_name row;
                     lines := [] |})] in
    push_line key {| line_sku := row_sku row; line_qty := parse_qty (row_qty row) |}
              groupedOrders'.

(** The grouping loop of [handleFileUpload] and
    [Array.from(groupedOrders.values())]. *)
Definition groupRows (data : list CSVRow) : Groups := fold_left add_row data [].
Definition groupedOrders_values (data : list CSVRow) : list GroupedOrder :=
  map snd (groupRows data).

(** *** The tables behind [importOrders] *)

Record Db : Type := mkDb {
  orders : list Order;
  products : list Product;
  order_lines_tbl : list OrderLine;
  next_uuid : nat
}.

Record ImportEntry : Type := mkImportEntry {
  entry_code : option string;
  entry_external_id : string;
  entry_channel : string
}.

Record ImportResult : Type := mkImportResult {
  success : bool;
  newOrders : list ImportEntry;
  existingOrders : list ImportEntry;
  errors : list string
}.

Definition same_order (ch ext : string) (o : Order) : bool :=
  match external_id o with
  | Some e => String.eqb e ext && String.eqb (channel o) ch
  | None => false
  end.

(** [.single()]: the row when exactly one came back. *)
Definition single {A : Type} (rows : list A) : option A :=
  match rows with
  | [row] => Some row
  | _ => None
  end.

Definition find_existing (db : Db) (orderData : GroupedOrder) : option Order :=
  single (List.filter (same_order (g_channel orderData) (g_external_id orderData))
                 (orders db)).

Definition sku_in (skus : list string) (p : Product) : bool :=
  existsb (String.eqb (p_sku p)) skus.

Definition find_products (db : Db) (skus : list string) : list Product :=
  List.filter (fun p => sku_in skus p && negb (p_archived p)) (products db).

Section Importing.

(** The identifiers [uuid_generate_v4()] hands out. *)
Variable uuid : nat -> string.

Definition code_taken (code : string) (o : Order) : bool :=
  match o_code o with
  | Some c => String.eqb c code
  | None => false
  end.

(** [insert({ code, channel, external_id, customer_name, status })
    .select().single()] under the two unique constraints of the schema. *)
Definition insert_order (db : Db) (code ch ext name : string) : result (Order * Db) :=
  if existsb (code_taken code) (orders db)
     || existsb (same_order ch ext) (orders db)
  then Throw (DbError "23505")
  else
    let row := {| o_id := uuid (next_uuid db);
                  o_code := Some code;
                  channel := ch;
                  external_id := Some ext;
                  customer_name := Some name;
                  status := "PENDING";
                  carrier := None;
                  tracking := None |} in
    Ok (row, {| orders := orders db ++ [row];
                products := products db;
                order_lines_tbl := order_lines_tbl db;
                next_uuid := S (next_uuid db) |}).

(** A line as [importOrders] hands it to the insert. *)
Record NewLine : Type := mkNewLine {
  nl_order_id : string;
  nl_product_id : string;
  nl_qty : number
}.

(** The value an [INTEGER NOT NULL] column takes from a number. *)
Definition integer_column (n : number) : option Z :=
  match n with
  | Int z => if (-2147483648 <=? z) && (z <=? 2147483647) then Some z else None
  | _ => None
  end.

Fixpoint number_lines (first : nat) (ls : list (NewLine * Z)) : list OrderLine :=
  match ls with
  | [] => []
  | (l, q) :: ls' =>
      {| ol_id := uuid first; order_id := nl_order_id l;
         product_id := nl_product_id l; ol_qty := q |}
      :: number_lines (S first) ls'
  end.

(** [from('order_lines').insert(orderLines)]: all rows or none. *)
Definition insert_lines (db : Db) (ls : list NewLine) : result Db :=
  match mapM (fun l => q ← integer_column (nl_qty l); Some (l, q)) ls with
  | None => Throw (DbError "22003")
  | Some rows =>
      Ok {| orders := orders db;
            products := products db;
            order_lines_tbl := order_lines_tbl db ++ number_lines (next_uuid db) rows;
            next_uuid := (next_uuid db + length rows)%nat |}
  end.

(** [`${error}`]. *)
Definition error_text (e : error) : string :=
  match e with
  | TypeError msg => "TypeError: " +:+ msg
  | DbError _ => "[object Object]"
  end.

(** What one turn of the loop of [importOrders] adds to the summary. *)
Inductive Report : Type :=
  | Existing (e : ImportEntry)
  | Created (e : ImportEntry)
  | Failed (msg : string).

(** One turn of the loop of [importOrders]; [orderCode] is what the call
    of the code generator in this turn yields. *)
Definition importOrder (orderCode : result string) (db : Db)
    (orderData : GroupedOrder) : Db * Report :=
  match find_existing db orderData with
  | Some existingOrder =>
      (db, Existing {| entry_code := o_code existingOrder;
                       entry_external_id := g_external_id orderData;
                       entry_channel := g_channel orderData |})
  | None =>
      let skus := map line_sku (lines orderData) in
      match find_products db skus with
      | [] => (db, Failed ("No products found for order " +:+ g_external_id orderData))
      | found =>
          let failed e :=
            Failed ("Failed to import order " +:+ g_external_id orderData
                    +:+ ": " +:+ error_text e) in
          match orderCode with
          | Throw e => (db, failed e)
          | Ok code =>
              match insert_order db code (g_channel orderData)
                      (g_external_id orderData) (g_customer_name orderData) with
              | Throw e => (db, failed e)
              | Ok (order, db1) =>
                  let orderLines :=
                    omap (fun line =>
                            match find (fun p => String.eqb (p_sku p) (line_sku line)) found with
                            | Some product =>
                                Some {| nl_order_id := o_id order;
                                        nl_product_id := p_id product;
                                        nl_qty := line_qty line |}
                            | None => None
                            end) (lines orderData) in
                  let created :=
                    Created {| entry_code := Some code;
                               entry_external_id := g_external_id orderData;
                               entry_channel := g_channel orderData |} in
                  match orderLines with
                  | [] => (db1, created)
                  | _ =>
                      match insert_lines db1 orderLines with
                      | Throw e => (db1, failed e)
                      | Ok db2 => (db2, created)
                      end
                  end
              end
          end
      end
  end.

(** The three lists [importOrders] fills while it runs. *)
Record Lists : Type := mkLists {
  l_newOrders : list ImportEntry;
  l_existingOrders : list ImportEntry;
  l_errors : list string
}.

Definition record_report (r : Lists) (rep : Report) : Lists :=
  match rep with
  | Existing e =>
      {| l_newOrders := l_newOrders r;
         l_existingOrders := l_existingOrders r ++ [e];
         l_errors := l_errors r |}
  | Created e =>
      {| l_newOrders := l_newOrders r ++ [e];
         l_existingOrders := l_existingOrders r;
         l_errors := l_errors r |}
  | Failed msg =>
      {| l_newOrders := l_newOrders r;
         l_existingOrders := l_existingOrders r;
         l_errors := l_errors r ++ [msg] |}
  end.

Definition no_report : Lists :=
  {| l_newOrders := []; l_existingOrders := []; l_errors := [] |}.

(** The loop of [importOrders] for a code generator whose [i]-th call
    yields [gen i]. *)
Fixpoint import_loop (gen : nat -> result string) (i : nat) (db : Db)
    (r : Lists) (orders : list GroupedOrder) : Db * Lists :=
  match orders with
  | [] => (db, r)
  | orderData :: rest =>
      let '(db', rep) := importOrder (gen i) db orderData in
      import_loop gen (S i) db' (record_report r rep) rest
  end.

(** The summary returned at the end. *)
Definition summary (r : Lists) : ImportResult :=
  {| success := (length (l_errors r) =? 0)%nat;
     newOrders := l_newOrders r;
     existingOrders := l_existingOrders r;
     errors := l_errors r |}.

Definition importOrdersWith (gen : nat -> result string) (db : Db)
    (orders : list GroupedOrder) : Db * ImportResult :=
  let '(db', r) := import_loop gen 0 db no_report orders in
  (db', summary r).

(** [importOrders(orders)] as written: every turn calls
    [generateOrderCode()] without an argument. *)
Definition importOrders (year : N) : Db -> list GroupedOrder -> Db * ImportResult :=
  importOrdersWith (fun _ => generateOrderCode None year).

End Importing.

End IntegrationsPage.


(* ===================================================================== *)
(** ** The specification's vocabulary *)
(* ===================================================================== *)

Module Spec.
Import Js.

(** The two least-significant decimal digits of [y], as two characters. *)
Definition two_digits (y : Z) : string :=
  String (digit_char ((y / 10) mod 10)) (String (digit_char (y mod 10)) EmptyString).

(** A character of [0-9A-Z]. *)
Definition is_0_9_A_Z (c : ascii) : bool := is_digit c || is_upper c.

Definition not_hyphen (c : ascii) : bool := negb (Ascii.eqb c "-").

(** A hexadecimal digit, and the digits a text of such characters shows. *)
Definition is_hex (c : ascii) : bool :=
  match digit_value c with
  | Some d => d <? 16
  | None => false
  end.
Definition hex_digits (s : string) : list Z :=
  map (fun c => default 0 (digit_value c)) (list_ascii_of_string s).

(** The last [k] elements of a list. *)
Definition last_n {A : Type} (k : nat) (l : list A) : list A :=
  rev (firstn k (rev l)).

(** The last 8 characters of the identifier once its hyphens are gone. *)
Definition hex_tail (orderId : string) : list ascii :=
  last_n 8 (List.filter not_hyphen (list_ascii_of_string orderId)).

(** Positional value of a digit list: the digit at distance [i] from the
    end weighs [r ^ i]. *)
Fixpoint positional (r : Z) (ds : list Z) : Z :=
  match ds with
  | [] => 0
  | d :: ds' => d * r ^ Z.of_nat (length ds') + positional r ds'
  end.

(** The minimum of a non-empty list of integers. *)
Fixpoint minimum (x : Z) (xs : list Z) : Z :=
  match xs with
  | [] => x
  | y :: ys => Z.min x (minimum y ys)
  end.

(** What a BOM line allows: [floor(on_hand / qty)], or 0 when the
    material is not in the lookup. *)
Definition line_allows (materialsMap : gmap string Material) (item : BOMItem) : Z :=
  match materialsMap !! materialId item with
  | Some material => on_hand material / qty item
  | None => 0
  end.

(** A line is in order when its quantity is at least 1 and the material
    it names, if on record, is not in the negative. *)
Definition line_ok (materialsMap : gmap string Material) (item : BOMItem) : Prop :=
  1 <= qty item
  /\ forall material, materialsMap !! materialId item = Some material ->
                      0 <= on_hand material.

(** Sample data: a material with a given stock. *)
Definition material_with (id : string) (stock : Z) : Material :=
  {| m_id := id; m_name := id; m_variant := None; m_sku := id;
     on_hand := stock; reorder_point := 0; m_archived := false |}.

(** The material [mid] is not in the negative: in a list of materials,
    and in the page state together with the table. *)
Definition nonneg_in (mid : string) (l : list Material) : Prop :=
  Forall (fun material => m_id material = mid -> 0 <= on_hand material) l.

Definition stock_ok (mid : string) (st : MaterialsPage.State) : Prop :=
  nonneg_in mid (MaterialsPage.materials st) /\ nonneg_in mid (MaterialsPage.table st).

(** The rows of a file that the grouping loop keeps and files under the
    key [k], in the order of the file. *)
Definition rows_of_key (k : string) (data : list IntegrationsPage.CSVRow)
    : list IntegrationsPage.CSVRow :=
  List.filter (fun row => negb (IntegrationsPage.row_skipped row)
                          && String.eqb (IntegrationsPage.orderKey row) k) data.

Definition line_of (row : IntegrationsPage.CSVRow) : IntegrationsPage.Line :=
  {| IntegrationsPage.line_sku := IntegrationsPage.row_sku row;
     IntegrationsPage.line_qty :=
       IntegrationsPage.parse_qty (IntegrationsPage.row_qty row) |}.

(** The group a first row and the rows filed with it make. *)
Definition group_of (first : IntegrationsPage.CSVRow)
    (rows : list IntegrationsPage.CSVRow) : IntegrationsPage.GroupedOrder :=
  {| IntegrationsPage.g_channel := IntegrationsPage.row_channel first;
     IntegrationsPage.g_external_id := IntegrationsPage.row_external_id first;
     IntegrationsPage.g_customer_name := IntegrationsPage.row_customer_name first;
     IntegrationsPage.lines := map line_of rows |}.

(** The first non-empty text of a list, empty when there is none. *)
Fixpoint first_non_empty (names : list string) : string :=
  match names with
  | [] => EmptyString
  | name :: rest => if String.eqb name EmptyString then first_non_empty rest else name
  end.

(** A quantity read as an integer, with 1 when nothing can be read and
    when what is read is not positive. *)
Definition qty_or_one (q : string) : number :=
  match parseInt q 0 with
  | Int z => if z <=? 0 then Int 1 else Int z
  | _ => Int 1
  end.

(** The unique index on (channel, external_id): no two orders carry the
    same pair. *)
Definition unique_pairs (os : list Order) : Prop :=
  forall ch ext,
    (length (List.filter (IntegrationsPage.same_order ch ext) os) <= 1)%nat.

(** An order for the group is on record. *)
Definition stored (os : list Order) (g : IntegrationsPage.GroupedOrder) : Prop :=
  exists o, In o os
    /\ IntegrationsPage.same_order (IntegrationsPage.g_channel g)
                                   (IntegrationsPage.g_external_id g) o = true.

(** The entry the import files for a group it found on record. *)
Definition skipped_entry (o : Order) (g : IntegrationsPage.GroupedOrder)
    : IntegrationsPage.ImportEntry :=
  {| IntegrationsPage.entry_code := o_code o;
     IntegrationsPage.entry_external_id := IntegrationsPage.g_external_id g;
     IntegrationsPage.entry_channel := IntegrationsPage.g_channel g |}.

(** Sample data for the import: an order as the import stores it, a
    product, and a table set. *)
Definition order_of (id code ch ext : string) : Order :=
  {| o_id := id; o_code := Some code; channel := ch; external_id := Some ext;
     customer_name := Some EmptyString; status := "PENDING";
     carrier := None; tracking := None |}.

Definition product_of (id sku : string) : Product :=
  {| p_id := id; p_name := sku; p_variant := None; p_sku := sku;
     bom := None; p_archived := false |}.

Definition sample_uuid (n : nat) : string :=
  "00000000-0000-4000-8000-0000000000" +:+ toString 10 (Int (10 + Z.of_nat n)).

End Spec.

(* ===================================================================== *)
(** ** More of the pages: dialogs, quick orders, search, order actions *)
(* ===================================================================== *)

Module JsText.
Import Js.

(** [s.trimEnd()]: a character goes when it is white space and nothing
    but white space follows it. *)
Fixpoint trimEnd (s : string) : string :=
  match s with
  | EmptyString => EmptyString
  | String c s' =>
      match trimEnd s' with
      | EmptyString => if is_space c then EmptyString else String c EmptyString
      | t => String c t
      end
  end.

(** [s.trim()]. *)
Definition trim (s : string) : string := trimStart (trimEnd s).

(** [!s.trim()]. *)
Definition blank (s : string) : bool := String.eqb (trim s) EmptyString.

(** [array.filter((_, i) => i !== index)]. *)
Fixpoint remove_index {A : Type} (index i : nat) (l : list A) : list A :=
  match l with
  | [] => []
  | x :: l' =>
      if Nat.eqb i index then remove_index index (S i) l'
      else x :: remove_index index (S i) l'
  end.

(** [array.map((x, i) => i === index ? f(x) : x)]. *)
Fixpoint map_index {A : Type} (f : A -> A) (index i : nat) (l : list A) : list A :=
  match l with
  | [] => []
  | x :: l' =>
      (if Nat.eqb i index then f x else x) :: map_index f index (S i) l'
  end.

End JsText.

(* ===================================================================== *)
(** ** Products page: the BOM editor of [ProductDialog] *)
(* ===================================================================== *)

Module ProductDialog.
Import Js JsText.

(** The rows the editor starts with:
    [product?.bom?.length ? product.bom : [{ materialId: '', qty: 1 }]]. *)
Definition initial_bom (product : option Product) : list BOMItem :=
  match product with
  | Some p =>
      match bom p with
      | Some (item :: items) => item :: items
      | _ => [mkBOMItem EmptyString 1]
      end
  | None => [mkBOMItem EmptyString 1]
  end.

Definition addBomItem (prev : list BOMItem) : list BOMItem :=
  prev ++ [mkBOMItem EmptyString 1].

Definition removeBomItem (index : nat) (prev : list BOMItem) : list BOMItem :=
  remove_index index 0 prev.

(** The two ways [updateBomItem(index, field, value)] is called: with a
    material picked from the list, and with the quantity field, whose
    value is [parseInt(e.target.value) || 1]; the text of the number
    field is taken to read below 2^53, where the integer read is the
    value. *)
Inductive BomEdit : Type :=
  | PickMaterial (value : string)
  | TypeQty (text : string).

Definition typed_qty (text : string) : Z :=
  match parseInt text 0 with
  | Int z => if z =? 0 then 1 else z
  | _ => 1
  end.

Definition edit_item (e : BomEdit) (item : BOMItem) : BOMItem :=
  match e with
  | PickMaterial value => {| materialId := value; qty := qty item |}
  | TypeQty text => {| materialId := materialId item; qty := typed_qty text |}
  end.

Definition updateBomItem (index : nat) (e : BomEdit) (prev : list BOMItem)
    : list BOMItem :=
  map_index (edit_item e) index 0 prev.

(** What the user can do to the rows; the remove button of a row is
    disabled while there is one row only. *)
Inductive RowEvent : Type :=
  | AddRow
  | RemoveRow (index : nat)
  | EditRow (index : nat) (e : BomEdit).

Definition row_event (rows : list BOMItem) (ev : RowEvent) : list BOMItem :=
  match ev with
  | AddRow => addBomItem rows
  | RemoveRow index =>
      if (length rows =? 1)%nat then rows else removeBomItem index rows
  | EditRow index e => updateBomItem index e rows
  end.

(** [item.materialId && item.qty > 0]. *)
Definition valid_item (item : BOMItem) : bool :=
  negb (String.eqb (materialId item) EmptyString) && (0 <? qty item).

(** What [handleSubmit] hands to [onSave]; the price, a decimal, is not
    carried. *)
Record Submitted : Type := mkSubmitted {
  s_name : string;
  s_variant : option string;
  s_sku : string;
  s_bom : option (list BOMItem)
}.

(** [handleSubmit]: [None] when name or SKU is blank and the dialog only
    shows the error. *)
Definition handleSubmit (name variant sku : string) (rows : list BOMItem)
    : option Submitted :=
  if blank name || blank sku then None
  else
    let validBom := List.filter valid_item rows in
    Some {| s_name := trim name;
            s_variant := if String.eqb (trim variant) EmptyString then None
                         else Some (trim variant);
            s_sku := trim sku;
            s_bom := match validBom with [] => None | _ => Some validBom end |}.

(** The product row a successful save stores for what was submitted. *)
Definition stored_product (id : string) (s : Submitted) : Product :=
  {| p_id := id; p_name := s_name s; p_variant := s_variant s;
     p_sku := s_sku s; bom := s_bom s; p_archived := false |}.

End ProductDialog.

(* ===================================================================== *)
(** ** Fulfillment page: quick orders and the search by code *)
(* ===================================================================== *)

Module QuickOrders.
Import Js JsText OrderUtils.

(** A row of [QuickOrderDialog]. *)
Record QuickLine : Type := mkQuickLine {
  ql_product_id : string;
  ql_qty : Z
}.

(** [line.product_id && line.qty > 0]. *)
Definition valid_line (line : QuickLine) : bool :=
  negb (String.eqb (ql_product_id line) EmptyString) && (0 <? ql_qty line).

Record OrderData : Type := mkOrderData {
  od_customer_name : string;
  od_lines : list QuickLine
}.

(** [handleSubmit] of the dialog: what it passes to [onSave], or which
    error it shows. *)
Inductive Submit : Type :=
  | NameRequired
  | ProductRequired
  | Save (orderData : OrderData).

Definition handleSubmit (customerName : string) (lines : list QuickLine) : Submit :=
  if blank customerName then NameRequired
  else
    match List.filter valid_line lines with
    | [] => ProductRequired
    | validLines =>
        Save {| od_customer_name := trim customerName; od_lines := validLines |}
    end.

(** *** [createQuickOrder] on the tables *)

Section Tables.

(** The identifiers [uuid_generate_v4()] hands out. *)
Variable uuid : nat -> string.

Definition has_id (id : string) (o : Order) : bool := String.eqb (o_id o) id.

(** [insert([{ customer_name, channel: 'MANUAL' }]).select().single()]:
    the other columns take their defaults; the primary key has to be
    new. *)
Definition insert_manual (db : IntegrationsPage.Db) (name : string)
    : result (Order * IntegrationsPage.Db) :=
  let id := uuid (IntegrationsPage.next_uuid db) in
  if existsb (has_id id) (IntegrationsPage.orders db) then Throw (DbError "23505")
  else
    let row := {| o_id := id; o_code := None; channel := "MANUAL";
                  external_id := None; customer_name := Some name;
                  status := "PENDING"; carrier := None; tracking := None |} in
    Ok (row, {| IntegrationsPage.orders := IntegrationsPage.orders db ++ [row];
                IntegrationsPage.products := IntegrationsPage.products db;
                IntegrationsPage.order_lines_tbl := IntegrationsPage.order_lines_tbl db;
                IntegrationsPage.next_uuid := S (IntegrationsPage.next_uuid db) |}).

Definition set_code (code : string) (o : Order) : Order :=
  {| o_id := o_id o; o_code := Some code; channel := channel o;
     external_id := external_id o; customer_name := customer_name o;
     status := status o; carrier := carrier o; tracking := tracking o |}.

(** [update({ code }).eq('id', id)] under the unique constraint on
    [code]: it fails when a row that is not updated holds the code, or
    when it would give the code to two rows. *)
Definition update_code (db : IntegrationsPage.Db) (id code : string)
    : result IntegrationsPage.Db :=
  let os := IntegrationsPage.orders db in
  if existsb (fun o => negb (has_id id o) && IntegrationsPage.code_taken code o) os
     || (1 <? length (List.filter (has_id id) os))%nat
  then Throw (DbError "23505")
  else
    Ok {| IntegrationsPage.orders :=
            map (fun o => if has_id id o then set_code code o else o) os;
          IntegrationsPage.products := IntegrationsPage.products db;
          IntegrationsPage.order_lines_tbl := IntegrationsPage.order_lines_tbl db;
          IntegrationsPage.next_uuid := IntegrationsPage.next_uuid db |}.

Definition product_known (db : IntegrationsPage.Db) (product_id : string) : bool :=
  existsb (fun p => String.eqb (p_id p) product_id) (IntegrationsPage.products db).

Definition qty_fits (q : Z) : bool := (-2147483648 <=? q) && (q <=? 2147483647).

Fixpoint number_rows (first : nat) (order_id : string) (ls : list QuickLine)
    : list OrderLine :=
  match ls with
  | [] => []
  | l :: ls' =>
      {| ol_id := uuid first; order_id := order_id;
         product_id := ql_product_id l; ol_qty := ql_qty l |}
      :: number_rows (S first) order_id ls'
  end.

(** [from('order_lines').insert(lines)]: all rows or none; every row
    needs a product on record and a quantity that fits the column. *)
Definition insert_quick_lines (db : IntegrationsPage.Db) (order_id : string)
    (ls : list QuickLine) : result IntegrationsPage.Db :=
  if forallb (fun l => product_known db (ql_product_id l)) ls
  then
    if forallb (fun l => qty_fits (ql_qty l)) ls
    then
      Ok {| IntegrationsPage.orders := IntegrationsPage.orders db;
            IntegrationsPage.products := IntegrationsPage.products db;
            IntegrationsPage.order_lines_tbl :=
              IntegrationsPage.order_lines_tbl db
              ++ number_rows (IntegrationsPage.next_uuid db) order_id ls;
            IntegrationsPage.next_uuid :=
              (IntegrationsPage.next_uuid db + length ls)%nat |}
    else Throw (DbError "22003")
  else Throw (DbError "23503").

(** What the page tells the user. *)
Inductive Toast : Type :=
  | OrderCreated (code : string)
  | FailedToCreate.

(** [createQuickOrder(orderData)] in the year [year]: insert the order,
    derive its code from the new id and store it, insert the lines. The
    three writes are separate; the first error ends the sequence. *)
Definition createQuickOrder (year : N) (db : IntegrationsPage.Db)
    (orderData : OrderData) : IntegrationsPage.Db * Toast :=
  match insert_manual db (od_customer_name orderData) with
  | Throw _ => (db, FailedToCreate)
  | Ok (order, db1) =>
      match generateOrderCode (Some (o_id order)) year with
      | Throw _ => (db1, FailedToCreate)
      | Ok code =>
          match update_code db1 (o_id order) code with
          | Throw _ => (db1, FailedToCreate)
          | Ok db2 =>
              match insert_quick_lines db2 (o_id order) (od_lines orderData) with
              | Throw _ => (db2, FailedToCreate)
              | Ok db3 => (db3, OrderCreated code)
              end
          end
      end
  end.

End Tables.

(** *** [searchOrder] *)

Inductive Search : Type :=
  | NothingTyped
  | OrderNotFound
  | Navigate (id : string).

(** [searchOrder()] for the text in the search field: the order whose
    code is [searchQuery.trim().toUpperCase()], when exactly one has it.
    The upper-casing is the one of [Js]: the text is taken to be ASCII. *)
Definition searchOrder (db : IntegrationsPage.Db) (searchQuery : string) : Search :=
  if blank searchQuery then NothingTyped
  else
    let code := toUpperCase (trim searchQuery) in
    match IntegrationsPage.single
            (List.filter (IntegrationsPage.code_taken code) (IntegrationsPage.orders db)) with
    | Some data => Navigate (o_id data)
    | None => OrderNotFound
    end.

End QuickOrders.

(* ===================================================================== *)
(** ** Order detail page: the two actions and when they are offered *)
(* ===================================================================== *)

Module OrderActions.

Definition status_is (st : OrderDetailPage.State) (s : string) : bool :=
  match OrderDetailPage.order st with
  | Some o => String.eqb (status (owl_order o)) s
  | None => false
  end.

(** [order?.status === 'PENDING' || order?.status === 'IN_PROGRESS']. *)
Definition canMarkShipped (st : OrderDetailPage.State) : bool :=
  status_is st "PENDING" || status_is st "IN_PROGRESS".

(** [order?.status === 'PENDING']. *)
Definition canSetInProgress (st : OrderDetailPage.State) : bool :=
  status_is st "PENDING".

(** A press on one of the two buttons, with the contents of the carrier
    and tracking fields at that moment and the outcome of the write. A
    button that is not rendered cannot be pressed. *)
Inductive Press : Type :=
  | MarkShipped (carrier' tracking' : string) (write_ok : bool)
  | SetInProgress (write_ok : bool).

Definition press (st : OrderDetailPage.State) (p : Press) : OrderDetailPage.State :=
  match p with
  | MarkShipped carrier' tracking' write_ok =>
      if canMarkShipped st
      then OrderDetailPage.handleMarkShipped carrier' tracking' write_ok st
      else st
  | SetInProgress write_ok =>
      if canSetInProgress st
      then OrderDetailPage.handleSetInProgress write_ok st
      else st
  end.

(** Presses one after the other, each with its write answered before
    the next press; [OrderWrites] below lets them overlap. *)
Definition presses (st : OrderDetailPage.State) (ps : list Press)
    : OrderDetailPage.State :=
  fold_left press ps st.

End OrderActions.

(* ===================================================================== *)
(** ** Order detail page: writes that overlap *)
(* ===================================================================== *)

(** [updateOrderStatus] waits for its write, and nothing keeps a button
    from being pressed while an earlier write is still on its way. The
    steps of the handler are therefore taken apart here: the press, which
    fixes the order id and the patch from what the page shows then; the
    write reaching the table; and the answer reaching the page, where
    [setOrder(prev => ...)] applies the patch to whatever is shown at
    that moment. *)
Module OrderWrites.

Inductive Stage : Type :=
  | Sent
  | Answered (write_ok : bool)
  | Closed.

Record Write : Type := mkWrite {
  w_id : string;
  w_patch : StatusPatch;
  w_stage : Stage
}.

Record State : Type := mkState {
  page : OrderDetailPage.State;
  writes : list Write
}.

Inductive Button : Type :=
  | MarkShipped (carrier' tracking' : string)
  | SetInProgress.

Inductive Event : Type :=
  | Pressed (b : Button)
  | Arrives (i : nat) (write_ok : bool)
  | Returns (i : nat).

(** Whether the button is rendered, and the patch its handler builds. *)
Definition offered (b : Button) (pg : OrderDetailPage.State) : bool :=
  match b with
  | MarkShipped _ _ => OrderActions.canMarkShipped pg
  | SetInProgress => OrderActions.canSetInProgress pg
  end.

Definition patch_of (b : Button) : StatusPatch :=
  match b with
  | MarkShipped carrier' tracking' =>
      updateData "SHIPPED" (Some carrier') (Some tracking')
  | SetInProgress => updateData "IN_PROGRESS" None None
  end.

Definition at_stage (stage : Stage) (w : Write) : Write :=
  {| w_id := w_id w; w_patch := w_patch w; w_stage := stage |}.

Definition step (st : State) (e : Event) : State :=
  match e with
  | Pressed b =>
      match OrderDetailPage.order (page st) with
      | Some cur =>
          if offered b (page st)
          then {| page := page st;
                  writes := writes st
                            ++ [{| w_id := o_id (owl_order cur);
                                   w_patch := patch_of b;
                                   w_stage := Sent |}] |}
          else st
      | None => st
      end
  | Arrives i write_ok =>
      match nth_error (writes st) i with
      | Some w =>
          match w_stage w with
          | Sent =>
              {| page :=
                   {| OrderDetailPage.order := OrderDetailPage.order (page st);
                      OrderDetailPage.table :=
                        if write_ok
                        then update_orders (w_id w) (w_patch w)
                               (OrderDetailPage.table (page st))
                        else OrderDetailPage.table (page st) |};
                 writes := <[i := at_stage (Answered write_ok) w]> (writes st) |}
          | _ => st
          end
      | None => st
      end
  | Returns i =>
      match nth_error (writes st) i with
      | Some w =>
          match w_stage w with
          | Answered write_ok =>
              {| page :=
                   {| OrderDetailPage.order :=
                        if write_ok
                        then option_map (OrderDetailPage.spread (w_patch w))
                               (OrderDetailPage.order (page st))
                        else OrderDetailPage.order (page st);
                      OrderDetailPage.table := OrderDetailPage.table (page st) |};
                 writes := <[i := at_stage Closed w]> (writes st) |}
          | _ => st
          end
      | None => st
      end
  end.

Definition run (st : State) (es : list Event) : State := fold_left step es st.

(** The page as it is opened: an order loaded, no write on its way. *)
Definition opened (w : OrderWithLines) (tbl : list Order) : State :=
  {| page := OrderDetailPage.mkState (Some w) tbl; writes := [] |}.

(** The events of a press whose write is answered before anything else
    happens. *)
Definition alone (p : OrderActions.Press) (n : nat) : list Event :=
  match p with
  | OrderActions.MarkShipped carrier' tracking' write_ok =>
      [Pressed (MarkShipped carrier' tracking'); Arrives n write_ok; Returns n]
  | OrderActions.SetInProgress write_ok =>
      [Pressed SetInProgress; Arrives n write_ok; Returns n]
  end.

(** A patch of one of the two buttons. *)
Definition written (p : StatusPatch) : Prop :=
  patch_status p = "IN_PROGRESS" \/ patch_status p = "SHIPPED".

(** The status the page shows. *)
Definition shown_status (st : State) : option string :=
  option_map (fun w => status (owl_order w)) (OrderDetailPage.order (page st)).

(** What every step keeps: the order shown is the order opened, with its
    lines, in the status it was opened in or in one that a button
    writes, and every write carries the patch of a button. *)
Definition kept (w : OrderWithLines) (st : State) : Prop :=
  (exists w',
     OrderDetailPage.order (page st) = Some w'
     /\ o_id (owl_order w') = o_id (owl_order w)
     /\ order_lines w' = order_lines w
     /\ (status (owl_order w') = status (owl_order w)
         \/ status (owl_order w') = "IN_PROGRESS"
         \/ status (owl_order w') = "SHIPPED"))
  /\ Forall (fun wr => written (w_patch wr)) (writes st).

(** An order that is not PENDING is offered Mark as Shipped alone, so
    every write carries SHIPPED, and SHIPPED once shown stays. *)
Definition shipping_only (st : State) : Prop :=
  shown_status st <> Some "PENDING"
  /\ Forall (fun wr => patch_status (w_patch wr) = "SHIPPED") (writes st).

End OrderWrites.

(* ===================================================================== *)
(** ** More vocabulary for the properties below *)
(* ===================================================================== *)

Module Vocab.
Import Js.

(** Every material on record has stock of at least 0. *)
Definition stock_nonneg (materialsMap : gmap string Material) : Prop :=
  forall k material, materialsMap !! k = Some material -> 0 <= on_hand material.

(** [n] units can be built: every line finds its material with enough
    stock for [n] times its quantity. *)
Definition buildable (materialsMap : gmap string Material)
    (items : list BOMItem) (n : Z) : Prop :=
  Forall (fun item =>
            exists material, materialsMap !! materialId item = Some material
                             /\ n * qty item <= on_hand material) items.

(** The lookup [m2] knows every material of [m1], with at least as much
    stock. *)
Definition stock_le (m1 m2 : gmap string Material) : Prop :=
  forall k a, m1 !! k = Some a -> exists b, m2 !! k = Some b /\ on_hand a <= on_hand b.

(** The page shows what the table holds. *)
Definition in_sync (st : MaterialsPage.State) : Prop :=
  MaterialsPage.materials st = MaterialsPage.loadMaterials (MaterialsPage.table st).

(** A click whose write goes through, or fails with the reload going
    through. *)
Definition settled (c : MaterialsPage.Click) : bool :=
  match c with
  | MaterialsPage.Minus _ MaterialsPage.WriteFailed_ReloadFailed
  | MaterialsPage.Plus _ MaterialsPage.WriteFailed_ReloadFailed => false
  | _ => true
  end.

(** No two orders carry the same code. *)
Definition unique_codes (os : list Order) : Prop :=
  forall code,
    (length (List.filter (IntegrationsPage.code_taken code) os) <= 1)%nat.

(** Place of a status in the flow PENDING, IN_PROGRESS, SHIPPED. *)
Definition rank (s : string) : option nat :=
  if String.eqb s "PENDING" then Some 0%nat
  else if String.eqb s "IN_PROGRESS" then Some 1%nat
  else if String.eqb s "SHIPPED" then Some 2%nat
  else None.



(** All lines of all groups, in the order of the groups. *)
Definition all_lines (gs : list IntegrationsPage.GroupedOrder)
    : list IntegrationsPage.Line :=
  concat (map IntegrationsPage.lines gs).

Definition kept_rows (data : list IntegrationsPage.CSVRow)
    : list IntegrationsPage.CSVRow :=
  List.filter (fun row => negb (IntegrationsPage.row_skipped row)) data.

(** A text of ASCII characters only, and one without white space. *)
Definition is_ascii (c : ascii) : bool := (code c <? 128)%N.
Definition no_space (c : ascii) : bool := negb (is_space c).

End Vocab.

Module Vocab2.
Import Js.

(** A character a code is made of: a digit, a capital letter or the
    hyphen. *)
Definition code_char (c : ascii) : bool := Spec.is_0_9_A_Z c || Ascii.eqb c "-".

(** The row [createQuickOrder] inserts first, and the row once it has its
    code. *)
Definition manual_row (id name : string) (code : option string) : Order :=
  {| o_id := id; o_code := code; channel := "MANUAL"; external_id := None;
     customer_name := Some name; status := "PENDING";
     carrier := None; tracking := None |}.

End Vocab2.

(* ===================================================================== *)
(** ** Sign-in state and the guard of the protected pages *)
(* ===================================================================== *)

Module Auth.

(** The events [onAuthStateChange] tells apart, and all others. *)
Inductive AuthEvent : Type :=
  | SIGNED_IN
  | SIGNED_OUT
  | OtherEvent.

(** A session carries its user. *)
Record Session (User : Type) : Type := mkSession {
  session_user : User
}.
Arguments mkSession {User} _.
Arguments session_user {User} _.

(** The state of [AuthProvider]. *)
Record State (User : Type) : Type := mkState {
  user : option User;
  session : option (Session User);
  loading : bool
}.
Arguments mkState {User} _ _ _.
Arguments user {User} _.
Arguments session {User} _.
Arguments loading {User} _.

Definition initial {User : Type} : State User :=
  {| user := None; session := None; loading := true |}.

(** What reaches the provider: the answer of [getSession()], or a change
    of the sign-in state. *)
Inductive Update (User : Type) : Type :=
  | InitialSession (s : option (Session User))
  | StateChange (event : AuthEvent) (s : option (Session User)).
Arguments InitialSession {User} _.
Arguments StateChange {User} _ _.

(** [setSession(session); setUser(session?.user ?? null);
    setLoading(false)], in both handlers. *)
Definition receive {User : Type} (st : State User) (u : Update User) : State User :=
  let s := match u with InitialSession s => s | StateChange _ s => s end in
  {| user := option_map session_user s; session := s; loading := false |}.

(** What [AuthGuard] renders, and whether its effect sends the browser
    to the login page. *)
Inductive View : Type :=
  | Spinner
  | Nothing
  | Children.

Definition guard {User : Type} (st : State User) : View :=
  if loading st then Spinner
  else match user st with
       | None => Nothing
       | Some _ => Children
       end.

Definition guard_redirects {User : Type} (st : State User) : bool :=
  negb (loading st) && match user st with None => true | Some _ => false end.

End Auth.

Module Vocab3.

(** What of a material the stock buttons have no business with. *)
Definition fixed_part (m : Material)
    : string * string * option string * string * Z * bool :=
  (m_id m, m_name m, m_variant m, m_sku m, reorder_point m, m_archived m).

End Vocab3.

(* ===================================================================== *)
(** ** Reading numbers, in the words of the specification *)
(* ===================================================================== *)

Module Reading.
Import Js Spec.

(** A hexadecimal digit, by the ranges of its character code, and what
    it is worth. *)
Definition hex_char (c : ascii) : bool :=
  ((48 <=? code c) && (code c <=? 57)
   || (97 <=? code c) && (code c <=? 102)
   || (65 <=? code c) && (code c <=? 70))%N.

Definition hex_value (c : ascii) : Z :=
  if (code c <=? 57)%N then Z.of_N (code c) - 48
  else if (code c <=? 70)%N then Z.of_N (code c) - 55
  else Z.of_N (code c) - 87.

Fixpoint drop_while (P : ascii -> bool) (l : list ascii) : list ascii :=
  match l with
  | c :: l' => if P c then drop_while P l' else l
  | [] => []
  end.

Fixpoint take_while (P : ascii -> bool) (l : list ascii) : list ascii :=
  match l with
  | c :: l' => if P c then c :: take_while P l' else []
  | [] => []
  end.

Definition skip_plus (l : list ascii) : list ascii :=
  match l with
  | "+"%char :: l' => l'
  | _ => l
  end.

Definition skip_0x (l : list ascii) : list ascii :=
  match l with
  | "0"%char :: "x"%char :: l' => l'
  | "0"%char :: "X"%char :: l' => l'
  | _ => l
  end.

(** The integer that a text without hyphens shows when read as
    hexadecimal: white space in front, one plus sign and a prefix [0x] or
    [0X] are passed over, and the longest run of hexadecimal digits that
    follows is taken at its positional value. There is no integer to read
    when that run is empty. *)
Definition hex_reading (l : list ascii) : option Z :=
  match take_while hex_char (skip_0x (skip_plus (drop_while is_space l))) with
  | [] => None
  | ds => Some (positional 16 (map hex_value ds))
  end.

(** What a character of [0-9A-Z] is worth in radix 36, and the value of a
    text of such characters. *)
Definition base36_digit (c : ascii) : Z :=
  if (code c <=? 57)%N then Z.of_N (code c) - 48 else Z.of_N (code c) - 55.

Definition base36_value (s : string) : Z :=
  positional 36 (map base36_digit (list_ascii_of_string s)).

(** A rendering without a superfluous leading zero. *)
Definition no_leading_zero (s : string) : Prop :=
  s = "0" \/ exists c s', s = String c s' /\ c <> "0"%char.

End Reading.

Import Js OrderUtils.

(* ===================================================================== *)
(** ** Digits and radix conversion *)
(* ===================================================================== *)

Section Digits.

Lemma code_ascii_of_N (n : N) : (n < 256)%N -> code (ascii_of_N n) = n.
Proof. intros Hn. unfold code. now apply N_ascii_embedding. Qed.

Lemma to_digits_small fuel r n acc :
  0 <= n < r -> to_digits fuel r n acc = n :: acc.
Proof.
  intros Hn. destruct fuel as [|fuel]; simpl.
  - now rewrite Z.mod_small.
  - destruct (Z.ltb_spec n r); [reflexivity | lia].
Qed.

Lemma to_digits_acc fuel r : forall n acc,
  to_digits fuel r n acc = to_digits fuel r n [] ++ acc.
Proof.
  induction fuel as [|fuel IH]; intros n acc; simpl.
  - reflexivity.
  - destruct (n <? r); [reflexivity|].
    rewrite (IH _ (n mod r :: acc)), (IH _ [n mod r]).
    now rewrite <- app_assoc.
Qed.

Lemma to_digits_nonempty fuel r n acc : to_digits fuel r n acc <> [].
Proof.
  rewrite to_digits_acc. destruct fuel as [|fuel]; simpl.
  - discriminate.
  - destruct (n <? r); [discriminate|].
    rewrite to_digits_acc. intros H.
    apply app_eq_nil in H as [H _]. apply app_eq_nil in H as [_ H]. discriminate.
Qed.

Lemma digits_value_snoc r ds d :
  digits_value r (ds ++ [d]) = digits_value r ds * r + d.
Proof. unfold digits_value. now rewrite fold_left_app. Qed.

Lemma half_bound r n k : 2 <= r -> 0 <= n < 2 ^ (k + 1) -> 0 <= k -> 0 <= n / r < 2 ^ k.
Proof.
  intros Hr [Hn0 Hn] Hk. split; [apply Z.div_pos; lia|].
  apply Z.div_lt_upper_bound; [lia|].
  rewrite Z.pow_add_r, Z.pow_1_r in Hn by lia.
  assert (0 < 2 ^ k) by (apply Z.pow_pos_nonneg; lia). nia.
Qed.

Lemma to_digits_value r : 2 <= r -> forall fuel n,
  0 <= n < 2 ^ (Z.of_nat fuel + 1) ->
  digits_value r (to_digits fuel r n []) = n.
Proof.
  intros Hr. induction fuel as [|fuel IH]; intros n Hn.
  - change (2 ^ (Z.of_nat 0 + 1)) with 2 in Hn. simpl.
    rewrite Z.mod_small by lia. unfold digits_value. simpl. lia.
  - simpl. destruct (Z.ltb_spec n r) as [Hlt|Hge].
    + unfold digits_value. simpl. lia.
    + rewrite to_digits_acc, digits_value_snoc, IH.
      * pose proof (Z.div_mod n r). lia.
      * apply half_bound; [lia| |lia].
        replace (Z.of_nat fuel + 1 + 1) with (Z.of_nat (S fuel) + 1) by lia. exact Hn.
Qed.

Lemma to_digits_range r : 2 <= r -> forall fuel n acc,
  0 <= n < 2 ^ (Z.of_nat fuel + 1) ->
  Forall (fun d => 0 <= d < r) acc ->
  Forall (fun d => 0 <= d < r) (to_digits fuel r n acc).
Proof.
  intros Hr. induction fuel as [|fuel IH]; intros n acc Hn Hacc; simpl.
  - constructor; [apply Z.mod_pos_bound; lia | exact Hacc].
  - destruct (Z.ltb_spec n r) as [Hlt|Hge].
    + constructor; [lia | exact Hacc].
    + apply IH.
      * apply half_bound; [lia| |lia].
        replace (Z.of_nat fuel + 1 + 1) with (Z.of_nat (S fuel) + 1) by lia. exact Hn.
      * constructor; [apply Z.mod_pos_bound; lia | exact Hacc].
Qed.

Lemma log2_fuel n : 0 <= n -> 0 <= n < 2 ^ (Z.of_nat (Z.to_nat (Z.log2 n)) + 1).
Proof.
  intros Hn. rewrite Z2Nat.id by apply Z.log2_nonneg.
  destruct (Z.eq_dec n 0) as [->|Hne].
  - simpl. lia.
  - pose proof (Z.log2_spec n ltac:(lia)) as [_ H].
    rewrite <- Z.add_1_r in H. lia.
Qed.

(** The fuel of [nat_digits] is enough: the digits denote the number. *)
Lemma nat_digits_value r n :
  2 <= r -> 0 <= n -> digits_value r (nat_digits r n) = n.
Proof. intros Hr Hn. apply to_digits_value; [exact Hr | now apply log2_fuel]. Qed.

Lemma nat_digits_range r n :
  2 <= r -> 0 <= n -> Forall (fun d => 0 <= d < r) (nat_digits r n).
Proof.
  intros Hr Hn. apply to_digits_range; [exact Hr | now apply log2_fuel | constructor].
Qed.

Lemma nat_digits_nonempty r n : nat_digits r n <> [].
Proof. apply to_digits_nonempty. Qed.

Lemma digits_value_nonneg r ds :
  0 <= r -> Forall (fun d => 0 <= d) ds -> 0 <= digits_value r ds.
Proof.
  intros Hr. unfold digits_value.
  assert (G : forall a, 0 <= a -> Forall (fun d => 0 <= d) ds ->
              0 <= fold_left (fun acc d => acc * r + d) ds a).
  { induction ds as [|d ds IH]; intros a Ha Hds; simpl; [exact Ha|].
    inversion Hds; subst. apply IH; [nia | assumption]. }
  apply G. lia.
Qed.

End Digits.

Example code_25 :
  generateOrderCode (Some "123e4567-e89b-12d3-a456-426614174000") 2025
  = Ok "25-5KOJCW".
Proof. vm_compute. reflexivity. Qed.

(* ===================================================================== *)
(** ** Order codes *)
(* ===================================================================== *)

Import Spec.

Section OrderCode.

(** A boolean property checked on [0 .. n-1] holds below [n]. *)
Lemma below_cases (P : Z -> bool) (n : nat) :
  forallb (fun k => P (Z.of_nat k)) (seq 0 n) = true ->
  forall d, 0 <= d < Z.of_nat n -> P d = true.
Proof.
  intros H d Hd. rewrite forallb_forall in H.
  specialize (H (Z.to_nat d)). rewrite Z2Nat.id in H by lia.
  apply H. apply in_seq. lia.
Qed.

Lemma year_string (y : Z) :
  0 <= y -> padStart 2 "0" (toString 10 (Int (y mod 100))) = two_digits y.
Proof.
  intros Hy.
  assert (Hm : 0 <= y mod 100 < 100) by (apply Z.mod_pos_bound; lia).
  assert (H10 : (y / 10) mod 10 = (y mod 100) / 10 /\ y mod 10 = (y mod 100) mod 10).
  { split; Z.div_mod_to_equations; lia. }
  unfold two_digits. destruct H10 as [-> ->].
  generalize dependent (y mod 100). intros m Hm.
  apply String.eqb_eq.
  apply (below_cases
           (fun m => String.eqb (padStart 2 "0" (toString 10 (Int m)))
                       (String (digit_char (m / 10))
                          (String (digit_char (m mod 10)) EmptyString))) 100);
    [vm_compute; reflexivity | exact Hm].
Qed.

Lemma upper_digit_char (d : Z) :
  0 <= d < 36 ->
  is_0_9_A_Z (upper_char (digit_char d)) = true
  /\ digit_value (upper_char (digit_char d)) = Some d
  /\ is_space (upper_char (digit_char d)) = false
  /\ Ascii.eqb (upper_char (digit_char d)) "-" = false
  /\ Ascii.eqb (upper_char (digit_char d)) "+" = false.
Proof.
  intros Hd.
  pose (P := fun d =>
    let c := upper_char (digit_char d) in
    is_0_9_A_Z c
    && match digit_value c with Some v => v =? d | None => false end
    && negb (is_space c) && negb (Ascii.eqb c "-") && negb (Ascii.eqb c "+")).
  assert (HP : P d = true).
  { apply (below_cases P 36); [vm_compute; reflexivity | exact Hd]. }
  unfold P in HP. cbv zeta in HP.
  repeat (apply andb_true_iff in HP as [HP ?]).
  destruct (digit_value (upper_char (digit_char d))) as [v|] eqn:Ev; [|discriminate].
  repeat split; try assumption; try (now apply negb_true_iff).
  f_equal. lia.
Qed.

Lemma toUpperCase_digits ds : toUpperCase (digits_string ds) = upper_digits ds.
Proof.
  unfold digits_string, upper_digits.
  induction ds as [|d ds IH]; simpl; [reflexivity | now rewrite IH].
Qed.

Lemma upper_digits_chars ds :
  Forall (fun d => 0 <= d < 36) ds -> all_chars is_0_9_A_Z (upper_digits ds) = true.
Proof.
  unfold upper_digits. induction 1 as [|d ds Hd _ IH]; simpl; [reflexivity|].
  rewrite IH, andb_true_r. now apply upper_digit_char.
Qed.

Lemma leading_upper_digits ds :
  Forall (fun d => 0 <= d < 36) ds -> leading_digits 36 (upper_digits ds) = ds.
Proof.
  unfold upper_digits. induction 1 as [|d ds Hd _ IH]; simpl; [reflexivity|].
  destruct (upper_digit_char d Hd) as (_ & -> & _).
  destruct (Z.ltb_spec d 36); [now rewrite IH | lia].
Qed.

(** Reading back a rendered number in radix 36 gives the number. *)
Lemma parseInt_upper_digits ds :
  ds <> [] -> Forall (fun d => 0 <= d < 36) ds ->
  parseInt (upper_digits ds) 36 = Int (digits_value 36 ds).
Proof.
  intros Hne Hds. unfold parseInt.
  assert (Ht : strip_sign (trimStart (upper_digits ds)) = (false, upper_digits ds)).
  { destruct ds as [|d ds]; [congruence|]. inversion Hds as [|? ? Hd _]; subst.
    destruct (upper_digit_char d Hd) as (_ & _ & Hs & Hm & Hp).
    unfold upper_digits. simpl. rewrite Hs. simpl. now rewrite Hm, Hp. }
  rewrite Ht. simpl. rewrite leading_upper_digits by assumption.
  destruct ds; [congruence | reflexivity].
Qed.

Lemma digit_value_nonneg c d : digit_value c = Some d -> 0 <= d.
Proof.
  unfold digit_value, is_digit, is_lower, is_upper.
  repeat match goal with
         | |- context [(?a <=? ?b)%N] => destruct (N.leb_spec a b); simpl
         end; intros [= <-]; lia.
Qed.

Lemma leading_digits_nonneg r s : Forall (fun d => 0 <= d) (leading_digits r s).
Proof.
  induction s as [|c s IH]; simpl; [constructor|].
  destruct (digit_value c) as [d|] eqn:E; [|constructor].
  destruct (d <? r); constructor; [now apply digit_value_nonneg in E | exact IH].
Qed.

Lemma trimStart_no_hyphen s :
  all_chars not_hyphen s = true -> all_chars not_hyphen (trimStart s) = true.
Proof.
  induction s as [|c s IH]; simpl; [reflexivity|].
  intros H. destruct (is_space c); [|exact H].
  apply IH. now apply andb_true_iff in H as [_ H].
Qed.

Lemma strip_sign_no_hyphen s :
  all_chars not_hyphen s = true ->
  fst (strip_sign s) = false /\ all_chars not_hyphen (snd (strip_sign s)) = true.
Proof.
  destruct s as [|c s]; simpl; [auto|].
  intros H. apply andb_true_iff in H as [Hc Hs].
  unfold not_hyphen in Hc. apply negb_true_iff in Hc. rewrite Hc.
  destruct (Ascii.eqb c "+"); simpl; [auto|].
  split; [reflexivity|]. unfold not_hyphen at 1. now rewrite Hc.
Qed.

(** Without a hyphen in the text there is no sign to read: [parseInt]
    with radix 16 gives NaN or a non-negative integer. *)
Lemma parseInt16_no_hyphen s :
  all_chars not_hyphen s = true ->
  parseInt s 16 = NaN \/ exists n, parseInt s 16 = Int n /\ 0 <= n.
Proof.
  intros H. apply trimStart_no_hyphen, strip_sign_no_hyphen in H as [Hneg _].
  unfold parseInt. destruct (strip_sign (trimStart s)) as [neg s1].
  simpl in Hneg. subst neg. simpl.
  destruct (strip_0x s1) as [rest|].
  - destruct (leading_digits 16 rest) as [|d ds] eqn:E; [now left|].
    right. eexists. split; [reflexivity|].
    apply digits_value_nonneg; [lia|]. rewrite <- E. apply leading_digits_nonneg.
  - destruct (leading_digits 16 s1) as [|d ds] eqn:E; [now left|].
    right. eexists. split; [reflexivity|].
    apply digits_value_nonneg; [lia|]. rewrite <- E. apply leading_digits_nonneg.
Qed.

Lemma strip_hyphens_no_hyphen s : all_chars not_hyphen (strip_hyphens s) = true.
Proof.
  induction s as [|c s IH]; simpl; [reflexivity|].
  destruct (Ascii.eqb c "-") eqn:E; [exact IH|].
  simpl. unfold not_hyphen at 1. now rewrite E, IH.
Qed.

Lemma drop_chars_all P n : forall s,
  all_chars P s = true -> all_chars P (drop_chars n s) = true.
Proof.
  induction n as [|n IH]; intros s H; [exact H|].
  destruct s as [|c s]; simpl; [reflexivity|].
  apply IH. simpl in H. now apply andb_true_iff in H as [_ H].
Qed.

Lemma hex_tail_no_hyphen orderId :
  all_chars not_hyphen (slice_last 8 (strip_hyphens orderId)) = true.
Proof. apply drop_chars_all, strip_hyphens_no_hyphen. Qed.

End OrderCode.

Section OrderCodeSpec.

Lemma all_ascii (P : ascii -> bool) :
  forallb (fun k => P (ascii_of_nat k)) (seq 0 256) = true -> forall c, P c = true.
Proof.
  intros H c. rewrite forallb_forall in H.
  rewrite <- (ascii_nat_embedding c). apply H, in_seq.
  pose proof (nat_ascii_bounded c). lia.
Qed.

Lemma strip_hyphens_filter s :
  list_ascii_of_string (strip_hyphens s)
  = List.filter not_hyphen (list_ascii_of_string s).
Proof.
  induction s as [|c s IH]; simpl; [reflexivity|].
  unfold not_hyphen at 1. destruct (Ascii.eqb c "-"); simpl; now rewrite IH.
Qed.

Lemma drop_chars_skipn n : forall s,
  list_ascii_of_string (drop_chars n s) = skipn n (list_ascii_of_string s).
Proof.
  induction n as [|n IH]; intros [|c s]; simpl; try reflexivity. apply IH.
Qed.

Lemma length_list_ascii s : length (list_ascii_of_string s) = String.length s.
Proof. induction s as [|c s IH]; simpl; [reflexivity | now rewrite IH]. Qed.

(** The text [generateOrderCode] parses is the last 8 characters of the
    identifier without its hyphens. *)
Lemma slice_strip_hex_tail orderId :
  list_ascii_of_string (slice_last 8 (strip_hyphens orderId)) = hex_tail orderId.
Proof.
  unfold slice_last, hex_tail, last_n.
  rewrite drop_chars_skipn, <- length_list_ascii, strip_hyphens_filter.
  rewrite firstn_rev, rev_involutive. reflexivity.
Qed.

Lemma fold_positional r ds : forall a,
  fold_left (fun acc d => acc * r + d) ds a
  = a * r ^ Z.of_nat (length ds) + positional r ds.
Proof.
  induction ds as [|d ds IH]; intros a; simpl length; simpl fold_left; simpl positional.
  - change (Z.of_nat 0) with 0. rewrite Z.pow_0_r. lia.
  - rewrite IH, Nat2Z.inj_succ, Z.pow_succ_r by lia. lia.
Qed.

(** Horner's rule computes the positional value. *)
Lemma digits_value_positional r ds : digits_value r ds = positional r ds.
Proof. unfold digits_value. rewrite fold_positional. lia. Qed.

Lemma is_hex_char c :
  is_hex c = true ->
  is_space c = false /\ Ascii.eqb c "-" = false /\ Ascii.eqb c "+" = false
  /\ Ascii.eqb c "x" = false /\ Ascii.eqb c "X" = false.
Proof.
  intros H.
  pose (P := fun c => negb (is_hex c)
     || (negb (is_space c) && negb (Ascii.eqb c "-") && negb (Ascii.eqb c "+")
         && negb (Ascii.eqb c "x") && negb (Ascii.eqb c "X"))).
  assert (HP : P c = true) by (apply all_ascii; vm_compute; reflexivity).
  unfold P in HP. rewrite H in HP. simpl in HP.
  repeat (apply andb_true_iff in HP as [HP ?]).
  repeat split; now apply negb_true_iff.
Qed.

Lemma leading_hex_digits s :
  all_chars is_hex s = true -> leading_digits 16 s = hex_digits s.
Proof.
  unfold hex_digits. induction s as [|c s IH]; simpl; [reflexivity|].
  intros H. apply andb_true_iff in H as [Hc Hs]. unfold is_hex in Hc.
  destruct (digit_value c) as [d|]; [|discriminate].
  rewrite Hc. simpl. now rewrite IH.
Qed.

(** On a text made of hexadecimal digits only, as the tail of a UUID is,
    [parseInt(_, 16)] is the positional value of the digits. *)
Lemma parseInt16_hex s :
  s <> EmptyString -> all_chars is_hex s = true ->
  parseInt s 16 = Int (positional 16 (hex_digits s)).
Proof.
  intros Hne Hs. unfold parseInt.
  destruct s as [|c s]; [congruence|].
  pose proof Hs as Hall. simpl in Hs. apply andb_true_iff in Hs as [Hc Hs].
  destruct (is_hex_char c Hc) as (Hsp & Hm & Hp & _).
  assert (Hx : strip_0x (String c s) = None).
  { destruct s as [|c1 s]; simpl; [reflexivity|].
    simpl in Hs. apply andb_true_iff in Hs as [Hc1 _].
    destruct (is_hex_char c1 Hc1) as (_ & _ & _ & -> & ->).
    now rewrite andb_false_r. }
  simpl trimStart. rewrite Hsp. simpl strip_sign. rewrite Hm, Hp.
  cbv beta iota. simpl orb. cbv iota. rewrite Hx.
  change (36 <? 16) with false. change (16 =? 0) with false. cbv iota.
  rewrite (leading_hex_digits _ Hall), <- digits_value_positional.
  unfold hex_digits. simpl. reflexivity.
Qed.

End OrderCodeSpec.

(** C3. Called without an identifier, as [importOrders] calls it,
    [generateOrderCode] throws: there is no fallback identifier. *)
Theorem generateOrderCode_without_identifier (year : N) :
  generateOrderCode None year
  = Throw (TypeError "Cannot read properties of undefined (reading 'replace')").
Proof. reflexivity. Qed.

(* ===================================================================== *)
(** ** Sellable quantities *)
(* ===================================================================== *)

Import ProductsPage.

Section Sellable.

Variable materialsMap : gmap string Material.

Lemma minimum_min a x xs : minimum (Z.min a x) xs = Z.min a (minimum x xs).
Proof.
  revert a x. induction xs as [|y ys IH]; intros a x; simpl; [reflexivity|].
  rewrite <- !IH. f_equal. lia.
Qed.

Lemma minimum_nonneg x xs :
  0 <= x -> Forall (fun y => 0 <= y) xs -> 0 <= minimum x xs.
Proof.
  intros Hx Hxs. revert x Hx. induction Hxs as [|y ys Hy _ IH]; intros x Hx; simpl.
  - exact Hx.
  - specialize (IH y Hy). lia.
Qed.

Local Abbreviation line_ok := (Spec.line_ok materialsMap).

Lemma line_allows_nonneg item : line_ok item -> 0 <= line_allows materialsMap item.
Proof.
  intros [Hq Hm]. unfold line_allows.
  destruct (materialsMap !! materialId item) as [material|]; [|lia].
  apply Z.div_pos; [now apply Hm | lia].
Qed.

Lemma sellable_step_seed item :
  line_ok item ->
  sellable_step materialsMap PosInf item = Int (line_allows materialsMap item).
Proof.
  intros [Hq _]. unfold sellable_step, line_allows, floor_div.
  destruct (materialsMap !! materialId item) as [material|]; [|reflexivity].
  destruct (Z.eqb_spec (qty item) 0); [lia | reflexivity].
Qed.

Lemma sellable_step_int a item :
  0 <= a -> line_ok item ->
  sellable_step materialsMap (Int a) item
  = Int (Z.min a (line_allows materialsMap item)).
Proof.
  intros Ha [Hq _]. unfold sellable_step, line_allows, floor_div.
  destruct (materialsMap !! materialId item) as [material|].
  - destruct (Z.eqb_spec (qty item) 0); [lia | reflexivity].
  - f_equal. lia.
Qed.

Lemma fold_sellable items : forall a,
  0 <= a -> Forall line_ok items ->
  fold_left (sellable_step materialsMap) items (Int a)
  = Int (minimum a (map (line_allows materialsMap) items)).
Proof.
  induction items as [|item items IH]; intros a Ha Hok; simpl; [reflexivity|].
  inversion Hok as [|? ? Hitem Hrest]; subst.
  rewrite sellable_step_int by assumption.
  pose proof (line_allows_nonneg item Hitem).
  rewrite IH by (assumption || lia). now rewrite minimum_min.
Qed.

Lemma calculateSellable_cons item items :
  Forall line_ok (item :: items) ->
  calculateSellable (Some (item :: items)) materialsMap
  = Int (minimum (line_allows materialsMap item)
                 (map (line_allows materialsMap) items)).
Proof.
  intros Hok. inversion Hok as [|? ? Hitem Hrest]; subst.
  unfold calculateSellable. simpl fold_left.
  rewrite sellable_step_seed by assumption.
  apply fold_sellable; [now apply line_allows_nonneg | assumption].
Qed.

End Sellable.

(** C1, amended. For a non-empty BOM with quantities of at least 1 and a
    lookup in which the materials the BOM names are not in the negative,
    [calculateSellable] is the minimum over the lines of
    [floor(on_hand / qty)], a line whose material is missing counting 0. *)
Theorem calculateSellable_minimum (materialsMap : gmap string Material)
    (item : BOMItem) (items : list BOMItem) :
  Forall (fun it => 1 <= qty it) (item :: items) ->
  (forall it material, In it (item :: items) ->
     materialsMap !! materialId it = Some material -> 0 <= on_hand material) ->
  calculateSellable (Some (item :: items)) materialsMap
  = Int (minimum (line_allows materialsMap item)
                 (map (line_allows materialsMap) items)).
Proof.
  intros Hq Hm. apply calculateSellable_cons.
  rewrite Forall_forall in Hq |- *. intros it Hit. apply list_elem_of_In in Hit.
  split; [apply Hq; now apply list_elem_of_In | intros material; now apply Hm].
Qed.

Lemma calculateSellable_minimum_witness :
  calculateSellable
    (Some [mkBOMItem "m1" 2; mkBOMItem "m2" 5; mkBOMItem "gone" 1])
    (lookup_of [material_with "m1" 10; material_with "m2" 12])
  = Int (minimum
           (line_allows (lookup_of [material_with "m1" 10; material_with "m2" 12])
                        (mkBOMItem "m1" 2))
           (map (line_allows (lookup_of [material_with "m1" 10; material_with "m2" 12]))
                [mkBOMItem "m2" 5; mkBOMItem "gone" 1])).
Proof.
  apply calculateSellable_minimum.
  - repeat constructor; simpl; lia.
  - intros it material Hin Hlook.
    destruct Hin as [<-|[<-|[<-|[]]]]; vm_compute in Hlook;
      inversion Hlook; subst; simpl; lia.
Defined.

(** C1 as stated fails where a material in the negative precedes a
    missing one: the missing line sets the result to 0, which is not the
    minimum. *)
Lemma calculateSellable_minimum_counterexample :
  calculateSellable (Some [mkBOMItem "A" 1; mkBOMItem "B" 1])
                    (lookup_of [material_with "A" (-5)]) = Int 0
  /\ minimum (line_allows (lookup_of [material_with "A" (-5)]) (mkBOMItem "A" 1))
             (map (line_allows (lookup_of [material_with "A" (-5)])) [mkBOMItem "B" 1])
     = -5
  /\ calculateSellable (Some [mkBOMItem "A" 1; mkBOMItem "B" 1])
                       (lookup_of [material_with "A" (-5)])
     <> Int (minimum
               (line_allows (lookup_of [material_with "A" (-5)]) (mkBOMItem "A" 1))
               (map (line_allows (lookup_of [material_with "A" (-5)]))
                    [mkBOMItem "B" 1])).
Proof. repeat split; try (vm_compute; reflexivity). vm_compute. discriminate. Qed.

Example sellable_two_lines :
  calculateSellable (Some [mkBOMItem "m1" 2; mkBOMItem "m2" 5])
                    (lookup_of [material_with "m1" 10; material_with "m2" 12])
  = Int 2.
Proof. vm_compute. reflexivity. Qed.

Example sellable_floor :
  calculateSellable (Some [mkBOMItem "X" 3]) (lookup_of [material_with "X" 10]) = Int 3.
Proof. vm_compute. reflexivity. Qed.

Example sellable_missing :
  calculateSellable (Some [mkBOMItem "m1" 2; mkBOMItem "nowhere" 1])
                    (lookup_of [material_with "m1" 10]) = Int 0.
Proof. vm_compute. reflexivity. Qed.

(** C10. With quantities of at least 1 and no material in the negative,
    [calculateSellable] returns a non-negative integer, for an empty or
    missing BOM as well; the infinite seed of the fold never comes out. *)
Theorem calculateSellable_finite_nonneg (materialsMap : gmap string Material)
    (bom : option (list BOMItem)) :
  (forall items, bom = Some items -> Forall (fun it => 1 <= qty it) items) ->
  (forall k material, materialsMap !! k = Some material -> 0 <= on_hand material) ->
  exists n, calculateSellable bom materialsMap = Int n /\ 0 <= n.
Proof.
  intros Hq Hm. destruct bom as [[|item items]|].
  - exists 0. split; [reflexivity | lia].
  - specialize (Hq _ eq_refl).
    assert (Hok : Forall (Spec.line_ok materialsMap) (item :: items)).
    { eapply Forall_impl; [exact Hq|]. intros it Hit. split; [exact Hit|].
      intros material. apply Hm. }
    rewrite calculateSellable_cons by exact Hok.
    eexists. split; [reflexivity|].
    inversion Hok as [|? ? Hitem Hrest]; subst.
    apply minimum_nonneg; [now apply line_allows_nonneg|].
    apply Forall_map. eapply Forall_impl; [exact Hrest|].
    intros it. apply line_allows_nonneg.
  - exists 0. split; [reflexivity | lia].
Qed.

Lemma calculateSellable_finite_nonneg_witness :
  exists n,
    calculateSellable (Some [mkBOMItem "m1" 2; mkBOMItem "m2" 5])
                      (lookup_of [material_with "m1" 10; material_with "m2" 12])
    = Int n /\ 0 <= n.
Proof.
  apply calculateSellable_finite_nonneg.
  - intros items [= <-]. repeat constructor; simpl; lia.
  - intros k material Hk.
    assert (Hall : map_Forall (fun _ material => 0 <= on_hand material)
                     (lookup_of [material_with "m1" 10; material_with "m2" 12])).
    { unfold lookup_of. simpl.
      apply map_Forall_insert_2; [simpl; lia|].
      apply map_Forall_insert_2; [simpl; lia|]. apply map_Forall_empty. }
    exact (Hall k material Hk).
Defined.

(** C2 as stated fails: for an empty BOM [calculateSellable] returns the
    number 0, not a value apart from 0. *)
Lemma calculateSellable_empty_counterexample :
  ~ (calculateSellable (Some []) ∅ <> Int 0).
Proof. intros H. apply H. reflexivity. Qed.

(** C2, amended. For an empty or missing BOM [calculateSellable] returns
    0 in every lookup. The dash comes from the caller:
    [getSellableQuantity] tests the BOM itself and shows the em dash, which
    is not the text of 0, without asking [calculateSellable]. *)
Theorem calculateSellable_empty (materialsMap : gmap string Material)
    (id name sku : string) (variant : option string) (archived : bool) :
  calculateSellable (Some []) materialsMap = Int 0
  /\ calculateSellable None materialsMap = Int 0
  /\ getSellableQuantity materialsMap (mkProduct id name variant sku (Some []) archived)
     = em_dash
  /\ getSellableQuantity materialsMap (mkProduct id name variant sku None archived)
     = em_dash
  /\ em_dash <> toString 10 (calculateSellable (Some []) materialsMap).
Proof. repeat split; try reflexivity. vm_compute. discriminate. Qed.

Example sellable_shown :
  getSellableQuantity (lookup_of [material_with "X" 10])
    (mkProduct "p" "Shirt" None "CRT-M" (Some [mkBOMItem "X" 3]) false) = "3".
Proof. vm_compute. reflexivity. Qed.

(* ===================================================================== *)
(** ** Stock adjustments *)
(* ===================================================================== *)

Section Stock.
Import MaterialsPage.

Variable mid : string.

Local Abbreviation nonneg_in := (Spec.nonneg_in mid).
Local Abbreviation stock_ok := (Spec.stock_ok mid).

Lemma set_quantity_nonneg materialId q l :
  (materialId = mid -> 0 <= q) -> nonneg_in l ->
  nonneg_in (set_quantity materialId q l).
Proof.
  intros Hq Hl. unfold Spec.nonneg_in, set_quantity in *. apply Forall_map.
  eapply Forall_impl; [exact Hl|]. intros material Hm. simpl.
  destruct (String.eqb_spec (m_id material) materialId) as [E|E]; simpl.
  - intros Hid. apply Hq. congruence.
  - exact Hm.
Qed.

Lemma loadMaterials_nonneg tbl : nonneg_in tbl -> nonneg_in (loadMaterials tbl).
Proof.
  unfold Spec.nonneg_in, loadMaterials. intros H. rewrite Forall_forall in H |- *.
  intros material Hin. apply H.
  apply list_elem_of_In in Hin. apply filter_In in Hin as [Hin _].
  now apply list_elem_of_In.
Qed.

(** Setting a quantity that is not negative keeps the stock in order,
    however the write and the reload turn out. *)
Lemma updateQuantity_ok materialId q env st :
  (materialId = mid -> 0 <= q) -> stock_ok st ->
  stock_ok (updateQuantity materialId q env st).
Proof.
  intros Hq [Hl Ht]. destruct env; split; simpl;
    auto using set_quantity_nonneg, loadMaterials_nonneg.
Qed.

Lemma decrement_request_nonneg material : 0 <= decrement_request material.
Proof. unfold decrement_request, Math_max. lia. Qed.

Lemma row_nonneg st row material :
  stock_ok st -> nth_error (materials st) row = Some material ->
  m_id material = mid -> 0 <= on_hand material.
Proof.
  intros [Hl _] Hrow. unfold Spec.nonneg_in in Hl.
  rewrite Forall_forall in Hl. apply Hl.
  apply list_elem_of_In. eapply nth_error_In, Hrow.
Qed.

Lemma click_unguarded_ok st c : stock_ok st -> stock_ok (click_unguarded st c).
Proof.
  intros Hst. destruct c as [row env|row env]; simpl;
    destruct (nth_error (materials st) row) as [material|] eqn:Hrow; try exact Hst.
  - apply updateQuantity_ok; [|exact Hst]. intros _. apply decrement_request_nonneg.
  - apply updateQuantity_ok; [|exact Hst]. intros Hid.
    pose proof (row_nonneg st row material Hst Hrow Hid).
    unfold increment_request. lia.
Qed.

Lemma click_ok st c : stock_ok st -> stock_ok (click st c).
Proof.
  intros Hst. destruct c as [row env|row env].
  - simpl. destruct (nth_error (materials st) row) as [material|] eqn:Hrow; [|exact Hst].
    destruct (decrement_disabled material) eqn:Hd; [exact Hst|].
    pose proof (click_unguarded_ok st (Minus row env) Hst) as H.
    simpl in H. now rewrite Hrow in H.
  - exact (click_unguarded_ok st (Plus row env) Hst).
Qed.

Lemma clicks_ok cs : forall st, stock_ok st -> stock_ok (clicks st cs).
Proof.
  unfold clicks. induction cs as [|c cs IH]; intros st Hst; simpl; [exact Hst|].
  apply IH, click_ok, Hst.
Qed.

Lemma clicks_unguarded_ok cs : forall st,
  stock_ok st -> stock_ok (clicks_unguarded st cs).
Proof.
  unfold clicks_unguarded. induction cs as [|c cs IH]; intros st Hst; simpl; [exact Hst|].
  apply IH, click_unguarded_ok, Hst.
Qed.

End Stock.

(** C5. A material that is not in the negative, in the page state and in
    the table, stays so after every sequence of clicks on the plus and
    minus buttons, whatever rows they hit and however their writes and
    reloads turn out; this holds for the minus button as rendered
    (disabled at 0) and for its handler alone. The handler never asks for
    a negative quantity, and at a stock of 0 it asks for 0. *)
Theorem on_hand_never_negative (mid : string) (st : MaterialsPage.State)
    (cs : list MaterialsPage.Click) :
  stock_ok mid st ->
  stock_ok mid (MaterialsPage.clicks st cs)
  /\ stock_ok mid (MaterialsPage.clicks_unguarded st cs)
  /\ (forall material, 0 <= MaterialsPage.decrement_request material)
  /\ (forall material, MaterialsPage.decrement_request (set_on_hand 0 material) = 0).
Proof.
  intros Hst. repeat split.
  - now apply clicks_ok.
  - now apply clicks_ok.
  - now apply clicks_unguarded_ok.
  - now apply clicks_unguarded_ok.
  - apply decrement_request_nonneg.
Qed.

Lemma on_hand_never_negative_witness :
  let st := MaterialsPage.mkState [material_with "m" 0; material_with "n" 3]
                                  [material_with "m" 0; material_with "n" 3] in
  let cs := [MaterialsPage.Minus 0 MaterialsPage.WriteOk;
             MaterialsPage.Plus 0 MaterialsPage.WriteFailed_ReloadOk;
             MaterialsPage.Plus 0 MaterialsPage.WriteOk;
             MaterialsPage.Minus 1 MaterialsPage.WriteFailed_ReloadFailed] in
  stock_ok "m" st
  /\ stock_ok "m" (MaterialsPage.clicks st cs)
  /\ stock_ok "m" (MaterialsPage.clicks_unguarded st cs).
Proof.
  intros st cs.
  assert (Hst : stock_ok "m" st) by (split; repeat constructor; simpl; lia).
  split; [exact Hst|].
  destruct (on_hand_never_negative "m" st cs Hst) as (H1 & H2 & _).
  split; assumption.
Defined.

Example clicks_sample :
  map on_hand
    (MaterialsPage.materials
       (MaterialsPage.clicks_unguarded
          (MaterialsPage.mkState [material_with "m" 1] [material_with "m" 1])
          [MaterialsPage.Minus 0 MaterialsPage.WriteOk;
           MaterialsPage.Minus 0 MaterialsPage.WriteOk;
           MaterialsPage.Plus 0 MaterialsPage.WriteOk]))
  = [1].
Proof. vm_compute. reflexivity. Qed.

(* ===================================================================== *)
(** ** Order status updates *)
(* ===================================================================== *)

Section StatusUpdate.

(** The order detail page shows exactly the written patch on success and
    keeps its order when the write fails. *)
Lemma detail_update_exact status newCarrier newTracking cur tbl :
  OrderDetailPage.order
    (OrderDetailPage.updateOrderStatus status newCarrier newTracking true
       (OrderDetailPage.mkState (Some cur) tbl))
  = Some {| owl_order := apply_patch (updateData status newCarrier newTracking)
                                     (owl_order cur);
            order_lines := order_lines cur |}.
Proof. reflexivity. Qed.


Lemma fulfillment_update_failed orderId status carrier' tracking' st :
  FulfillmentPage.updateOrderStatus orderId status carrier' tracking' false st = st.
Proof. reflexivity. Qed.

(** The row written for an order is the order with the patch applied. *)
Lemma update_orders_row orderId p o :
  o_id o = orderId -> update_orders orderId p [o] = [apply_patch p o].
Proof. intros <-. unfold update_orders. simpl. now rewrite String.eqb_refl. Qed.

(** On the fulfillment page the shown order agrees with the written patch
    whenever no empty text is passed for carrier or tracking. *)
Lemma fulfillment_local_update_exact status carrier' tracking' order :
  carrier' <> Some EmptyString -> tracking' <> Some EmptyString ->
  owl_order (FulfillmentPage.local_update status carrier' tracking' order)
  = apply_patch (updateData status carrier' tracking') (owl_order order).
Proof.
  intros Hc Ht. unfold FulfillmentPage.local_update, apply_patch, or_string. simpl.
  f_equal.
  - destruct carrier' as [c|]; [|reflexivity].
    destruct (String.eqb_spec c EmptyString); [congruence | reflexivity].
  - destruct tracking' as [t|]; [|reflexivity].
    destruct (String.eqb_spec t EmptyString); [congruence | reflexivity].
Qed.

End StatusUpdate.

(** C4. On the order detail page, the page from which status updates are
    made, a request [{status, carrier?, tracking?}] whose write succeeds
    leaves the page showing the previous order with exactly the written
    patch applied: the status is the new one, carrier and tracking are
    the new ones where the request carries them and the previous ones
    where it does not, every other field and the lines are as before;
    and the row of the order in the table has got the same patch. A
    request whose write fails leaves page and table as they were, and
    while no order is loaded no request does anything.

    The fulfillment page declares an [updateOrderStatus] of its own that
    no control calls. It also leaves the state as it was when the write
    fails, and when the write succeeds it shows the order with the
    written patch applied for every request whose carrier and tracking
    are left out or are not empty. *)
Theorem status_update_exact (status' : string)
    (newCarrier newTracking : option string)
    (cur : OrderWithLines) (tbl : list Order) :
  let st := OrderDetailPage.mkState (Some cur) tbl in
  let p := updateData status' newCarrier newTracking in
  let done := OrderDetailPage.updateOrderStatus status' newCarrier newTracking true st in
  let failed := OrderDetailPage.updateOrderStatus status' newCarrier newTracking false st in
  (exists shown,
     OrderDetailPage.order done = Some shown
     /\ owl_order shown = apply_patch p (owl_order cur)
     /\ order_lines shown = order_lines cur
     /\ status (owl_order shown) = status'
     /\ carrier (owl_order shown)
        = match newCarrier with
          | Some c => Some c
          | None => carrier (owl_order cur)
          end
     /\ tracking (owl_order shown)
        = match newTracking with
          | Some t => Some t
          | None => tracking (owl_order cur)
          end
     /\ o_id (owl_order shown) = o_id (owl_order cur)
     /\ o_code (owl_order shown) = o_code (owl_order cur)
     /\ channel (owl_order shown) = channel (owl_order cur)
     /\ external_id (owl_order shown) = external_id (owl_order cur)
     /\ customer_name (owl_order shown) = customer_name (owl_order cur)
     /\ (In (owl_order cur) tbl ->
         In (owl_order shown) (OrderDetailPage.table done)))
  /\ OrderDetailPage.table done
     = map (fun o => if String.eqb (o_id o) (o_id (owl_order cur))
                     then apply_patch p o else o) tbl
  /\ failed = st
  /\ (forall write_ok,
        OrderDetailPage.updateOrderStatus status' newCarrier newTracking write_ok
          (OrderDetailPage.mkState None tbl)
        = OrderDetailPage.mkState None tbl)
  /\ (forall orderId pst,
        FulfillmentPage.updateOrderStatus orderId status' newCarrier newTracking
          false pst = pst)
  /\ (newCarrier <> Some EmptyString -> newTracking <> Some EmptyString ->
      forall order,
        owl_order (FulfillmentPage.local_update status' newCarrier newTracking order)
        = apply_patch p (owl_order order)).
Proof.
  intros st p done failed. repeat split.
  - exists (OrderDetailPage.spread p cur). repeat split.
    intros Hin. unfold done, OrderDetailPage.updateOrderStatus. simpl.
    unfold update_orders. apply in_map_iff. exists (owl_order cur).
    split; [|exact Hin]. now rewrite String.eqb_refl.
  - intros Hc Ht order. now apply fulfillment_local_update_exact.
Qed.

Lemma status_update_exact_witness :
  let o := {| o_id := "o1"; o_code := Some "25-9P7C"; channel := "MANUAL";
              external_id := None; customer_name := Some "Ada";
              status := "PENDING"; carrier := None; tracking := None |} in
  let shipped := {| o_id := "o1"; o_code := Some "25-9P7C"; channel := "MANUAL";
                    external_id := None; customer_name := Some "Ada";
                    status := "SHIPPED"; carrier := Some "UPS";
                    tracking := Some "1Z999" |} in
  let st := OrderDetailPage.mkState (Some (mkOrderWithLines o [])) [o] in
  OrderDetailPage.updateOrderStatus "SHIPPED" (Some "UPS") (Some "1Z999") true st
  = OrderDetailPage.mkState (Some (mkOrderWithLines shipped [])) [shipped]
  /\ OrderDetailPage.updateOrderStatus "SHIPPED" (Some "UPS") (Some "1Z999") false st
     = st.
Proof.
  intros o shipped st.
  destruct (status_update_exact "SHIPPED" (Some "UPS") (Some "1Z999")
              (mkOrderWithLines o []) [o])
    as ((shown & Hshown & Hpatch & Hlines & _) & Htable & Hfailed & _).
  split; [|exact Hfailed].
  fold st in Hshown, Htable.
  destruct (OrderDetailPage.updateOrderStatus "SHIPPED" (Some "UPS") (Some "1Z999")
              true st) as [page table'].
  simpl in Hshown, Htable. subst page table'.
  destruct shown as [so sl]. simpl in Hpatch, Hlines. subst so sl.
  reflexivity.
Defined.

(** The [updateOrderStatus] that the fulfillment page declares, and that
    no control of the page calls, would part from the table on an empty
    text: marking an order that shows carrier UPS as shipped with empty
    carrier and tracking would write the empty texts to the table, while
    the page would keep showing UPS and 1Z999. *)
Example fulfillment_update_differs :
  let o := {| o_id := "o1"; o_code := Some "25-9P7C"; channel := "MANUAL";
              external_id := None; customer_name := Some "Ada";
              status := "IN_PROGRESS"; carrier := Some "UPS";
              tracking := Some "1Z999" |} in
  let st := FulfillmentPage.mkState [mkOrderWithLines o []] [o] in
  let st' := FulfillmentPage.updateOrderStatus "o1" "SHIPPED" (Some EmptyString) (Some EmptyString) true st in
  FulfillmentPage.table st' = [apply_patch (updateData "SHIPPED" (Some EmptyString) (Some EmptyString)) o]
  /\ map (fun w => carrier (owl_order w)) (FulfillmentPage.orders st') = [Some "UPS"]
  /\ map carrier (FulfillmentPage.table st') = [Some EmptyString]
  /\ map owl_order (FulfillmentPage.orders st') <> FulfillmentPage.table st'.
Proof. repeat split; try (vm_compute; reflexivity). vm_compute. discriminate. Qed.

(* ===================================================================== *)
(** ** The grouping loop of the CSV import *)
(* ===================================================================== *)

Section Grouping.
Import IntegrationsPage.

Lemma has_In k m : has k m = true <-> exists g, In (k, g) m.
Proof.
  induction m as [|[k' g'] m IH]; simpl.
  - split; [discriminate | intros [_ []]].
  - rewrite orb_true_iff, IH. split.
    + intros [E | [g Hg]]; [apply String.eqb_eq in E; subst; eauto | eauto].
    + intros [g [[= -> ->] | Hg]]; [left; apply String.eqb_refl | eauto].
Qed.

Lemma has_keys k m : has k m = true <-> In k (map fst m).
Proof.
  rewrite has_In. split.
  - intros [g Hg]. apply (in_map fst) in Hg. exact Hg.
  - intros H. apply in_map_iff in H as [[k' g] [E Hg]]. simpl in E. subst. eauto.
Qed.

Lemma push_line_keys k line m : map fst (push_line k line m) = map fst m.
Proof.
  induction m as [|[k' g'] m IH]; simpl; [reflexivity|].
  destruct (String.eqb k' k); simpl; [reflexivity | now rewrite IH].
Qed.

Lemma push_line_miss k line m : has k m = false -> push_line k line m = m.
Proof.
  induction m as [|[k' g'] m IH]; simpl; [reflexivity|].
  intros H. apply orb_false_iff in H as [-> H]. now rewrite IH.
Qed.

Lemma push_line_app_miss k line m m' :
  has k m = false -> push_line k line (m ++ m') = m ++ push_line k line m'.
Proof.
  induction m as [|[k' g'] m IH]; simpl; [reflexivity|].
  intros H. apply orb_false_iff in H as [-> H]. now rewrite IH.
Qed.

(** With distinct keys, the push changes the group under [k] and no
    other. *)
Lemma In_push_line k line m :
  List.NoDup (map fst m) ->
  forall k' g', In (k', g') (push_line k line m) ->
    (k' <> k /\ In (k', g') m)
    \/ (k' = k /\ exists g, In (k, g) m /\ g' = add_line g line).
Proof.
  induction m as [|[k0 g0] m IH]; simpl; intros Hnd k' g' Hin; [contradiction|].
  inversion Hnd as [|? ? Hk0 Hnd']; subst.
  destruct (String.eqb_spec k0 k) as [->|Hne].
  - destruct Hin as [[= <- <-] | Hin].
    + right. split; [reflexivity|]. exists g0. auto.
    + left. split; [|auto]. intros ->. apply Hk0.
      apply (in_map fst) in Hin. exact Hin.
  - destruct Hin as [[= <- <-] | Hin].
    + left. auto.
    + destruct (IH Hnd' _ _ Hin) as [[Hk Hg] | [Hk (g & Hg & E)]].
      * left. auto.
      * right. split; [exact Hk|]. exists g. auto.
Qed.

Lemma rows_of_key_snoc k data row :
  rows_of_key k (data ++ [row])
  = rows_of_key k data
    ++ (if negb (row_skipped row) && String.eqb (orderKey row) k then [row] else []).
Proof. unfold rows_of_key. now rewrite List.filter_app. Qed.

Lemma groupRows_snoc data row : groupRows (data ++ [row]) = add_row (groupRows data) row.
Proof. unfold groupRows. now rewrite fold_left_app. Qed.

Lemma group_of_snoc first rows row :
  add_line (group_of first rows) (line_of row) = group_of first (rows ++ [row]).
Proof. unfold add_line, group_of. simpl. now rewrite map_app. Qed.

(** What the loop has built after any number of rows: the keys are
    distinct, every group holds the kept rows of its key in file order
    and takes its channel, external id and customer name from the first
    of them, and every kept row has its key in the map. *)
Lemma groupRows_invariant data :
  List.NoDup (map fst (groupRows data))
  /\ (forall k g, In (k, g) (groupRows data) ->
        exists first rest,
          rows_of_key k data = first :: rest /\ g = group_of first (first :: rest))
  /\ (forall row, In row data -> row_skipped row = false ->
        has (orderKey row) (groupRows data) = true).
Proof.
  induction data as [|row data IH] using rev_ind.
  - split; [constructor|]. split; [intros k g [] | intros row []].
  - destruct IH as (Hnd & Hgroups & Hrows).
    rewrite groupRows_snoc. unfold add_row.
    destruct (row_skipped row) eqn:Hskip.
    + split; [exact Hnd|]. split.
      * intros k g Hin. rewrite rows_of_key_snoc, Hskip. simpl.
        rewrite app_nil_r. now apply Hgroups.
      * intros r Hr Hr'. apply in_app_or in Hr as [Hr | [<- | []]];
          [now apply Hrows | congruence].
    + destruct (has (orderKey row) (groupRows data)) eqn:Hhas.
      * split; [now rewrite push_line_keys|]. split.
        -- intros k g Hin. rewrite rows_of_key_snoc, Hskip. simpl.
           apply (In_push_line _ _ _ Hnd) in Hin
             as [[Hk Hin] | [-> (g0 & Hin & ->)]].
           ++ destruct (String.eqb_spec (orderKey row) k); [congruence|].
              rewrite app_nil_r. now apply Hgroups.
           ++ rewrite String.eqb_refl.
              destruct (Hgroups _ _ Hin) as (first & rest & E & ->).
              exists first, (rest ++ [row]). rewrite E. split; [reflexivity|].
              apply (group_of_snoc first (first :: rest) row).
        -- intros r Hr Hr'. apply has_keys. rewrite push_line_keys. apply has_keys.
           apply in_app_or in Hr as [Hr | [<- | []]]; [now apply Hrows | exact Hhas].
      * rewrite push_line_app_miss by exact Hhas. simpl.
        rewrite String.eqb_refl.
        assert (Hnone : rows_of_key (orderKey row) data = []).
        { unfold rows_of_key. destruct (List.filter _ data) as [|r rs] eqn:E; [reflexivity|].
          assert (Hr : In r (r :: rs)) by (left; reflexivity).
          rewrite <- E in Hr. apply filter_In in Hr as [Hr Hp].
          apply andb_true_iff in Hp as [Hp1 Hp2].
          apply negb_true_iff in Hp1. apply String.eqb_eq in Hp2.
          specialize (Hrows r Hr Hp1). rewrite Hp2 in Hrows. congruence. }
        split.
        { rewrite map_app. simpl. apply List.NoDup_app; [exact Hnd | |].
          - repeat constructor. intros [].
          - intros k Hk [<- | []]. apply has_keys in Hk. congruence. }
        split.
        -- intros k g Hin. rewrite rows_of_key_snoc, Hskip. simpl.
           apply in_app_or in Hin as [Hin | [[= <- <-] | []]].
           ++ destruct (String.eqb_spec (orderKey row) k) as [<-|Hne].
              ** exfalso. assert (has (orderKey row) (groupRows data) = true)
                   by (apply has_In; eauto). congruence.
              ** rewrite app_nil_r. now apply Hgroups.
           ++ rewrite String.eqb_refl, Hnone. exists row, []. split; reflexivity.
        -- intros r Hr Hr'. apply has_keys. rewrite map_app. apply in_or_app.
           apply in_app_or in Hr as [Hr | [<- | []]].
           ++ left. apply has_keys. now apply Hrows.
           ++ right. left. reflexivity.
Qed.

End Grouping.

Section GroupRecords.
Import IntegrationsPage.

Lemma parseInt_cases s radix :
  parseInt s radix = NaN \/ exists z, parseInt s radix = Int z.
Proof.
  unfold parseInt. destruct (strip_sign (trimStart s)) as [neg s1].
  destruct ((radix <? 0) || (radix =? 1) || (36 <? radix)); [now left|].
  match goal with
  | |- context [let '(r, s2) := ?p in _] => destruct p as [r s2]
  end.
  destruct (leading_digits r s2); [now left | right; eauto].
Qed.

(** Below 2^53 an integer is its own double. *)
Lemma round_to_double_exact z : Z.abs z < 2 ^ 53 -> round_to_double z = Int z.
Proof.
  intros H. unfold round_to_double.
  destruct (Z.ltb_spec (Z.abs z) (2 ^ 53)); [reflexivity | lia].
Qed.

(** Rounding never produces 0 or NaN from an integer other than 0. *)
Lemma round_to_double_truthy z : truthy (round_to_double z) = negb (z =? 0).
Proof.
  unfold round_to_double.
  destruct (Z.ltb_spec (Z.abs z) (2 ^ 53)) as [|Hbig]; [reflexivity|].
  assert (Hz : z <> 0) by (intros ->; simpl in Hbig; lia).
  assert (Ha : 0 < Z.abs z) by lia.
  set (a := Z.abs z) in *.
  set (e := Z.log2 a - 52).
  assert (He : 0 <= e).
  { unfold e. assert (53 <= Z.log2 a); [|lia].
    apply Z.log2_le_pow2; lia. }
  assert (Hq : 1 <= a / 2 ^ e).
  { apply Z.div_le_lower_bound; [apply Z.pow_pos_nonneg; lia|].
    rewrite Z.mul_1_r.
    transitivity (2 ^ Z.log2 a); [apply Z.pow_le_mono_r; unfold e; lia|].
    apply Z.log2_spec; lia. }
  set (q' := if _ : bool then a / 2 ^ e + 1 else a / 2 ^ e).
  assert (Hq' : 1 <= q') by (unfold q'; destruct (_ || _); lia).
  assert (Hm : 0 < q' * 2 ^ e).
  { apply Z.mul_pos_pos; [lia | apply Z.pow_pos_nonneg; lia]. }
  destruct (2 ^ 1024 <=? q' * 2 ^ e).
  - destruct (z <? 0); simpl; now destruct (Z.eqb_spec z 0).
  - simpl. destruct (Z.eqb_spec z 0); [contradiction|].
    destruct (z <? 0).
    + destruct (Z.eqb_spec (- (q' * 2 ^ e)) 0); simpl; [lia | reflexivity].
    + destruct (Z.eqb_spec (q' * 2 ^ e) 0); simpl; [lia | reflexivity].
Qed.

(** The quantity of a line: the double of the integer read from the cell,
    and 1 when nothing can be read or 0 is read. *)
Lemma parse_qty_cases q :
  parse_qty q = match parseInt q 0 with
                | Int z => if z =? 0 then Int 1 else round_to_double z
                | _ => Int 1
                end.
Proof.
  unfold parse_qty, or_number.
  destruct (parseInt_cases q 0) as [-> | [z ->]]; simpl; [reflexivity|].
  rewrite round_to_double_truthy. now destruct (z =? 0).
Qed.

(** Rows that agree on channel and external id are filed under one key. *)
Lemma same_pair_same_key r1 r2 :
  row_channel r1 = row_channel r2 -> row_external_id r1 = row_external_id r2 ->
  orderKey r1 = orderKey r2.
Proof. unfold orderKey. now intros -> ->. Qed.

Lemma hyphen_join_inj s1 : forall s2 t1 t2,
  all_chars not_hyphen s1 = true -> all_chars not_hyphen s2 = true ->
  s1 +:+ "-" +:+ t1 = s2 +:+ "-" +:+ t2 -> s1 = s2 /\ t1 = t2.
Proof.
  assert (Hcons : forall c s t, String c s +:+ t = String c (s +:+ t)) by reflexivity.
  assert (Hnil : forall t, EmptyString +:+ t = t) by reflexivity.
  induction s1 as [|c1 s1 IH]; intros [|c2 s2] t1 t2 H1 H2 E;
    rewrite ?Hcons, ?Hnil in E; simpl in H1, H2.
  - injection E as E. auto.
  - injection E as <- _. discriminate.
  - injection E as -> _. discriminate.
  - injection E as -> E.
    apply andb_true_iff in H1 as [_ H1], H2 as [_ H2].
    destruct (IH _ _ _ H1 H2 E) as [-> ->]. auto.
Qed.

(** Where no channel contains a hyphen the key tells the pairs apart:
    two rows get the same key exactly when they agree on channel and
    external id. *)
Lemma same_key_same_pair r1 r2 :
  all_chars not_hyphen (row_channel r1) = true ->
  all_chars not_hyphen (row_channel r2) = true ->
  orderKey r1 = orderKey r2 <->
  row_channel r1 = row_channel r2 /\ row_external_id r1 = row_external_id r2.
Proof.
  intros H1 H2. split.
  - now apply hyphen_join_inj.
  - intros [Hc He]. now apply same_pair_same_key.
Qed.

End GroupRecords.

(** C8, amended. Every group the loop builds holds the kept rows of its
    key in file order; its customer name is the customer name cell of the
    first of these rows (empty when that cell is empty), and each row
    gives a line with the quantity of its cell: 1 when nothing can be read
    or 0 is read, and for a positive integer that integer, as the double
    it is stored as (the integer itself below 2^53). Nothing is said of a
    cell that reads as a negative integer. *)
Theorem group_record (data : list IntegrationsPage.CSVRow) (k : string)
    (g : IntegrationsPage.GroupedOrder) :
  In (k, g) (IntegrationsPage.groupRows data) ->
  exists first rest,
    rows_of_key k data = first :: rest
    /\ IntegrationsPage.g_customer_name g = IntegrationsPage.row_customer_name first
    /\ IntegrationsPage.lines g = map line_of (first :: rest)
    /\ Forall (fun row =>
         match parseInt (IntegrationsPage.row_qty row) 0 with
         | Int z =>
             (z = 0 -> IntegrationsPage.line_qty (line_of row) = Int 1)
             /\ (0 < z ->
                 IntegrationsPage.line_qty (line_of row) = to_number (Int z))
             /\ (0 < z < 2 ^ 53 ->
                 IntegrationsPage.line_qty (line_of row) = Int z)
         | _ => IntegrationsPage.line_qty (line_of row) = Int 1
         end) (first :: rest).
Proof.
  intros Hin. destruct (groupRows_invariant data) as (_ & Hgroups & _).
  destruct (Hgroups k g Hin) as (first & rest & E & ->).
  exists first, rest. repeat split; try assumption.
  apply Forall_forall. intros row _.
  unfold line_of. simpl. rewrite parse_qty_cases.
  destruct (parseInt (IntegrationsPage.row_qty row) 0) as [z| | |];
    try reflexivity.
  repeat split.
  - now intros ->.
  - intros Hz. simpl. destruct (Z.eqb_spec z 0); [lia | reflexivity].
  - intros Hz. destruct (Z.eqb_spec z 0); [lia|].
    apply round_to_double_exact. lia.
Qed.

Lemma group_record_witness :
  let data := [IntegrationsPage.mkCSVRow "ORDER1" "SHOPIFY" EmptyString "GT-RED-M" "2";
               IntegrationsPage.mkCSVRow "ORDER2" "ETSY" "Jane" "CRT-M" "x";
               IntegrationsPage.mkCSVRow "ORDER1" "SHOPIFY" "John" "GT-BLACK-L" "0";
               IntegrationsPage.mkCSVRow "ORDER1" "SHOPIFY" "John" "CRT-M"
                 "9007199254740993"] in
  let g := IntegrationsPage.mkGroupedOrder "SHOPIFY" "ORDER1" EmptyString
             [IntegrationsPage.mkLine "GT-RED-M" (Int 2);
              IntegrationsPage.mkLine "GT-BLACK-L" (Int 1);
              IntegrationsPage.mkLine "CRT-M" (Int 9007199254740992)] in
  exists first rest,
    rows_of_key "SHOPIFY-ORDER1" data = first :: rest
    /\ IntegrationsPage.g_customer_name g = IntegrationsPage.row_customer_name first
    /\ IntegrationsPage.lines g = map line_of (first :: rest)
    /\ Forall (fun row =>
         match parseInt (IntegrationsPage.row_qty row) 0 with
         | Int z =>
             (z = 0 -> IntegrationsPage.line_qty (line_of row) = Int 1)
             /\ (0 < z ->
                 IntegrationsPage.line_qty (line_of row) = to_number (Int z))
             /\ (0 < z < 2 ^ 53 ->
                 IntegrationsPage.line_qty (line_of row) = Int z)
         | _ => IntegrationsPage.line_qty (line_of row) = Int 1
         end) (first :: rest).
Proof.
  intros data g. apply (group_record data "SHOPIFY-ORDER1" g).
  vm_compute. left. reflexivity.
Defined.

(** C8 as stated fails on a group whose first row has no customer name
    and a negative quantity: the name stays empty although a later row
    has one, and the quantity -3 is kept. *)
Lemma group_record_counterexample :
  let data := [IntegrationsPage.mkCSVRow "1" "A" EmptyString "S" "-3";
               IntegrationsPage.mkCSVRow "1" "A" "Bob" "T" "2"] in
  let g := IntegrationsPage.mkGroupedOrder "A" "1" EmptyString
             [IntegrationsPage.mkLine "S" (Int (-3)); IntegrationsPage.mkLine "T" (Int 2)] in
  IntegrationsPage.groupRows data = [("A-1", g)]
  /\ rows_of_key "A-1" data = data
  /\ first_non_empty (map IntegrationsPage.row_customer_name data) = "Bob"
  /\ IntegrationsPage.g_customer_name g
     <> first_non_empty (map IntegrationsPage.row_customer_name data)
  /\ map (fun row => qty_or_one (IntegrationsPage.row_qty row)) data = [Int 1; Int 2]
  /\ map IntegrationsPage.line_qty (IntegrationsPage.lines g)
     <> map (fun row => qty_or_one (IntegrationsPage.row_qty row)) data.
Proof.
  repeat split; try (vm_compute; reflexivity); vm_compute; discriminate.
Qed.

(** C7 fails where a hyphen can be read as part of either field: the
    rows of order C of channel A-B and of order B-C of channel A get the
    same key and end in one group, under the channel and external id of
    the first. *)
Theorem grouping_key_collision :
  let r1 := IntegrationsPage.mkCSVRow "C" "A-B" "Ann" "S1" "1" in
  let r2 := IntegrationsPage.mkCSVRow "B-C" "A" "Bea" "S2" "1" in
  IntegrationsPage.row_skipped r1 = false
  /\ IntegrationsPage.row_skipped r2 = false
  /\ IntegrationsPage.row_channel r1 <> IntegrationsPage.row_channel r2
  /\ IntegrationsPage.row_external_id r1 <> IntegrationsPage.row_external_id r2
  /\ IntegrationsPage.orderKey r1 = IntegrationsPage.orderKey r2
  /\ IntegrationsPage.groupedOrders_values [r1; r2]
     = [IntegrationsPage.mkGroupedOrder "A-B" "C" "Ann"
          [IntegrationsPage.mkLine "S1" (Int 1); IntegrationsPage.mkLine "S2" (Int 1)]].
Proof.
  repeat split; try (vm_compute; reflexivity); vm_compute; discriminate.
Qed.

Example grouping_two_lines :
  IntegrationsPage.groupedOrders_values
    [IntegrationsPage.mkCSVRow "ORDER1" "SHOPIFY" "John Doe" "GT-RED-M" "2";
     IntegrationsPage.mkCSVRow "ORDER1" "SHOPIFY" "John Doe" "GT-BLACK-L" "1";
     IntegrationsPage.mkCSVRow "ORDER2" "ETSY" "Jane Smith" "CRT-M" "1"]
  = [IntegrationsPage.mkGroupedOrder "SHOPIFY" "ORDER1" "John Doe"
       [IntegrationsPage.mkLine "GT-RED-M" (Int 2);
        IntegrationsPage.mkLine "GT-BLACK-L" (Int 1)];
     IntegrationsPage.mkGroupedOrder "ETSY" "ORDER2" "Jane Smith"
       [IntegrationsPage.mkLine "CRT-M" (Int 1)]].
Proof. vm_compute. reflexivity. Qed.

(* ===================================================================== *)
(** ** The import and the orders on record *)
(* ===================================================================== *)

Section ImportExisting.
Import IntegrationsPage.

Variable uuid : nat -> string.

Lemma same_order_pair ch ext ch' ext' o :
  same_order ch ext o = true -> same_order ch' ext' o = true ->
  ch = ch' /\ ext = ext'.
Proof.
  unfold same_order. destruct (external_id o) as [e|]; [|discriminate].
  intros H H'. apply andb_true_iff in H as [H1 H2], H' as [H1' H2'].
  apply String.eqb_eq in H1, H2, H1', H2'. split; congruence.
Qed.

Lemma existsb_false_filter {A} (f : A -> bool) l :
  existsb f l = false -> List.filter f l = [].
Proof.
  induction l as [|a l IH]; simpl; [reflexivity|].
  intros H. apply orb_false_iff in H as [-> H]. now apply IH.
Qed.

(** Under the unique index the lookup of a pair on record comes back
    with exactly that order. *)
Lemma filter_unique os ch ext o :
  unique_pairs os -> In o os -> same_order ch ext o = true ->
  List.filter (same_order ch ext) os = [o].
Proof.
  intros Hu Hin Hs. specialize (Hu ch ext).
  assert (Hf : In o (List.filter (same_order ch ext) os)) by (apply filter_In; auto).
  destruct (List.filter (same_order ch ext) os) as [|a [|b l]]; simpl in *.
  - contradiction.
  - destruct Hf as [-> | []]. reflexivity.
  - lia.
Qed.

Lemma find_existing_stored db g o :
  find_existing db g = Some o ->
  In o (orders db) /\ same_order (g_channel g) (g_external_id g) o = true.
Proof.
  unfold find_existing, single. intros H.
  destruct (List.filter _ (orders db)) as [|a [|b l]] eqn:E; try discriminate.
  injection H as ->. apply (filter_In (same_order (g_channel g) (g_external_id g))).
  rewrite E. now left.
Qed.

Lemma importOrder_existing code db g o :
  unique_pairs (orders db) -> In o (orders db) ->
  same_order (g_channel g) (g_external_id g) o = true ->
  importOrder uuid code db g = (db, Existing (skipped_entry o g)).
Proof.
  intros Hu Hin Hs. unfold importOrder, find_existing.
  now rewrite (filter_unique _ _ _ o Hu Hin Hs).
Qed.

Lemma unique_pairs_snoc os ch ext row :
  unique_pairs os -> existsb (same_order ch ext) os = false ->
  same_order ch ext row = true -> unique_pairs (os ++ [row]).
Proof.
  intros Hu Hnew Hrow ch' ext'. rewrite List.filter_app, length_app. simpl.
  destruct (same_order ch' ext' row) eqn:E; simpl.
  - destruct (same_order_pair _ _ _ _ _ Hrow E) as [<- <-].
    rewrite (existsb_false_filter _ _ Hnew). simpl. lia.
  - specialize (Hu ch' ext'). lia.
Qed.

Lemma insert_order_ok db code ch ext name row db' :
  insert_order uuid db code ch ext name = Ok (row, db') ->
  orders db' = orders db ++ [row]
  /\ same_order ch ext row = true
  /\ existsb (same_order ch ext) (orders db) = false.
Proof.
  unfold insert_order.
  destruct (existsb (code_taken code) (orders db)); simpl; [discriminate|].
  destruct (existsb (same_order ch ext) (orders db)) eqn:E; [discriminate|].
  intros [= <- <-]. simpl. repeat split.
  unfold same_order. simpl. now rewrite !String.eqb_refl.
Qed.

Lemma insert_lines_orders db ls db' :
  insert_lines uuid db ls = Ok db' -> orders db' = orders db.
Proof.
  unfold insert_lines. destruct (mapM _ ls); [|discriminate].
  now intros [= <-].
Qed.

(** What a turn of the loop does to the orders table: nothing, or one
    new order for the pair of the group where none was on record. Only in
    the second case can the turn report a creation, and a report of an
    existing order means the pair was on record. *)
Lemma importOrder_orders code db g db' rep :
  importOrder uuid code db g = (db', rep) ->
  (orders db' = orders db
   /\ (forall e, rep <> Created e)
   /\ (forall e, rep = Existing e -> db' = db /\ stored (orders db) g))
  \/ (exists row,
        orders db' = orders db ++ [row]
        /\ same_order (g_channel g) (g_external_id g) row = true
        /\ existsb (same_order (g_channel g) (g_external_id g)) (orders db) = false
        /\ forall e, rep <> Existing e).
Proof.
  unfold importOrder.
  destruct (find_existing db g) as [o|] eqn:Hfind.
  { intros [= <- <-]. left. split; [reflexivity|]. split; [discriminate|].
    intros e _. split; [reflexivity|]. exists o. now apply find_existing_stored. }
  destruct (find_products db _) as [|p ps].
  { intros [= <- <-]. left. repeat split; discriminate. }
  destruct code as [code|e].
  2:{ intros [= <- <-]. left. repeat split; discriminate. }
  destruct (insert_order uuid db code _ _ _) as [[row db1]|e] eqn:Hins.
  2:{ intros [= <- <-]. left. repeat split; discriminate. }
  apply insert_order_ok in Hins as (Ho & Hrow & Hnew).
  intros H. right. exists row.
  destruct (omap _ (lines g)) as [|l ls].
  { injection H as <- <-. repeat split; try assumption. discriminate. }
  destruct (insert_lines uuid db1 (l :: ls)) as [db2|e] eqn:Hl.
  - injection H as <- <-. apply insert_lines_orders in Hl. rewrite Hl.
    repeat split; try assumption. discriminate.
  - injection H as <- <-. repeat split; try assumption. discriminate.
Qed.

Lemma stored_app os os' g : stored os g -> stored (os ++ os') g.
Proof. intros (o & Hin & Hs). exists o. split; [apply in_or_app; now left | exact Hs]. Qed.

(** A turn keeps the unique index and the orders on record, and after a
    turn that did not fail the order of its group is on record. *)
Lemma importOrder_step code db g db' rep :
  unique_pairs (orders db) -> importOrder uuid code db g = (db', rep) ->
  unique_pairs (orders db')
  /\ (forall g', stored (orders db) g' -> stored (orders db') g')
  /\ ((forall msg, rep <> Failed msg) -> stored (orders db') g).
Proof.
  intros Hu H. apply importOrder_orders in H
    as [(Ho & Hnc & Hex) | (row & Ho & Hrow & Hnew & Hne)]; rewrite Ho.
  - split; [exact Hu|]. split; [auto|]. intros Hnf.
    destruct rep as [e|e|msg].
    + now apply (Hex e).
    + now destruct (Hnc e).
    + now destruct (Hnf msg).
  - split; [now apply (unique_pairs_snoc _ _ _ _ Hu Hnew)|].
    split; [intros g'; apply stored_app|]. intros _.
    exists row. split; [apply in_or_app; right; now left | exact Hrow].
Qed.

Lemma record_report_errors r rep :
  l_errors (record_report r rep) = [] ->
  l_errors r = [] /\ forall msg, rep <> Failed msg.
Proof.
  destruct rep as [e|e|msg]; simpl; intros H.
  - split; [exact H | discriminate].
  - split; [exact H | discriminate].
  - now apply app_eq_nil in H as [_ H].
Qed.

(** After an import without errors every group has its order on record
    and the unique index still holds. *)
Lemma import_loop_clean gen groups : forall i db r db1 r1,
  unique_pairs (orders db) ->
  import_loop uuid gen i db r groups = (db1, r1) -> l_errors r1 = [] ->
  unique_pairs (orders db1)
  /\ (forall g, stored (orders db) g -> stored (orders db1) g)
  /\ Forall (stored (orders db1)) groups
  /\ l_errors r = [].
Proof.
  induction groups as [|g groups IH]; intros i db r db1 r1 Hu Hrun Herr; simpl in Hrun.
  - injection Hrun as <- <-. auto.
  - destruct (importOrder uuid (gen i) db g) as [db' rep] eqn:Hstep.
    destruct (importOrder_step _ _ _ _ _ Hu Hstep) as (Hu' & Hmono & Hg).
    destruct (IH _ _ _ _ _ Hu' Hrun Herr) as (Hu1 & Hmono1 & Hall & Herr').
    apply record_report_errors in Herr' as [Herr' Hnf].
    repeat split; auto.
Qed.

(** An import whose groups all have their order on record changes no
    table, creates nothing and files every group as existing. *)
Lemma import_loop_all_stored gen groups : forall i db r,
  unique_pairs (orders db) -> Forall (stored (orders db)) groups ->
  exists entries,
    import_loop uuid gen i db r groups
    = (db, {| l_newOrders := l_newOrders r;
              l_existingOrders := l_existingOrders r ++ entries;
              l_errors := l_errors r |})
    /\ length entries = length groups.
Proof.
  induction groups as [|g groups IH]; intros i db r Hu Hall; simpl.
  - exists []. rewrite app_nil_r. destruct r. auto.
  - inversion Hall as [|? ? (o & Hin & Hs) Hrest]; subst.
    rewrite (importOrder_existing _ _ _ o Hu Hin Hs).
    destruct (IH (S i) db (record_report r (Existing (skipped_entry o g))) Hu Hrest)
      as (entries & -> & Hlen).
    exists (skipped_entry o g :: entries). simpl.
    rewrite <- app_assoc. simpl. auto.
Qed.

End ImportExisting.

Section ImportAsWritten.
Import IntegrationsPage.

Variable uuid : nat -> string.

(** A turn whose code generator throws creates nothing. *)
Lemma importOrder_throw e db g :
  exists rep, importOrder uuid (Throw e) db g = (db, rep) /\ forall x, rep <> Created x.
Proof.
  unfold importOrder. destruct (find_existing db g); [eexists; split; [reflexivity | discriminate]|].
  destruct (find_products db _); eexists; split; try reflexivity; discriminate.
Qed.

Lemma record_report_newOrders r rep :
  (forall x, rep <> Created x) -> l_newOrders (record_report r rep) = l_newOrders r.
Proof. destruct rep as [x|x|msg]; simpl; intros H; [reflexivity | now destruct (H x) | reflexivity]. Qed.

Lemma import_loop_throw gen groups :
  (forall i, exists e, gen i = Throw e) ->
  forall i db r,
    fst (import_loop uuid gen i db r groups) = db
    /\ l_newOrders (snd (import_loop uuid gen i db r groups)) = l_newOrders r.
Proof.
  intros Hgen. induction groups as [|g groups IH]; intros i db r; simpl; [auto|].
  destruct (Hgen i) as [e ->].
  destruct (importOrder_throw e db g) as (rep & -> & Hrep).
  destruct (IH (S i) db (record_report r rep)) as [-> ->].
  split; [reflexivity | now apply record_report_newOrders].
Qed.

(** [importOrders] as written never creates an order: every turn that
    gets as far as the code generator fails there. *)
Lemma importOrders_creates_nothing year db groups :
  fst (importOrders uuid year db groups) = db
  /\ newOrders (snd (importOrders uuid year db groups)) = [].
Proof.
  unfold importOrders, importOrdersWith.
  pose proof (import_loop_throw (fun _ => generateOrderCode None year) groups
                ltac:(intros ?; eexists; reflexivity) 0%nat db no_report) as [H1 H2].
  destruct (import_loop uuid _ 0 db no_report groups) as [db' r].
  simpl in *. auto.
Qed.

End ImportAsWritten.

(** C6. Under the unique index on (channel, external_id): a group whose
    pair is on record is filed as existing with the code of the stored
    order, and its turn leaves every table as it was, whatever the code
    generator would have yielded; after an import without errors, a second
    import of the same groups, with any code generator, creates nothing,
    changes no table and files every group as existing; and the import as
    written creates no order on a second run. *)
Theorem import_skips_existing (uuid : nat -> string)
    (gen gen' : nat -> result string) (db : IntegrationsPage.Db)
    (groups : list IntegrationsPage.GroupedOrder) :
  unique_pairs (IntegrationsPage.orders db) ->
  (forall code g o,
     In o (IntegrationsPage.orders db) ->
     IntegrationsPage.same_order (IntegrationsPage.g_channel g)
                                 (IntegrationsPage.g_external_id g) o = true ->
     IntegrationsPage.importOrder uuid code db g
     = (db, IntegrationsPage.Existing (skipped_entry o g)))
  /\ (forall db1 r1,
        IntegrationsPage.importOrdersWith uuid gen db groups = (db1, r1) ->
        IntegrationsPage.errors r1 = [] ->
        exists entries,
          IntegrationsPage.importOrdersWith uuid gen' db1 groups
          = (db1, {| IntegrationsPage.success := true;
                     IntegrationsPage.newOrders := [];
                     IntegrationsPage.existingOrders := entries;
                     IntegrationsPage.errors := [] |})
          /\ length entries = length groups)
  /\ (forall year,
        let db1 := fst (IntegrationsPage.importOrders uuid year db groups) in
        fst (IntegrationsPage.importOrders uuid year db1 groups) = db1
        /\ IntegrationsPage.newOrders
             (snd (IntegrationsPage.importOrders uuid year db1 groups)) = []).
Proof.
  intros Hu. split; [|split].
  - intros code g o Hin Hs. now apply importOrder_existing.
  - intros db1 r1 Hrun Herr. unfold IntegrationsPage.importOrdersWith in *.
    destruct (IntegrationsPage.import_loop uuid gen 0 db IntegrationsPage.no_report groups)
      as [db' l1] eqn:Hloop.
    injection Hrun as <- <-. simpl in Herr.
    destruct (import_loop_clean uuid gen groups _ _ _ _ _ Hu Hloop Herr)
      as (Hu1 & _ & Hall & _).
    destruct (import_loop_all_stored uuid gen' groups 0 db'
                IntegrationsPage.no_report Hu1 Hall) as (entries & -> & Hlen).
    exists entries. split; [reflexivity | exact Hlen].
  - intros year db1. apply importOrders_creates_nothing.
Qed.

Lemma import_skips_existing_witness :
  let db := IntegrationsPage.mkDb
              [order_of "o-1" "25-9P7C" "SHOPIFY" "ORDER1"]
              [product_of "p-1" "GT-RED-M"; product_of "p-2" "GT-BLACK-L"] [] 0 in
  let g := IntegrationsPage.mkGroupedOrder "SHOPIFY" "ORDER1" "John Doe"
             [IntegrationsPage.mkLine "GT-RED-M" (Int 2);
              IntegrationsPage.mkLine "GT-BLACK-L" (Int 1)] in
  IntegrationsPage.importOrder sample_uuid (Ok "25-ZZZZ") db g
  = (db, IntegrationsPage.Existing
           (IntegrationsPage.mkImportEntry (Some "25-9P7C") "ORDER1" "SHOPIFY")).
Proof.
  intros db g.
  assert (Hu : unique_pairs (IntegrationsPage.orders db)).
  { intros ch ext. simpl. destruct (IntegrationsPage.same_order ch ext _); simpl; lia. }
  destruct (import_skips_existing sample_uuid (fun _ => Ok "25-ZZZZ")
              (fun _ => Ok "25-ZZZZ") db [g] Hu) as (Hstep & _ & _).
  apply (Hstep (Ok "25-ZZZZ") g (order_of "o-1" "25-9P7C" "SHOPIFY" "ORDER1")).
  - left. reflexivity.
  - vm_compute. reflexivity.
Defined.

(** With a code generator that yields codes, a first import creates the
    order of a new group with a line per row, and a second import of the
    same group files it as existing. *)
Example import_then_reimport :
  let db := IntegrationsPage.mkDb []
              [product_of "p-1" "GT-RED-M"; product_of "p-2" "GT-BLACK-L"] [] 0 in
  let g := IntegrationsPage.mkGroupedOrder "SHOPIFY" "ORDER1" "John Doe"
             [IntegrationsPage.mkLine "GT-RED-M" (Int 2);
              IntegrationsPage.mkLine "GT-BLACK-L" (Int 1)] in
  let run1 := IntegrationsPage.importOrdersWith sample_uuid (fun _ => Ok "25-ZZZZ") db [g] in
  let run2 := IntegrationsPage.importOrdersWith sample_uuid (fun _ => Ok "25-YYYY")
                (fst run1) [g] in
  length (IntegrationsPage.orders (fst run1)) = 1%nat
  /\ map ol_qty (IntegrationsPage.order_lines_tbl (fst run1)) = [2; 1]
  /\ IntegrationsPage.newOrders (snd run1)
     = [IntegrationsPage.mkImportEntry (Some "25-ZZZZ") "ORDER1" "SHOPIFY"]
  /\ fst run2 = fst run1
  /\ IntegrationsPage.newOrders (snd run2) = []
  /\ IntegrationsPage.existingOrders (snd run2)
     = [IntegrationsPage.mkImportEntry (Some "25-ZZZZ") "ORDER1" "SHOPIFY"].
Proof. vm_compute. repeat split; reflexivity. Qed.

(** The import as written, on a new group whose products are on record:
    the turn fails at the code generator and nothing is stored. *)
Example import_new_group_as_written :
  let db := IntegrationsPage.mkDb []
              [product_of "p-1" "GT-RED-M"; product_of "p-2" "GT-BLACK-L"] [] 0 in
  let g := IntegrationsPage.mkGroupedOrder "SHOPIFY" "ORDER1" "John Doe"
             [IntegrationsPage.mkLine "GT-RED-M" (Int 2);
              IntegrationsPage.mkLine "GT-BLACK-L" (Int 1)] in
  IntegrationsPage.importOrders sample_uuid 2025 db [g]
  = (db, {| IntegrationsPage.success := false;
            IntegrationsPage.newOrders := [];
            IntegrationsPage.existingOrders := [];
            IntegrationsPage.errors :=
              ["Failed to import order ORDER1: TypeError: Cannot read properties of undefined (reading 'replace')"] |}).
Proof. vm_compute. reflexivity. Qed.

(* ===================================================================== *)
(** ** Further properties: sellable quantities *)
(* ===================================================================== *)

Import Vocab.

Section SellableMore.

Lemma minimum_le x xs y : In y (x :: xs) -> minimum x xs <= y.
Proof.
  revert x. induction xs as [|z zs IH]; intros x Hin; simpl.
  - destruct Hin as [<- | []]. lia.
  - destruct Hin as [<- | Hin]; [lia|]. specialize (IH z Hin). lia.
Qed.

Lemma minimum_in x xs : In (minimum x xs) (x :: xs).
Proof.
  revert x. induction xs as [|z zs IH]; intros x; simpl; [now left|].
  destruct (Z.min_spec x (minimum z zs)) as [[_ ->] | [_ ->]].
  - now left.
  - right. apply IH.
Qed.

Lemma stock_nonneg_lookup_of ms :
  Forall (fun material => 0 <= on_hand material) ms -> stock_nonneg (lookup_of ms).
Proof.
  unfold lookup_of.
  assert (G : forall acc, stock_nonneg acc ->
            Forall (fun material => 0 <= on_hand material) ms ->
            stock_nonneg (fold_left (fun map material => <[m_id material := material]> map) ms acc)).
  { induction ms as [|a ms IH]; intros acc Hacc Hms; simpl; [exact Hacc|].
    inversion Hms as [|? ? Ha Hrest]; subst. apply IH; [|exact Hrest].
    intros k material. rewrite lookup_insert. case_decide.
    - intros [= <-]. exact Ha.
    - apply Hacc. }
  apply G. intros k material. rewrite lookup_empty. discriminate.
Qed.

Lemma lines_ok materialsMap items :
  Forall (fun it => 1 <= qty it) items -> stock_nonneg materialsMap ->
  Forall (Spec.line_ok materialsMap) items.
Proof.
  intros Hq Hm. eapply Forall_impl; [exact Hq|].
  intros it Hit. split; [exact Hit | intros material; apply Hm].
Qed.

Lemma Forall_In {A} (P : A -> Prop) l x : Forall P l -> In x l -> P x.
Proof. intros H Hin. rewrite Forall_forall in H. apply H. now apply list_elem_of_In. Qed.

End SellableMore.

(** X1. With quantities of at least 1 and no stock in the negative, the
    number [calculateSellable] returns can be built: each line whose
    material is on record finds stock for that many times its quantity,
    and the number is 0 as soon as one line names a material that is not
    on record. *)
Theorem sellable_can_be_built (materialsMap : gmap string Material)
    (item : BOMItem) (items : list BOMItem) :
  Forall (fun it => 1 <= qty it) (item :: items) ->
  stock_nonneg materialsMap ->
  exists n,
    calculateSellable (Some (item :: items)) materialsMap = Int n
    /\ 0 <= n
    /\ Forall (fun it =>
                 match materialsMap !! materialId it with
                 | Some material => n * qty it <= on_hand material
                 | None => n = 0
                 end) (item :: items).
Proof.
  intros Hq Hm. pose proof (lines_ok _ _ Hq Hm) as Hok.
  rewrite (calculateSellable_cons _ _ _ Hok).
  set (n := minimum _ _). exists n. split; [reflexivity|].
  assert (Hn : 0 <= n).
  { inversion Hok as [|? ? Hitem Hrest]; subst.
    apply minimum_nonneg; [now apply line_allows_nonneg|].
    apply Forall_map. eapply Forall_impl; [exact Hrest|].
    intros it. apply line_allows_nonneg. }
  split; [exact Hn|].
  apply Forall_forall. intros it Hit. apply list_elem_of_In in Hit.
  assert (Hle : n <= line_allows materialsMap it).
  { apply minimum_le. change (In (line_allows materialsMap it)
                                 (map (line_allows materialsMap) (item :: items))).
    now apply in_map. }
  pose proof (Forall_In _ _ _ Hq Hit) as Hqty. simpl in Hqty.
  unfold line_allows in Hle.
  destruct (materialsMap !! materialId it) as [material|]; [|lia].
  pose proof (Z.mul_div_le (on_hand material) (qty it) ltac:(lia)). nia.
Qed.

Lemma sellable_can_be_built_witness :
  exists n,
    calculateSellable (Some [mkBOMItem "m1" 2; mkBOMItem "m2" 5])
                      (lookup_of [material_with "m1" 10; material_with "m2" 12]) = Int n
    /\ 0 <= n
    /\ Forall (fun it =>
                 match lookup_of [material_with "m1" 10; material_with "m2" 12]
                       !! materialId it with
                 | Some material => n * qty it <= on_hand material
                 | None => n = 0
                 end) [mkBOMItem "m1" 2; mkBOMItem "m2" 5].
Proof.
  apply sellable_can_be_built.
  - repeat constructor; simpl; lia.
  - apply stock_nonneg_lookup_of. repeat constructor; simpl; lia.
Defined.

(** X2. Under the same conditions no larger number can be built: every
    [k] for which all lines find their material with stock for [k] times
    their quantity is at most the number returned. *)
Theorem sellable_is_largest (materialsMap : gmap string Material)
    (item : BOMItem) (items : list BOMItem) (k : Z) :
  Forall (fun it => 1 <= qty it) (item :: items) ->
  stock_nonneg materialsMap ->
  buildable materialsMap (item :: items) k ->
  exists n, calculateSellable (Some (item :: items)) materialsMap = Int n /\ k <= n.
Proof.
  intros Hq Hm Hk. pose proof (lines_ok _ _ Hq Hm) as Hok.
  rewrite (calculateSellable_cons _ _ _ Hok).
  eexists. split; [reflexivity|].
  pose proof (minimum_in (line_allows materialsMap item)
                         (map (line_allows materialsMap) items)) as Hin.
  change (In (minimum (line_allows materialsMap item)
                      (map (line_allows materialsMap) items))
             (map (line_allows materialsMap) (item :: items))) in Hin.
  apply in_map_iff in Hin as (it & <- & Hit).
  pose proof (Forall_In _ _ _ Hq Hit) as Hqty. simpl in Hqty.
  pose proof (Forall_In _ _ _ Hk Hit) as (material & Hlook & Hstock).
  unfold line_allows. rewrite Hlook.
  apply Z.div_le_lower_bound; lia.
Qed.

Lemma sellable_is_largest_witness :
  exists n,
    calculateSellable (Some [mkBOMItem "m1" 2; mkBOMItem "m2" 5])
                      (lookup_of [material_with "m1" 10; material_with "m2" 12]) = Int n
    /\ 2 <= n.
Proof.
  apply sellable_is_largest.
  - repeat constructor; simpl; lia.
  - apply stock_nonneg_lookup_of. repeat constructor; simpl; lia.
  - repeat constructor; eexists; (split; [vm_compute; reflexivity | simpl; lia]).
Defined.

Section SellableOrder.

Lemma minimum_lower_bound b x xs :
  (forall y, In y (x :: xs) -> b <= y) -> b <= minimum x xs.
Proof. intros H. apply H, minimum_in. Qed.

Lemma line_allows_mono m1 m2 it :
  1 <= qty it -> stock_le m1 m2 -> stock_nonneg m2 ->
  line_allows m1 it <= line_allows m2 it.
Proof.
  intros Hq Hle Hm2. unfold line_allows.
  destruct (m1 !! materialId it) as [a|] eqn:E1.
  - destruct (Hle _ _ E1) as (b & -> & Hab). apply Z.div_le_mono; lia.
  - destruct (m2 !! materialId it) as [b|] eqn:E2; [|lia].
    apply Z.div_pos; [now apply (Hm2 _ _ E2) | lia].
Qed.

End SellableOrder.

(** X3. More stock never lowers the sellable quantity: if a second lookup
    knows every material of the first with at least as much stock, and
    neither has stock in the negative, the number returned for the second
    is at least the number returned for the first. *)
Theorem sellable_monotone (m1 m2 : gmap string Material)
    (bom : option (list BOMItem)) :
  (forall items, bom = Some items -> Forall (fun it => 1 <= qty it) items) ->
  stock_nonneg m1 -> stock_nonneg m2 -> stock_le m1 m2 ->
  exists n1 n2,
    calculateSellable bom m1 = Int n1
    /\ calculateSellable bom m2 = Int n2
    /\ n1 <= n2.
Proof.
  intros Hq H1 H2 Hle. destruct bom as [[|item items]|].
  - exists 0, 0. repeat split; lia.
  - specialize (Hq _ eq_refl).
    rewrite (calculateSellable_cons m1 _ _ (lines_ok _ _ Hq H1)).
    rewrite (calculateSellable_cons m2 _ _ (lines_ok _ _ Hq H2)).
    eexists _, _. split; [reflexivity|]. split; [reflexivity|].
    apply minimum_lower_bound. intros y Hy.
    change (In y (map (line_allows m2) (item :: items))) in Hy.
    apply in_map_iff in Hy as (it & <- & Hit).
    pose proof (Forall_In _ _ _ Hq Hit) as Hqty. simpl in Hqty.
    etransitivity; [|apply (line_allows_mono m1 m2 it Hqty Hle H2)].
    apply minimum_le.
    change (In (line_allows m1 it) (map (line_allows m1) (item :: items))).
    now apply in_map.
  - exists 0, 0. repeat split; lia.
Qed.

Lemma sellable_monotone_witness :
  exists n1 n2,
    calculateSellable (Some [mkBOMItem "m1" 2; mkBOMItem "m2" 5])
                      (lookup_of [material_with "m1" 10]) = Int n1
    /\ calculateSellable (Some [mkBOMItem "m1" 2; mkBOMItem "m2" 5])
                         (lookup_of [material_with "m1" 11; material_with "m2" 12]) = Int n2
    /\ n1 <= n2.
Proof.
  apply sellable_monotone.
  - intros items [= <-]. repeat constructor; simpl; lia.
  - apply stock_nonneg_lookup_of. repeat constructor; simpl; lia.
  - apply stock_nonneg_lookup_of. repeat constructor; simpl; lia.
  - intros k a. unfold lookup_of. simpl. rewrite lookup_insert. case_decide.
    + intros [= <-]. subst k. eexists. split; [vm_compute; reflexivity | simpl; lia].
    + rewrite lookup_empty. discriminate.
Defined.

(** X4. With quantities of at least 1 and no stock in the negative, the
    order of the BOM lines does not matter: two BOMs that are
    rearrangements of each other get the same sellable quantity. *)
Theorem sellable_any_order (materialsMap : gmap string Material)
    (items items' : list BOMItem) :
  Permutation items items' ->
  Forall (fun it => 1 <= qty it) items ->
  stock_nonneg materialsMap ->
  calculateSellable (Some items) materialsMap
  = calculateSellable (Some items') materialsMap.
Proof.
  intros Hp Hq Hm.
  assert (Hq' : Forall (fun it => 1 <= qty it) items').
  { apply Forall_forall. intros it Hit. apply list_elem_of_In in Hit.
    apply (Forall_In _ _ _ Hq). eapply Permutation_in; [symmetry; exact Hp | exact Hit]. }
  destruct items as [|a l], items' as [|a' l'].
  - reflexivity.
  - now apply Permutation_nil_cons in Hp.
  - symmetry in Hp. now apply Permutation_nil_cons in Hp.
  - rewrite (calculateSellable_cons _ _ _ (lines_ok _ _ Hq Hm)).
    rewrite (calculateSellable_cons _ _ _ (lines_ok _ _ Hq' Hm)).
    f_equal. apply Z.le_antisymm.
    + apply minimum_le.
      pose proof (minimum_in (line_allows materialsMap a')
                             (map (line_allows materialsMap) l')) as Hin.
      change (In (minimum (line_allows materialsMap a')
                          (map (line_allows materialsMap) l'))
                 (map (line_allows materialsMap) (a' :: l'))) in Hin.
      change (In (minimum (line_allows materialsMap a')
                          (map (line_allows materialsMap) l'))
                 (map (line_allows materialsMap) (a :: l))).
      eapply Permutation_in; [|exact Hin].
      apply Permutation_map. now symmetry.
    + apply minimum_le.
      pose proof (minimum_in (line_allows materialsMap a)
                             (map (line_allows materialsMap) l)) as Hin.
      change (In (minimum (line_allows materialsMap a)
                          (map (line_allows materialsMap) l))
                 (map (line_allows materialsMap) (a :: l))) in Hin.
      change (In (minimum (line_allows materialsMap a)
                          (map (line_allows materialsMap) l))
                 (map (line_allows materialsMap) (a' :: l'))).
      eapply Permutation_in; [|exact Hin].
      now apply Permutation_map.
Qed.

Lemma sellable_any_order_witness :
  calculateSellable (Some [mkBOMItem "m1" 2; mkBOMItem "gone" 1; mkBOMItem "m2" 5])
                    (lookup_of [material_with "m1" 10; material_with "m2" 12])
  = calculateSellable (Some [mkBOMItem "gone" 1; mkBOMItem "m2" 5; mkBOMItem "m1" 2])
                      (lookup_of [material_with "m1" 10; material_with "m2" 12]).
Proof.
  apply sellable_any_order.
  - apply perm_trans with [mkBOMItem "gone" 1; mkBOMItem "m1" 2; mkBOMItem "m2" 5].
    + apply perm_swap.
    + apply perm_skip. apply perm_swap.
  - repeat constructor; simpl; lia.
  - apply stock_nonneg_lookup_of. repeat constructor; simpl; lia.
Defined.

(* ===================================================================== *)
(** ** Further properties: order codes *)
(* ===================================================================== *)

Section CodeMore.

Lemma append_cons c s t : String c s +:+ t = String c (s +:+ t).
Proof. reflexivity. Qed.

Lemma append_nil t : EmptyString +:+ t = t.
Proof. reflexivity. Qed.

Lemma append_cancel s t1 t2 : s +:+ t1 = s +:+ t2 -> t1 = t2.
Proof.
  induction s as [|c s IH]; rewrite ?append_nil, ?append_cons; [auto|].
  intros [= E]. auto.
Qed.

Lemma length_append s t : String.length (s +:+ t) = (String.length s + String.length t)%nat.
Proof. induction s as [|c s IH]; rewrite ?append_nil, ?append_cons; simpl; [reflexivity | now rewrite IH]. Qed.

(** The code of an identifier whose tail reads as the integer [n]. *)
Lemma code_of_int orderId year n :
  parseInt (slice_last 8 (strip_hyphens orderId)) 16 = Int n ->
  0 <= n
  /\ generateOrderCode (Some orderId) year
     = Ok (two_digits (Z.of_N year) +:+ "-" +:+ upper_digits (nat_digits 36 n)).
Proof.
  intros E.
  destruct (parseInt16_no_hyphen _ (hex_tail_no_hyphen orderId)) as [E' | (n' & E' & Hn)];
    rewrite E in E'; [discriminate|]. injection E' as <-.
  split; [exact Hn|].
  unfold generateOrderCode. rewrite year_string by lia. rewrite E. simpl toString.
  destruct (Z.ltb_spec n 0); [lia|]. now rewrite toUpperCase_digits.
Qed.

Lemma upper_digits_inj n1 n2 :
  0 <= n1 -> 0 <= n2 ->
  upper_digits (nat_digits 36 n1) = upper_digits (nat_digits 36 n2) -> n1 = n2.
Proof.
  intros H1 H2 E.
  assert (P : forall n, 0 <= n -> parseInt (upper_digits (nat_digits 36 n)) 36 = Int n).
  { intros n Hn. rewrite parseInt_upper_digits.
    - now rewrite nat_digits_value by lia.
    - apply nat_digits_nonempty.
    - apply nat_digits_range; lia. }
  pose proof (P n1 H1) as P1. rewrite E, (P n2 H2) in P1. now injection P1.
Qed.

Lemma leading_digits_length r s : (length (leading_digits r s) <= String.length s)%nat.
Proof.
  induction s as [|c s IH]; simpl; [lia|].
  destruct (digit_value c) as [d|]; simpl; [|lia].
  destruct (d <? r); simpl; lia.
Qed.

Lemma leading_digits_range r s : Forall (fun d => 0 <= d < r) (leading_digits r s).
Proof.
  induction s as [|c s IH]; simpl; [constructor|].
  destruct (digit_value c) as [d|] eqn:E; [|constructor].
  destruct (Z.ltb_spec d r); constructor; [|exact IH].
  apply digit_value_nonneg in E. lia.
Qed.

Lemma digits_value_lt r ds :
  0 < r -> Forall (fun d => 0 <= d < r) ds ->
  0 <= digits_value r ds < r ^ Z.of_nat (length ds).
Proof.
  intros Hr. induction ds as [|d ds IH] using rev_ind; intros Hds.
  - unfold digits_value. simpl. lia.
  - apply Forall_app in Hds as [Hds Hd]. inversion Hd as [|? ? Hd' _]; subst.
    specialize (IH Hds). rewrite digits_value_snoc, length_app. simpl length.
    rewrite Nat2Z.inj_add. change (Z.of_nat 1) with 1.
    rewrite Z.pow_add_r, Z.pow_1_r by lia. nia.
Qed.

Lemma trimStart_length s : (String.length (trimStart s) <= String.length s)%nat.
Proof.
  induction s as [|c s IH]; simpl; [lia|]. destruct (is_space c); simpl; lia.
Qed.

Lemma drop_chars_length n : forall s,
  String.length (drop_chars n s) = (String.length s - n)%nat.
Proof. induction n as [|n IH]; intros [|c s]; simpl; auto. Qed.

Lemma slice_last_length k s : (String.length (slice_last k s) <= k)%nat.
Proof. unfold slice_last. rewrite drop_chars_length. lia. Qed.

(** What [parseInt(_, 16)] reads from at most 8 characters is below
    16^8. *)
Lemma parseInt16_bound s n :
  (String.length s <= 8)%nat -> parseInt s 16 = Int n -> Z.abs n < 16 ^ 8.
Proof.
  intros Hlen. unfold parseInt.
  pose proof (trimStart_length s) as Ht.
  destruct (strip_sign (trimStart s)) as [neg s1] eqn:Es.
  assert (H1 : (String.length s1 <= 8)%nat).
  { unfold strip_sign in Es. destruct (trimStart s) as [|c t].
    - injection Es as <- <-. simpl. lia.
    - simpl in Ht. destruct (Ascii.eqb c "-"); [injection Es as <- <-; lia|].
      destruct (Ascii.eqb c "+"); injection Es as <- <-; simpl; lia. }
  simpl.
  assert (G : forall s2, (String.length s2 <= 8)%nat ->
            match leading_digits 16 s2 with
            | [] => NaN
            | z :: l => Int (if neg then - digits_value 16 (z :: l)
                             else digits_value 16 (z :: l))
            end = Int n -> Z.abs n < 16 ^ 8).
  { intros s2 H2 E.
    pose proof (leading_digits_length 16 s2) as Hl.
    pose proof (digits_value_lt 16 _ ltac:(lia) (leading_digits_range 16 s2)) as Hv.
    destruct (leading_digits 16 s2) as [|z l] eqn:El; [discriminate|].
    injection E as <-.
    assert (16 ^ Z.of_nat (length (z :: l)) <= 16 ^ 8)
      by (apply Z.pow_le_mono_r; lia).
    destruct neg; lia. }
  destruct (strip_0x s1) as [rest|] eqn:Ex.
  - apply G. unfold strip_0x in Ex.
    destruct s1 as [|c0 [|c1 s']]; try discriminate.
    destruct (_ && _); [|discriminate]. injection Ex as <-. simpl in H1. lia.
  - apply G. exact H1.
Qed.

Lemma to_digits_length r : 2 <= r -> forall fuel k n acc,
  0 <= n < r ^ Z.of_nat (S k) ->
  (length (to_digits fuel r n acc) <= S k + length acc)%nat.
Proof.
  intros Hr. induction fuel as [|fuel IH]; intros k n acc Hn; simpl; [lia|].
  destruct (Z.ltb_spec n r) as [Hlt|Hge]; simpl; [lia|].
  destruct k as [|k].
  - change (r ^ Z.of_nat 1) with (r ^ 1) in Hn. rewrite Z.pow_1_r in Hn. lia.
  - etransitivity; [apply (IH k)|simpl; lia].
    rewrite Nat2Z.inj_succ, Z.pow_succ_r in Hn by lia.
    split; [apply Z.div_pos; lia|].
    apply Z.div_lt_upper_bound; lia.
Qed.

Lemma length_upper_digits ds : String.length (upper_digits ds) = length ds.
Proof.
  unfold upper_digits. induction ds as [|d ds IH]; simpl; [reflexivity | now rewrite IH].
Qed.

End CodeMore.

(** *** The code and the hexadecimal reading of the identifier *)

Import Reading.

Section CodeReading.

Lemma trimStart_drop_while s :
  list_ascii_of_string (trimStart s) = drop_while is_space (list_ascii_of_string s).
Proof.
  induction s as [|c s IH]; simpl; [reflexivity|].
  destruct (is_space c); [exact IH | reflexivity].
Qed.

Lemma skip_plus_other c l : c <> "+"%char -> skip_plus (c :: l) = c :: l.
Proof.
  intros H.
  destruct c as [[|] [|] [|] [|] [|] [|] [|] [|]]; try reflexivity; congruence.
Qed.

Lemma skip_0x_other c l : c <> "0"%char -> skip_0x (c :: l) = c :: l.
Proof.
  intros H.
  destruct c as [[|] [|] [|] [|] [|] [|] [|] [|]]; try reflexivity;
    destruct l; try reflexivity; congruence.
Qed.

Lemma skip_0x_zero c l :
  c <> "x"%char -> c <> "X"%char -> skip_0x ("0"%char :: c :: l) = "0"%char :: c :: l.
Proof.
  intros H1 H2.
  destruct c as [[|] [|] [|] [|] [|] [|] [|] [|]]; try reflexivity; congruence.
Qed.

Lemma strip_sign_skip_plus s :
  all_chars not_hyphen s = true ->
  list_ascii_of_string (snd (strip_sign s)) = skip_plus (list_ascii_of_string s).
Proof.
  destruct s as [|c s]; [reflexivity|].
  intros H. simpl in H. apply andb_true_iff in H as [Hc _].
  unfold not_hyphen in Hc. apply negb_true_iff in Hc.
  unfold strip_sign. rewrite Hc.
  change (list_ascii_of_string (String c s)) with (c :: list_ascii_of_string s).
  destruct (Ascii.eqb_spec c "+") as [->|Hp]; [reflexivity|].
  now rewrite skip_plus_other.
Qed.

Lemma strip_0x_skip s :
  list_ascii_of_string (match strip_0x s with Some rest => rest | None => s end)
  = skip_0x (list_ascii_of_string s).
Proof.
  destruct s as [|c0 [|c1 s]]; [reflexivity| |].
  - unfold strip_0x.
    change (list_ascii_of_string (String c0 EmptyString)) with [c0].
    destruct (Ascii.eqb_spec c0 "0") as [->|H0]; [reflexivity|].
    now rewrite skip_0x_other.
  - unfold strip_0x.
    change (list_ascii_of_string (String c0 (String c1 s)))
      with (c0 :: c1 :: list_ascii_of_string s).
    destruct (Ascii.eqb_spec c0 "0") as [->|H0].
    + destruct (Ascii.eqb_spec c1 "x") as [->|Hx]; [reflexivity|].
      destruct (Ascii.eqb_spec c1 "X") as [->|HX]; [reflexivity|].
      cbn [andb orb]. now rewrite skip_0x_zero.
    + cbn [andb]. now rewrite skip_0x_other.
Qed.

(** The two descriptions of a hexadecimal digit agree on every
    character. *)
Lemma hex_char_digit c :
  match digit_value c with
  | Some d => (d <? 16) = hex_char c /\ (hex_char c = true -> d = hex_value c)
  | None => hex_char c = false
  end.
Proof.
  pose (P := fun c =>
    match digit_value c with
    | Some d => Bool.eqb (d <? 16) (hex_char c)
                && (negb (hex_char c) || (d =? hex_value c))
    | None => negb (hex_char c)
    end).
  assert (HP : P c = true) by (apply all_ascii; vm_compute; reflexivity).
  unfold P in HP. destruct (digit_value c) as [d|].
  - apply andb_true_iff in HP as [H1 H2]. apply Bool.eqb_prop in H1.
    split; [exact H1|]. intros Hc. rewrite Hc in H2. simpl in H2. lia.
  - now apply negb_true_iff.
Qed.

Lemma leading_digits_take s :
  leading_digits 16 s
  = map hex_value (take_while hex_char (list_ascii_of_string s)).
Proof.
  induction s as [|c s IH]; simpl; [reflexivity|].
  pose proof (hex_char_digit c) as H.
  destruct (digit_value c) as [d|].
  - destruct H as [H1 H2]. rewrite H1.
    destruct (hex_char c); [|reflexivity].
    simpl. now rewrite IH, (H2 eq_refl).
  - now rewrite H.
Qed.

(** On a text without hyphens [parseInt(_, 16)] is the hexadecimal
    reading of the text, and NaN where there is none. *)
Lemma parseInt16_reading s :
  all_chars not_hyphen s = true ->
  parseInt s 16 = match hex_reading (list_ascii_of_string s) with
                  | Some n => Int n
                  | None => NaN
                  end.
Proof.
  intros H. apply trimStart_no_hyphen in H.
  pose proof (strip_sign_skip_plus _ H) as Hl.
  apply strip_sign_no_hyphen in H as [Hneg _].
  unfold parseInt, hex_reading.
  destruct (strip_sign (trimStart s)) as [neg s1].
  simpl in Hneg, Hl. subst neg. rewrite trimStart_drop_while in Hl.
  rewrite <- Hl, <- strip_0x_skip. simpl.
  destruct (strip_0x s1) as [rest|]; rewrite leading_digits_take;
    match goal with
    | |- context [take_while hex_char ?l] => destruct (take_while hex_char l)
    end; try reflexivity;
    cbn [map]; now rewrite digits_value_positional.
Qed.

Lemma hex_char_plain c :
  hex_char c = true ->
  is_space c = false /\ c <> "+"%char /\ c <> "x"%char /\ c <> "X"%char.
Proof.
  intros H.
  pose (P := fun c => negb (hex_char c)
     || (negb (is_space c) && negb (Ascii.eqb c "+")
         && negb (Ascii.eqb c "x") && negb (Ascii.eqb c "X"))).
  assert (HP : P c = true) by (apply all_ascii; vm_compute; reflexivity).
  unfold P in HP. rewrite H in HP. simpl in HP.
  repeat (apply andb_true_iff in HP as [HP ?]).
  repeat split; try (now apply negb_true_iff);
    intros ->; discriminate.
Qed.

Lemma take_while_all P l : forallb P l = true -> take_while P l = l.
Proof.
  induction l as [|c l IH]; simpl; [reflexivity|].
  intros H. apply andb_true_iff in H as [-> H]. now rewrite IH.
Qed.

(** A text of hexadecimal digits only, as the tail of a UUID is, reads
    as the positional value of all its digits. *)
Lemma hex_reading_digits l :
  l <> [] -> forallb hex_char l = true ->
  hex_reading l = Some (positional 16 (map hex_value l)).
Proof.
  intros Hne Hall. unfold hex_reading.
  destruct l as [|c l]; [congruence|].
  pose proof Hall as Hall'. simpl in Hall. apply andb_true_iff in Hall as [Hc Hl].
  destruct (hex_char_plain c Hc) as (Hsp & Hp & _).
  simpl drop_while. rewrite Hsp, skip_plus_other by exact Hp.
  assert (Hx : skip_0x (c :: l) = c :: l).
  { destruct (Ascii.eqb_spec c "0") as [->|H0]; [|now apply skip_0x_other].
    destruct l as [|c1 l]; [reflexivity|].
    simpl in Hl. apply andb_true_iff in Hl as [Hc1 _].
    destruct (hex_char_plain c1 Hc1) as (_ & _ & Hx & HX).
    now apply skip_0x_zero. }
  rewrite Hx, take_while_all by exact Hall'. reflexivity.
Qed.

Lemma to_digits_head r : 2 <= r -> forall fuel n acc,
  1 <= n < 2 ^ (Z.of_nat fuel + 1) ->
  exists d rest, to_digits fuel r n acc = d :: rest /\ 1 <= d < r.
Proof.
  intros Hr. induction fuel as [|fuel IH]; intros n acc Hn; simpl.
  - change (2 ^ (Z.of_nat 0 + 1)) with 2 in Hn.
    exists (n mod r), acc. split; [reflexivity|].
    rewrite Z.mod_small by lia. lia.
  - destruct (Z.ltb_spec n r) as [Hlt|Hge].
    + exists n, acc. split; [reflexivity | lia].
    + apply IH. split.
      * apply Z.div_le_lower_bound; lia.
      * apply half_bound; [lia| |lia].
        replace (Z.of_nat fuel + 1 + 1) with (Z.of_nat (S fuel) + 1) by lia. lia.
Qed.

Lemma upper_digit_not_zero d :
  1 <= d < 36 -> upper_char (digit_char d) <> "0"%char.
Proof.
  intros Hd.
  pose (P := fun d => (d =? 0) || negb (Ascii.eqb (upper_char (digit_char d)) "0")).
  assert (HP : P d = true).
  { apply (below_cases P 36); [vm_compute; reflexivity | lia]. }
  unfold P in HP. destruct (Z.eqb_spec d 0); [lia|]. simpl in HP.
  apply negb_true_iff in HP. intros E. rewrite E in HP. discriminate.
Qed.

(** A number is rendered without a leading zero. *)
Lemma upper_digits_no_leading_zero n :
  0 <= n -> no_leading_zero (upper_digits (nat_digits 36 n)).
Proof.
  intros Hn. destruct (Z.eq_dec n 0) as [->|Hne]; [left; reflexivity|].
  right. unfold nat_digits.
  destruct (to_digits_head 36 ltac:(lia) (Z.to_nat (Z.log2 n)) n [])
    as (d & rest & -> & Hd).
  { pose proof (log2_fuel n Hn). lia. }
  unfold upper_digits. simpl. eexists _, _. split; [reflexivity|].
  now apply upper_digit_not_zero.
Qed.

Lemma base36_digit_upper d :
  0 <= d < 36 -> base36_digit (upper_char (digit_char d)) = d.
Proof.
  intros Hd.
  pose (P := fun d => base36_digit (upper_char (digit_char d)) =? d).
  assert (HP : P d = true).
  { apply (below_cases P 36); [vm_compute; reflexivity | lia]. }
  unfold P in HP. lia.
Qed.

(** The value of a rendered number, read digit by digit, is the
    number. *)
Lemma base36_value_upper_digits n :
  0 <= n -> base36_value (upper_digits (nat_digits 36 n)) = n.
Proof.
  intros Hn. unfold base36_value, upper_digits.
  rewrite list_ascii_of_string_of_list_ascii, map_map.
  pose proof (nat_digits_range 36 n ltac:(lia) Hn) as Hr.
  rewrite <- (nat_digits_value 36 n) at 2 by lia.
  rewrite digits_value_positional. f_equal.
  induction Hr as [|d ds Hd _ IH]; simpl; [reflexivity|].
  now rewrite base36_digit_upper, IH.
Qed.

End CodeReading.

(** C9. For every identifier and every year, [generateOrderCode] returns
    the two least-significant decimal digits of the year (zero-padded to
    width 2), a hyphen, and a segment [seg] which is the upper-cased
    radix-36 rendering of what [parseInt(_, 16)] reads from the last 8
    characters of the identifier without its hyphens. The segment has only
    characters of [0-9A-Z]; it is ["NAN"] when nothing could be parsed, and
    otherwise the parsed integer is non-negative and reading the segment
    back in radix 36 gives it again.

    What is parsed is the hexadecimal reading of these characters: where
    there is such a reading [n], [n] is below 2^32, and the segment is the
    text of [0-9A-Z] without a leading zero whose value in radix 36, digit
    by digit, is [n]; where there is none the segment is ["NAN"]. For last
    characters that are all hexadecimal digits, as in a UUID, the reading
    is their positional value. The code is a function of the identifier
    and the year alone. *)
Theorem generateOrderCode_format (orderId : string) (year : N) :
  let tail := slice_last 8 (strip_hyphens orderId) in
  exists seg,
    generateOrderCode (Some orderId) year
      = Ok (two_digits (Z.of_N year) +:+ "-" +:+ seg)
    /\ seg = toUpperCase (toString 36 (parseInt tail 16))
    /\ list_ascii_of_string tail = hex_tail orderId
    /\ all_chars is_0_9_A_Z seg = true
    /\ ((parseInt tail 16 = NaN /\ seg = "NAN")
        \/ exists n, parseInt tail 16 = Int n /\ 0 <= n /\ parseInt seg 36 = Int n)
    /\ match hex_reading (hex_tail orderId) with
       | Some n =>
           0 <= n < 2 ^ 32
           /\ parseInt tail 16 = Int n
           /\ base36_value seg = n
           /\ no_leading_zero seg
       | None => parseInt tail 16 = NaN /\ seg = "NAN"
       end
    /\ (hex_tail orderId <> [] ->
        forallb hex_char (hex_tail orderId) = true ->
        hex_reading (hex_tail orderId)
        = Some (positional 16 (map hex_value (hex_tail orderId)))).
Proof.
  intros tail. eexists. split; [|split; [reflexivity|]].
  - unfold generateOrderCode. rewrite year_string by lia. reflexivity.
  - split; [apply slice_strip_hex_tail|].
    pose proof (parseInt16_reading _ (hex_tail_no_hyphen orderId)) as Hread.
    rewrite slice_strip_hex_tail in Hread. fold tail in Hread.
    assert (Hlast : hex_tail orderId <> [] ->
              forallb hex_char (hex_tail orderId) = true ->
              hex_reading (hex_tail orderId)
              = Some (positional 16 (map hex_value (hex_tail orderId))))
      by apply hex_reading_digits.
    destruct (parseInt16_no_hyphen tail (hex_tail_no_hyphen orderId))
      as [E | (n & E & Hn)]; fold tail; rewrite E in Hread |- *.
    + split; [reflexivity|]. split; [left; split; reflexivity|].
      split; [|exact Hlast].
      destruct (hex_reading (hex_tail orderId)); [discriminate|].
      split; reflexivity.
    + assert (Hlt : (n <? 0) = false) by (apply Z.ltb_ge; lia).
      simpl toString. rewrite Hlt, toUpperCase_digits.
      pose proof (nat_digits_range 36 n ltac:(lia) Hn) as Hr.
      split; [now apply upper_digits_chars|].
      split.
      { right. exists n. split; [reflexivity | split; [exact Hn|]].
        rewrite parseInt_upper_digits by (auto using nat_digits_nonempty).
        now rewrite nat_digits_value by lia. }
      split; [|exact Hlast].
      destruct (hex_reading (hex_tail orderId)) as [n'|]; [|discriminate].
      injection Hread as <-.
      pose proof (parseInt16_bound tail n (slice_last_length 8 _) E) as Hb.
      change (16 ^ 8) with (2 ^ 32) in Hb.
      repeat split; try lia.
      * now apply base36_value_upper_digits.
      * now apply upper_digits_no_leading_zero.
Qed.

(** The identifier of the sample above: its last eight characters read
    as 0x14174000, and the segment of its code has that value. *)
Example code_25_reading :
  hex_reading (hex_tail "123e4567-e89b-12d3-a456-426614174000") = Some 337068032
  /\ base36_value "5KOJCW" = 337068032
  /\ hex_reading (hex_tail "order 7") = None
  /\ generateOrderCode (Some "order 7") 2025 = Ok "25-NAN"
  /\ hex_reading (hex_tail "+0x1fz") = Some 31
  /\ generateOrderCode (Some "+0x1fz") 2025 = Ok "25-V".
Proof. repeat split; vm_compute; reflexivity. Qed.

(** X5. Within a year, two identifiers whose tails read as integers get
    the same code exactly when the integers are equal: the code tells
    apart all values of the last eight hexadecimal digits. *)
Theorem code_separates_values (a b : string) (year : N) (n1 n2 : Z) :
  parseInt (slice_last 8 (strip_hyphens a)) 16 = Int n1 ->
  parseInt (slice_last 8 (strip_hyphens b)) 16 = Int n2 ->
  generateOrderCode (Some a) year = generateOrderCode (Some b) year <-> n1 = n2.
Proof.
  intros Ea Eb.
  destruct (code_of_int a year n1 Ea) as [H1 ->].
  destruct (code_of_int b year n2 Eb) as [H2 ->].
  split.
  - intros [= E]. now apply upper_digits_inj.
  - now intros ->.
Qed.

Lemma code_separates_values_witness :
  generateOrderCode (Some "123e4567-e89b-12d3-a456-426614174000") 2025
  = generateOrderCode (Some "00000000-0000-0000-0000-0000-14174000") 2025
  <-> 337068032 = 337068032.
Proof.
  apply code_separates_values; vm_compute; reflexivity.
Defined.

(** X6. Every code has between 4 and 10 characters: two for the year, the
    hyphen, and one to seven for the rest. *)
Theorem code_length (orderId : string) (year : N) :
  exists code,
    generateOrderCode (Some orderId) year = Ok code
    /\ (4 <= String.length code <= 10)%nat.
Proof.
  destruct (parseInt_cases (slice_last 8 (strip_hyphens orderId)) 16) as [E | [n E]].
  - eexists. split.
    + unfold generateOrderCode. rewrite year_string by lia. rewrite E. reflexivity.
    + rewrite !length_append. simpl. lia.
  - destruct (code_of_int orderId year n E) as [Hn ->].
    eexists. split; [reflexivity|].
    rewrite !length_append, length_upper_digits. simpl.
    pose proof (parseInt16_bound _ n (slice_last_length 8 _) E) as Hb.
    pose proof (to_digits_length 36 ltac:(lia) (Z.to_nat (Z.log2 n)) 6 n []
                  ltac:(change (36 ^ Z.of_nat 7) with 78364164096;
                        change (16 ^ 8) with 4294967296 in Hb; lia)) as Hl.
    fold (nat_digits 36 n) in Hl. simpl in Hl.
    pose proof (nat_digits_nonempty 36 n) as Hne.
    destruct (nat_digits 36 n); [congruence | simpl in *; lia].
Qed.

(** X7. The code depends on no more than the last eight characters of the
    identifier without its hyphens: identifiers that agree there get the
    same code in the same year, however they differ before. *)
Theorem code_of_same_tail (a b : string) (year : N) :
  hex_tail a = hex_tail b ->
  generateOrderCode (Some a) year = generateOrderCode (Some b) year.
Proof.
  intros E. rewrite <- !slice_strip_hex_tail in E.
  assert (Et : slice_last 8 (strip_hyphens a) = slice_last 8 (strip_hyphens b)).
  { rewrite <- (string_of_list_ascii_of_string (slice_last 8 (strip_hyphens a))),
            <- (string_of_list_ascii_of_string (slice_last 8 (strip_hyphens b))).
    now rewrite E. }
  unfold generateOrderCode. now rewrite Et.
Qed.

Lemma code_of_same_tail_witness :
  generateOrderCode (Some "123e4567-e89b-12d3-a456-426614174000") 2025
  = generateOrderCode (Some "ffffffff-ffff-4fff-8fff-ffff1417-4000") 2025.
Proof. apply code_of_same_tail. vm_compute. reflexivity. Defined.

(** X8. An identifier whose tail cannot be read gets the code of the
    integer 30191: its rest is NAN, which is also what 30191 looks like
    in radix 36. *)
Theorem unreadable_code_collides (a b : string) (year : N) :
  parseInt (slice_last 8 (strip_hyphens a)) 16 = NaN ->
  parseInt (slice_last 8 (strip_hyphens b)) 16 = Int 30191 ->
  generateOrderCode (Some a) year = generateOrderCode (Some b) year.
Proof.
  intros Ea Eb. unfold generateOrderCode. rewrite Ea, Eb. reflexivity.
Qed.

Lemma unreadable_code_collides_witness :
  generateOrderCode (Some "order-xyz") 2025 = generateOrderCode (Some "000075ef") 2025.
Proof. apply unreadable_code_collides; vm_compute; reflexivity. Defined.

(* ===================================================================== *)
(** ** Further properties: the page and the table of materials *)
(* ===================================================================== *)

Section StockSync.
Import MaterialsPage.

Lemma loadMaterials_set_quantity id q tbl :
  loadMaterials (set_quantity id q tbl) = set_quantity id q (loadMaterials tbl).
Proof.
  unfold loadMaterials, set_quantity. induction tbl as [|m tbl IH]; simpl; [reflexivity|].
  destruct (String.eqb (m_id m) id) eqn:E; simpl;
    destruct (m_archived m); simpl; rewrite ?E, IH; reflexivity.
Qed.

Lemma updateQuantity_sync id q env st :
  env <> WriteFailed_ReloadFailed -> in_sync st -> in_sync (updateQuantity id q env st).
Proof.
  unfold in_sync. intros Henv Hs. destruct env; simpl.
  - now rewrite loadMaterials_set_quantity, Hs.
  - reflexivity.
  - congruence.
Qed.

Lemma click_unguarded_sync st c :
  settled c = true -> in_sync st -> in_sync (click_unguarded st c).
Proof.
  intros Hc Hs. destruct c as [row env|row env]; simpl;
    destruct (nth_error (materials st) row) as [material|]; try exact Hs;
    apply updateQuantity_sync; try exact Hs; intros ->; discriminate.
Qed.

Lemma click_sync st c : settled c = true -> in_sync st -> in_sync (click st c).
Proof.
  intros Hc Hs. destruct c as [row env|row env].
  - simpl. destruct (nth_error (materials st) row) as [material|] eqn:Hrow; [|exact Hs].
    destruct (decrement_disabled material); [exact Hs|].
    apply updateQuantity_sync; [intros ->; discriminate | exact Hs].
  - exact (click_unguarded_sync st (Plus row env) Hc Hs).
Qed.






Lemma nth_set_quantity id q l row material :
  nth_error l row = Some material -> m_id material = id ->
  nth_error (set_quantity id q l) row = Some (set_on_hand q material).
Proof.
  intros Hrow Hid. unfold set_quantity. rewrite nth_error_map, Hrow. simpl.
  subst id. now rewrite String.eqb_refl.
Qed.

End StockSync.

(** X9. One click on plus or minus, made while no other write or reload
    is under way, keeps the page showing what the table holds: if the
    list of materials on the page is what [loadMaterials] reads from the
    table before the click, it is so again once the click's write has gone
    through, or has failed and the reload after it has gone through. *)
Theorem page_mirrors_table (st : MaterialsPage.State) (c : MaterialsPage.Click) :
  in_sync st -> settled c = true ->
  in_sync (MaterialsPage.click st c)
  /\ in_sync (MaterialsPage.click_unguarded st c).
Proof.
  intros Hs Hc. split.
  - now apply click_sync.
  - now apply click_unguarded_sync.
Qed.

Lemma page_mirrors_table_witness :
  let st := MaterialsPage.mkState
              [material_with "m" 0; material_with "n" 3]
              [material_with "m" 0; material_with "n" 3] in
  let c := MaterialsPage.Minus 1 MaterialsPage.WriteFailed_ReloadOk in
  in_sync (MaterialsPage.click st c)
  /\ in_sync (MaterialsPage.click_unguarded st c).
Proof. intros st c. apply page_mirrors_table; reflexivity. Defined.

(** X10. A failed write whose reload fails as well leaves the page apart
    from the table: after a click on plus with that outcome the page shows
    a quantity the table does not hold. *)
Theorem failed_reload_drifts (st : MaterialsPage.State) (row : nat)
    (material : Material) :
  in_sync st ->
  nth_error (MaterialsPage.materials st) row = Some material ->
  let st' := MaterialsPage.click st
               (MaterialsPage.Plus row MaterialsPage.WriteFailed_ReloadFailed) in
  MaterialsPage.table st' = MaterialsPage.table st
  /\ nth_error (MaterialsPage.materials st') row
     = Some (set_on_hand (on_hand material + 1) material)
  /\ ~ in_sync st'.
Proof.
  intros Hs Hrow st'. subst st'. simpl. rewrite Hrow. simpl.
  split; [reflexivity|].
  assert (Hn : nth_error
                 (MaterialsPage.set_quantity (m_id material)
                    (MaterialsPage.increment_request material)
                    (MaterialsPage.materials st)) row
               = Some (set_on_hand (on_hand material + 1) material))
    by (now apply nth_set_quantity).
  split; [exact Hn|].
  unfold in_sync. simpl. intros E. rewrite E, <- Hs, Hrow in Hn.
  injection Hn as Hn. apply (f_equal on_hand) in Hn. simpl in Hn. lia.
Qed.

Lemma failed_reload_drifts_witness :
  let st := MaterialsPage.mkState [material_with "m" 4] [material_with "m" 4] in
  let st' := MaterialsPage.click st
               (MaterialsPage.Plus 0 MaterialsPage.WriteFailed_ReloadFailed) in
  MaterialsPage.table st' = MaterialsPage.table st
  /\ nth_error (MaterialsPage.materials st') 0
     = Some (set_on_hand (on_hand (material_with "m" 4) + 1) (material_with "m" 4))
  /\ ~ in_sync st'.
Proof.
  intros st. apply (failed_reload_drifts st 0 (material_with "m" 4)); reflexivity.
Defined.



(* ===================================================================== *)
(** ** Further properties: the actions of the order detail page *)
(* ===================================================================== *)

Section Actions.
Import OrderDetailPage OrderActions.

Lemma rank_cases s r :
  rank s = Some r ->
  (s = "PENDING" /\ r = 0%nat) \/ (s = "IN_PROGRESS" /\ r = 1%nat)
  \/ (s = "SHIPPED" /\ r = 2%nat).
Proof.
  unfold rank.
  destruct (String.eqb_spec s "PENDING"); [intros [= <-]; auto|].
  destruct (String.eqb_spec s "IN_PROGRESS"); [intros [= <-]; auto|].
  destruct (String.eqb_spec s "SHIPPED"); [intros [= <-]; auto | discriminate].
Qed.

(** One press: the order stays the same order with the same lines, and
    its status stays or moves forward. *)
Lemma press_forward st p w r :
  order st = Some w -> rank (status (owl_order w)) = Some r ->
  exists w' r',
    order (press st p) = Some w'
    /\ rank (status (owl_order w')) = Some r' /\ (r <= r')%nat
    /\ o_id (owl_order w') = o_id (owl_order w)
    /\ order_lines w' = order_lines w.
Proof.
  intros Hw Hr.
  assert (Hsame : exists w' r', order st = Some w'
            /\ rank (status (owl_order w')) = Some r' /\ (r <= r')%nat
            /\ o_id (owl_order w') = o_id (owl_order w)
            /\ order_lines w' = order_lines w)
    by (exists w, r; auto).
  destruct p as [c t ok | ok]; simpl.
  - destruct (canMarkShipped st); [|exact Hsame].
    unfold handleMarkShipped, updateOrderStatus. rewrite Hw.
    destruct ok; [|rewrite Hw; exists w, r; auto].
    simpl. rewrite ?Hw. simpl. eexists _, 2%nat. split; [reflexivity|].
    simpl. repeat split; auto.
    apply rank_cases in Hr as [[_ ->] | [[_ ->] | [_ ->]]]; lia.
  - unfold canSetInProgress, status_is. rewrite Hw.
    destruct (String.eqb_spec (status (owl_order w)) "PENDING") as [E|E]; [|exact Hsame].
    unfold handleSetInProgress, updateOrderStatus. rewrite Hw.
    destruct ok; [|rewrite Hw; exists w, r; auto].
    simpl. rewrite ?Hw. simpl. eexists _, 1%nat. split; [reflexivity|].
    simpl. repeat split; auto.
    rewrite E in Hr. injection Hr as <-. lia.
Qed.

Lemma press_closed st p : canMarkShipped st = false -> press st p = st.
Proof.
  intros H. destruct p as [c t ok | ok]; simpl; rewrite ?H; [reflexivity|].
  unfold canMarkShipped in H. apply orb_false_iff in H as [H _].
  unfold canSetInProgress. now rewrite H.
Qed.




End Actions.

Section Overlap.
Import OrderDetailPage OrderActions OrderWrites.

Lemma patch_of_written b : written (patch_of b).
Proof. destruct b; [right | left]; reflexivity. Qed.

Lemma writes_lookup (P : Write -> Prop) ws i w :
  Forall P ws -> nth_error ws i = Some w -> P w.
Proof. intros H Hi. apply nth_error_In in Hi. exact (Forall_In P ws w H Hi). Qed.

Lemma writes_restaged (P : StatusPatch -> Prop) ws i w stage :
  Forall (fun w => P (w_patch w)) ws -> nth_error ws i = Some w ->
  Forall (fun w => P (w_patch w)) (<[i := at_stage stage w]> ws).
Proof.
  intros H Hi. apply Forall_insert; [exact H|].
  exact (writes_lookup _ ws i w H Hi).
Qed.

Lemma step_kept w st e : kept w st -> kept w (step st e).
Proof.
  intros [(w' & Hw' & Hid & Hl & Hs) Hws].
  assert (Hst : kept w st) by (split; [exists w'|]; auto).
  destruct e as [b | i ok | i]; simpl.
  - rewrite Hw'. destruct (offered b (page st)); [|exact Hst].
    split; [exists w'; auto|]. simpl.
    apply Forall_app. split; [exact Hws|].
    constructor; [apply patch_of_written | constructor].
  - destruct (nth_error (writes st) i) as [wr|] eqn:Hi; [|exact Hst].
    destruct (w_stage wr); try exact Hst.
    split; [exists w'; auto|]. simpl.
    exact (writes_restaged written _ _ _ _ Hws Hi).
  - destruct (nth_error (writes st) i) as [wr|] eqn:Hi; [|exact Hst].
    destruct (w_stage wr) as [|ok|]; try exact Hst.
    split; [|exact (writes_restaged written _ _ _ _ Hws Hi)].
    simpl. destruct ok; [|exists w'; auto].
    rewrite Hw'. simpl. eexists. split; [reflexivity|]. simpl.
    repeat split; try assumption.
    right. exact (writes_lookup _ _ _ _ Hws Hi).
Qed.

Lemma run_kept w es : forall st, kept w st -> kept w (run st es).
Proof.
  unfold run. induction es as [|e es IH]; intros st H; simpl; [exact H|].
  apply IH. now apply step_kept.
Qed.

Lemma opened_kept w tbl : kept w (opened w tbl).
Proof. split; [exists w; simpl; auto | constructor]. Qed.

(** Once the page shows another status than PENDING it does not show
    PENDING again: no write carries it. *)
Lemma step_not_pending st e :
  Forall (fun wr => written (w_patch wr)) (writes st) ->
  shown_status st <> Some "PENDING" ->
  shown_status (step st e) <> Some "PENDING".
Proof.
  intros Hws Hs. destruct e as [b | i ok | i]; simpl.
  - destruct (order (page st)); [|exact Hs].
    destruct (offered b (page st)); exact Hs.
  - destruct (nth_error (writes st) i) as [wr|]; [|exact Hs].
    destruct (w_stage wr); exact Hs.
  - destruct (nth_error (writes st) i) as [wr|] eqn:Hi; [|exact Hs].
    destruct (w_stage wr) as [|ok|]; try exact Hs.
    destruct ok; [|exact Hs].
    unfold shown_status. simpl.
    destruct (order (page st)) as [w'|]; [|discriminate]. simpl.
    destruct (writes_lookup _ _ _ _ Hws Hi) as [E | E]; rewrite E; discriminate.
Qed.

Lemma run_not_pending w es : forall st,
  kept w st -> shown_status st <> Some "PENDING" ->
  shown_status (run st es) <> Some "PENDING".
Proof.
  unfold run. induction es as [|e es IH]; intros st Hk Hs; simpl; [exact Hs|].
  apply IH; [now apply step_kept | apply step_not_pending; [apply Hk | exact Hs]].
Qed.

Lemma step_shipping_only st e : shipping_only st -> shipping_only (step st e).
Proof.
  intros [Hs Hws].
  assert (Hst : shipping_only st) by (split; assumption).
  destruct e as [b | i ok | i]; simpl.
  - destruct (order (page st)) as [w'|] eqn:Hw'; [|exact Hst].
    destruct (offered b (page st)) eqn:Hb; [|exact Hst].
    split; [exact Hs|]. simpl. apply Forall_app. split; [exact Hws|].
    constructor; [|constructor].
    destruct b as [c t|]; [reflexivity|]. exfalso. apply Hs.
    unfold offered, canSetInProgress, status_is in Hb. rewrite Hw' in Hb.
    apply String.eqb_eq in Hb. unfold shown_status. rewrite Hw'. simpl.
    now rewrite Hb.
  - destruct (nth_error (writes st) i) as [wr|] eqn:Hi; [|exact Hst].
    destruct (w_stage wr); try exact Hst.
    split; [exact Hs|]. simpl.
    exact (writes_restaged (fun p => patch_status p = "SHIPPED") _ _ _ _ Hws Hi).
  - destruct (nth_error (writes st) i) as [wr|] eqn:Hi; [|exact Hst].
    destruct (w_stage wr) as [|ok|] eqn:Hstage; try exact Hst.
    split.
    + pose proof (step_not_pending st (Returns i)) as H. simpl in H.
      rewrite Hi, Hstage in H. apply H; [|exact Hs].
      eapply Forall_impl; [exact Hws|]. intros wr' E. right. exact E.
    + simpl.
      exact (writes_restaged (fun p => patch_status p = "SHIPPED") _ _ _ _ Hws Hi).
Qed.

Lemma step_shipped_stays st e :
  shipping_only st -> shown_status st = Some "SHIPPED" ->
  shown_status (step st e) = Some "SHIPPED".
Proof.
  intros [_ Hws] Hs. destruct e as [b | i ok | i]; simpl.
  - destruct (order (page st)); [|exact Hs].
    destruct (offered b (page st)); exact Hs.
  - destruct (nth_error (writes st) i) as [wr|]; [|exact Hs].
    destruct (w_stage wr); exact Hs.
  - destruct (nth_error (writes st) i) as [wr|] eqn:Hi; [|exact Hs].
    destruct (w_stage wr) as [|ok|]; try exact Hs.
    destruct ok; [|exact Hs].
    unfold shown_status in *. simpl.
    destruct (order (page st)) as [w'|]; [|discriminate]. simpl.
    now rewrite (writes_lookup _ _ _ _ Hws Hi).
Qed.

Lemma run_shipped_stays es : forall st,
  shipping_only st -> shown_status st = Some "SHIPPED" ->
  shown_status (run st es) = Some "SHIPPED".
Proof.
  unfold run. induction es as [|e es IH]; intros st Hk Hs; simpl; [exact Hs|].
  apply IH; [now apply step_shipping_only | now apply step_shipped_stays].
Qed.

Lemma run_shipping_only es : forall st, shipping_only st -> shipping_only (run st es).
Proof.
  unfold run. induction es as [|e es IH]; intros st H; simpl; [exact H|].
  apply IH. now apply step_shipping_only.
Qed.

(** The status of an order that was not opened as PENDING is the one it
    was opened in until it is SHIPPED. *)
Lemma step_opened_or_shipped s0 st e :
  shipping_only st ->
  shown_status st = Some s0 \/ shown_status st = Some "SHIPPED" ->
  shown_status (step st e) = Some s0 \/ shown_status (step st e) = Some "SHIPPED".
Proof.
  intros [_ Hws] Hs. destruct e as [b | i ok | i]; simpl.
  - destruct (order (page st)); [|exact Hs].
    destruct (offered b (page st)); exact Hs.
  - destruct (nth_error (writes st) i) as [wr|]; [|exact Hs].
    destruct (w_stage wr); exact Hs.
  - destruct (nth_error (writes st) i) as [wr|] eqn:Hi; [|exact Hs].
    destruct (w_stage wr) as [|ok|]; try exact Hs.
    destruct ok; [|exact Hs].
    unfold shown_status in *. simpl.
    destruct (order (page st)) as [w'|]; [|destruct Hs; discriminate]. simpl.
    right. now rewrite (writes_lookup _ _ _ _ Hws Hi).
Qed.

Lemma run_opened_or_shipped s0 es : forall st,
  shipping_only st ->
  shown_status st = Some s0 \/ shown_status st = Some "SHIPPED" ->
  shown_status (run st es) = Some s0 \/ shown_status (run st es) = Some "SHIPPED".
Proof.
  unfold run. induction es as [|e es IH]; intros st Hk Hs; simpl; [exact Hs|].
  apply IH; [now apply step_shipping_only | now apply step_opened_or_shipped].
Qed.

(** An order that is neither PENDING nor IN_PROGRESS is offered no
    button: nothing happens. *)
Lemma run_closed w tbl es :
  status (owl_order w) <> "PENDING" -> status (owl_order w) <> "IN_PROGRESS" ->
  run (opened w tbl) es = opened w tbl.
Proof.
  intros Hp Hi. unfold run. induction es as [|e es IH]; simpl; [reflexivity|].
  assert (Hstep : step (opened w tbl) e = opened w tbl); [|now rewrite Hstep].
  destruct e as [b | i ok | i]; [|destruct i; reflexivity..].
  assert (Hb : offered b (page (opened w tbl)) = false).
  { unfold offered, canMarkShipped, canSetInProgress, status_is. simpl.
    destruct (String.eqb_spec (status (owl_order w)) "PENDING"); [contradiction|].
    destruct (String.eqb_spec (status (owl_order w)) "IN_PROGRESS"); [contradiction|].
    now destruct b. }
  unfold step. rewrite Hb. reflexivity.
Qed.

Lemma run_app st es es' : run st (es ++ es') = run (run st es) es'.
Proof. unfold run. apply fold_left_app. Qed.

(** A press that is answered before anything else happens is the press
    of [OrderActions]. *)
Lemma alone_press pg p :
  page (run (OrderWrites.mkState pg []) (alone p 0)) = press pg p.
Proof.
  destruct pg as [o tbl].
  destruct p as [c t ok | ok]; unfold run, alone, press; simpl;
    destruct o as [w|]; simpl; try reflexivity.
  - unfold canMarkShipped, status_is; simpl.
    destruct (String.eqb (status (owl_order w)) "PENDING"
              || String.eqb (status (owl_order w)) "IN_PROGRESS"); simpl;
      [|reflexivity].
    destruct ok; reflexivity.
  - unfold canSetInProgress, status_is; simpl.
    destruct (String.eqb (status (owl_order w)) "PENDING"); simpl; [|reflexivity].
    destruct ok; reflexivity.
Qed.

End Overlap.

(** X12. Writes of the order detail page may overlap: a button can be
    pressed while the write of an earlier press is on its way. Whatever
    the order of presses, writes and answers, the page keeps showing the
    order it opened, with its lines, in the status it was opened in or in
    IN_PROGRESS or SHIPPED; once it shows another status than PENDING it
    never shows PENDING again; an order that was not opened as PENDING
    is in the status it was opened in or SHIPPED, and stays SHIPPED once
    it is; an order opened in neither PENDING nor IN_PROGRESS is not
    touched at all. *)
Theorem status_under_overlap (w : OrderWithLines) (tbl : list Order)
    (es es' : list OrderWrites.Event) :
  let st := OrderWrites.run (OrderWrites.opened w tbl) es in
  let st' := OrderWrites.run st es' in
  (exists w',
     OrderDetailPage.order (OrderWrites.page st) = Some w'
     /\ o_id (owl_order w') = o_id (owl_order w)
     /\ order_lines w' = order_lines w
     /\ (status (owl_order w') = status (owl_order w)
         \/ status (owl_order w') = "IN_PROGRESS"
         \/ status (owl_order w') = "SHIPPED"))
  /\ (OrderWrites.shown_status st <> Some "PENDING" ->
      OrderWrites.shown_status st' <> Some "PENDING")
  /\ (status (owl_order w) <> "PENDING" ->
      (OrderWrites.shown_status st = Some (status (owl_order w))
       \/ OrderWrites.shown_status st = Some "SHIPPED")
      /\ (OrderWrites.shown_status st = Some "SHIPPED" ->
          OrderWrites.shown_status st' = Some "SHIPPED"))
  /\ (status (owl_order w) <> "PENDING" ->
      status (owl_order w) <> "IN_PROGRESS" ->
      st = OrderWrites.opened w tbl).
Proof.
  intros st st'.
  pose proof (run_kept w es _ (opened_kept w tbl)) as Hk. fold st in Hk.
  split; [exact (proj1 Hk)|].
  split; [intros Hs; exact (run_not_pending w es' st Hk Hs)|].
  split; [|intros Hp Hi; now apply run_closed].
  intros Hp.
  assert (H0 : OrderWrites.shipping_only (OrderWrites.opened w tbl)).
  { split; [|constructor]. unfold OrderWrites.shown_status. simpl. congruence. }
  split.
  - apply run_opened_or_shipped; [exact H0 | left; reflexivity].
  - intros Hs. apply run_shipped_stays; [|exact Hs].
    now apply run_shipping_only.
Qed.

Lemma status_under_overlap_witness :
  let o := {| o_id := "o1"; o_code := Some "25-9P7C"; channel := "MANUAL";
              external_id := None; customer_name := Some "Ada";
              status := "IN_PROGRESS"; carrier := None; tracking := None |} in
  let es := [OrderWrites.Pressed (OrderWrites.MarkShipped "UPS" "1Z999");
             OrderWrites.Pressed (OrderWrites.MarkShipped "DHL" "77");
             OrderWrites.Pressed OrderWrites.SetInProgress;
             OrderWrites.Arrives 1 true; OrderWrites.Arrives 0 true;
             OrderWrites.Returns 1] in
  let es' := [OrderWrites.Returns 0; OrderWrites.Pressed OrderWrites.SetInProgress] in
  let st := OrderWrites.run (OrderWrites.opened (mkOrderWithLines o []) [o]) es in
  OrderWrites.shown_status st = Some "SHIPPED"
  /\ OrderWrites.shown_status (OrderWrites.run st es') = Some "SHIPPED".
Proof.
  intros o es es' st.
  destruct (status_under_overlap (mkOrderWithLines o []) [o] es es')
    as (_ & _ & Hshipped & _).
  destruct (Hshipped ltac:(discriminate)) as [_ Hstays].
  split; [reflexivity | apply Hstays; reflexivity].
Defined.

(** Where both buttons of a PENDING order are pressed before the first
    write is answered, the page goes from SHIPPED back to IN_PROGRESS,
    and so does the row. *)
Example overlap_moves_back :
  let o := {| o_id := "o1"; o_code := Some "25-9P7C"; channel := "MANUAL";
              external_id := None; customer_name := Some "Ada";
              status := "PENDING"; carrier := None; tracking := None |} in
  let es := [OrderWrites.Pressed (OrderWrites.MarkShipped "UPS" "1Z999");
             OrderWrites.Pressed OrderWrites.SetInProgress;
             OrderWrites.Arrives 0 true; OrderWrites.Returns 0] in
  let st := OrderWrites.run (OrderWrites.opened (mkOrderWithLines o []) [o]) es in
  let st' := OrderWrites.run st [OrderWrites.Arrives 1 true; OrderWrites.Returns 1] in
  OrderWrites.shown_status st = Some "SHIPPED"
  /\ OrderWrites.shown_status st' = Some "IN_PROGRESS"
  /\ map status (OrderDetailPage.table (OrderWrites.page st')) = ["IN_PROGRESS"].
Proof. repeat split; vm_compute; reflexivity. Qed.

(** X13. Once neither PENDING nor IN_PROGRESS, an order is out of reach
    of the page: with no order loaded, or with an order that is SHIPPED,
    DELIVERED, CANCELLED or in any other status, no sequence of presses
    changes the page or the table. *)
Theorem closed_order_untouched (st : OrderDetailPage.State)
    (ps : list OrderActions.Press) :
  OrderActions.canMarkShipped st = false -> OrderActions.presses st ps = st.
Proof.
  intros H. unfold OrderActions.presses.
  induction ps as [|p ps IH]; simpl; [reflexivity|].
  now rewrite (press_closed st p H).
Qed.

Lemma closed_order_untouched_witness :
  let o := {| o_id := "o1"; o_code := Some "25-9P7C"; channel := "MANUAL";
              external_id := None; customer_name := Some "Ada";
              status := "SHIPPED"; carrier := Some "UPS"; tracking := Some "1Z999" |} in
  let st := OrderDetailPage.mkState (Some (mkOrderWithLines o [])) [o] in
  OrderActions.presses st [OrderActions.SetInProgress true;
                           OrderActions.MarkShipped "DHL" "77" true] = st.
Proof. intros o st. apply closed_order_untouched. reflexivity. Defined.



(* ===================================================================== *)
(** ** Further properties: the two dialogs *)
(* ===================================================================== *)

Section Dialogs.
Import JsText.

Lemma remove_index_past {A} index : forall i (l : list A),
  (index < i)%nat -> remove_index index i l = l.
Proof.
  intros i l. revert i. induction l as [|x l IH]; intros i Hi; simpl; [reflexivity|].
  destruct (Nat.eqb_spec i index); [lia|]. now rewrite IH by lia.
Qed.

Lemma remove_index_length {A} index : forall i (l : list A),
  (length l - 1 <= length (remove_index index i l))%nat.
Proof.
  intros i l. revert i. induction l as [|x l IH]; intros i; simpl; [lia|].
  destruct (Nat.eqb_spec i index) as [->|Hne]; simpl.
  - rewrite remove_index_past by lia. lia.
  - specialize (IH (S i)). lia.
Qed.

Lemma map_index_length {A} (f : A -> A) index : forall i l,
  length (map_index f index i l) = length l.
Proof.
  intros i l. revert i. induction l as [|x l IH]; intros i; simpl; [reflexivity|].
  now rewrite IH.
Qed.

Lemma trimEnd_fixed_tail c t : trimEnd (String c t) = String c t -> trimEnd t = t.
Proof.
  simpl. destruct (trimEnd t) as [|d u] eqn:E.
  - destruct (is_space c); [discriminate|]. now intros [= <-].
  - now intros [= <-].
Qed.

Lemma trimEnd_idem s : trimEnd (trimEnd s) = trimEnd s.
Proof.
  induction s as [|c s IH]; simpl; [reflexivity|].
  destruct (trimEnd s) as [|d u] eqn:E.
  - destruct (is_space c) eqn:Ec; simpl; [reflexivity | now rewrite Ec].
  - change (trimEnd (String c (String d u))) with
      (match trimEnd (String d u) with
       | EmptyString => if is_space c then EmptyString else String c EmptyString
       | t => String c t
       end).
    now rewrite IH.
Qed.

Lemma trimStart_idem s : trimStart (trimStart s) = trimStart s.
Proof.
  induction s as [|c s IH]; simpl; [reflexivity|].
  destruct (is_space c) eqn:Ec; [exact IH|]. simpl. now rewrite Ec.
Qed.

Lemma trimEnd_trimStart t : trimEnd t = t -> trimEnd (trimStart t) = trimStart t.
Proof.
  induction t as [|c t IH]; intros H; [reflexivity|].
  simpl trimStart. destruct (is_space c); [|exact H].
  apply IH. eapply trimEnd_fixed_tail, H.
Qed.

(** Trimming twice is trimming once. *)
Lemma trim_idem s : trim (trim s) = trim s.
Proof.
  unfold trim. rewrite (trimEnd_trimStart (trimEnd s) (trimEnd_idem s)).
  apply trimStart_idem.
Qed.

Lemma filter_nonempty_all {A} (f : A -> bool) l :
  Forall (fun x => f x = true) (List.filter f l).
Proof.
  apply Forall_forall. intros x Hx. apply list_elem_of_In in Hx.
  now apply filter_In in Hx as [_ Hx].
Qed.

End Dialogs.

(** X15. The BOM editor always shows at least one row: whatever product
    it was opened for and whatever rows were added, removed and edited,
    the list of rows is never empty. *)
Theorem editor_keeps_a_row (product : option Product)
    (evs : list ProductDialog.RowEvent) :
  fold_left ProductDialog.row_event evs (ProductDialog.initial_bom product) <> [].
Proof.
  assert (H0 : ProductDialog.initial_bom product <> []).
  { unfold ProductDialog.initial_bom. destruct product as [p|]; [|discriminate].
    destruct (bom p) as [[|item items]|]; discriminate. }
  revert H0. generalize (ProductDialog.initial_bom product).
  induction evs as [|ev evs IH]; intros rows Hrows; simpl; [exact Hrows|].
  apply IH. destruct ev as [|index|index e]; simpl.
  - unfold ProductDialog.addBomItem. destruct rows; discriminate.
  - destruct (Nat.eqb_spec (length rows) 1); [exact Hrows|].
    unfold ProductDialog.removeBomItem.
    pose proof (remove_index_length index 0 rows) as Hl.
    destruct rows as [|a [|b rows]]; [congruence | simpl in *; lia |].
    intros E. rewrite E in Hl. simpl in Hl. lia.
  - unfold ProductDialog.updateBomItem. intros E.
    apply (f_equal (@length _)) in E. rewrite map_index_length in E.
    destruct rows; [congruence | discriminate].
Qed.

(** X16. What the product dialog saves fits the sellable calculation:
    either no row was valid, the BOM saved is [null] and the product shows
    the dash; or the BOM saved is the valid rows in their order, each with
    a material and a quantity of at least 1, and against stock that is
    not negative the product shows a number of at least 0. An empty BOM is
    never saved. *)
Theorem saved_product_sellable (name variant sku : string) (rows : list BOMItem)
    (s : ProductDialog.Submitted) (id : string)
    (materialsMap : gmap string Material) :
  ProductDialog.handleSubmit name variant sku rows = Some s ->
  stock_nonneg materialsMap ->
  (ProductDialog.s_bom s = None
   /\ List.filter ProductDialog.valid_item rows = []
   /\ getSellableQuantity materialsMap (ProductDialog.stored_product id s) = em_dash)
  \/ (exists item items n,
        ProductDialog.s_bom s = Some (item :: items)
        /\ item :: items = List.filter ProductDialog.valid_item rows
        /\ Forall (fun it => materialId it <> EmptyString /\ 1 <= qty it) (item :: items)
        /\ calculateSellable (Some (item :: items)) materialsMap = Int n
        /\ 0 <= n
        /\ getSellableQuantity materialsMap (ProductDialog.stored_product id s)
           = toString 10 (Int n)).
Proof.
  unfold ProductDialog.handleSubmit. intros H Hm.
  destruct (JsText.blank name || JsText.blank sku); [discriminate|].
  injection H as <-. simpl.
  pose proof (filter_nonempty_all ProductDialog.valid_item rows) as Hv.
  destruct (List.filter ProductDialog.valid_item rows) as [|item items] eqn:E.
  - left. auto.
  - right.
    assert (Hq : Forall (fun it => materialId it <> EmptyString /\ 1 <= qty it)
                        (item :: items)).
    { eapply Forall_impl; [exact Hv|]. intros it Hit. simpl in Hit.
      unfold ProductDialog.valid_item in Hit. apply andb_true_iff in Hit as [H1 H2].
      apply negb_true_iff in H1. apply Z.ltb_lt in H2.
      split; [|lia]. intros E'. rewrite E' in H1. discriminate. }
    assert (Hok : Forall (Spec.line_ok materialsMap) (item :: items)).
    { eapply Forall_impl; [exact Hq|]. intros it [_ Hit].
      split; [exact Hit | intros material; apply Hm]. }
    exists item, items, (minimum (line_allows materialsMap item)
                           (map (line_allows materialsMap) items)).
    split; [reflexivity|]. split; [reflexivity|]. split; [exact Hq|].
    split; [now apply calculateSellable_cons|].
    split.
    + inversion Hok as [|? ? Hitem Hrest]; subst.
      apply minimum_nonneg; [now apply line_allows_nonneg|].
      apply Forall_map. eapply Forall_impl; [exact Hrest|].
      intros it. apply line_allows_nonneg.
    + unfold getSellableQuantity. simpl bom. cbv iota.
      now rewrite (calculateSellable_cons _ _ _ Hok).
Qed.

Lemma saved_product_sellable_witness :
  let rows := [mkBOMItem EmptyString 1; mkBOMItem "m1" 2; mkBOMItem "m2" 0] in
  let s := ProductDialog.mkSubmitted "Shirt" None "CRT-M" (Some [mkBOMItem "m1" 2]) in
  let m := lookup_of [material_with "m1" 10] in
  (ProductDialog.s_bom s = None
   /\ List.filter ProductDialog.valid_item rows = []
   /\ getSellableQuantity m (ProductDialog.stored_product "p1" s) = em_dash)
  \/ (exists item items n,
        ProductDialog.s_bom s = Some (item :: items)
        /\ item :: items = List.filter ProductDialog.valid_item rows
        /\ Forall (fun it => materialId it <> EmptyString /\ 1 <= qty it) (item :: items)
        /\ calculateSellable (Some (item :: items)) m = Int n
        /\ 0 <= n
        /\ getSellableQuantity m (ProductDialog.stored_product "p1" s)
           = toString 10 (Int n)).
Proof.
  intros rows s m.
  apply (saved_product_sellable " Shirt " "  " "CRT-M" rows s "p1" m).
  - vm_compute. reflexivity.
  - apply stock_nonneg_lookup_of. repeat constructor; simpl; lia.
Defined.

(** X17. What the quick order dialog passes on is complete: a customer
    name that is not empty and has no white space around it, and at least
    one line, the lines being the valid rows of the dialog in their
    order, each with a product and a quantity of at least 1. With a blank
    name or without a valid row nothing is passed on. *)
Theorem quick_order_submitted (customerName : string)
    (lines : list QuickOrders.QuickLine) :
  match QuickOrders.handleSubmit customerName lines with
  | QuickOrders.Save orderData =>
      QuickOrders.od_customer_name orderData = JsText.trim customerName
      /\ QuickOrders.od_customer_name orderData <> EmptyString
      /\ JsText.trim (QuickOrders.od_customer_name orderData)
         = QuickOrders.od_customer_name orderData
      /\ QuickOrders.od_lines orderData <> []
      /\ QuickOrders.od_lines orderData = List.filter QuickOrders.valid_line lines
      /\ Forall (fun l => QuickOrders.ql_product_id l <> EmptyString
                          /\ 1 <= QuickOrders.ql_qty l)
                (QuickOrders.od_lines orderData)
  | QuickOrders.NameRequired => JsText.trim customerName = EmptyString
  | QuickOrders.ProductRequired => List.filter QuickOrders.valid_line lines = []
  end.
Proof.
  unfold QuickOrders.handleSubmit, JsText.blank.
  destruct (String.eqb_spec (JsText.trim customerName) EmptyString) as [E|E]; [exact E|].
  pose proof (filter_nonempty_all QuickOrders.valid_line lines) as Hv.
  destruct (List.filter QuickOrders.valid_line lines) as [|l ls] eqn:El; [reflexivity|].
  simpl. repeat split; try assumption; try discriminate.
  - apply trim_idem.
  - eapply Forall_impl; [exact Hv|]. intros x Hx. simpl in Hx.
    unfold QuickOrders.valid_line in Hx. apply andb_true_iff in Hx as [H1 H2].
    apply negb_true_iff in H1. apply Z.ltb_lt in H2.
    split; [|lia]. intros E'. rewrite E' in H1. discriminate.
Qed.

Example quick_order_submitted_sample :
  QuickOrders.handleSubmit "  Ada Lovelace "
    [QuickOrders.mkQuickLine EmptyString 1; QuickOrders.mkQuickLine "p-1" 2;
     QuickOrders.mkQuickLine "p-2" (-1)]
  = QuickOrders.Save (QuickOrders.mkOrderData "Ada Lovelace"
                        [QuickOrders.mkQuickLine "p-1" 2]).
Proof. vm_compute. reflexivity. Qed.

(* ===================================================================== *)
(** ** Further properties: quick orders and the search by code *)
(* ===================================================================== *)

Section Quick.
Import QuickOrders.

Variable uuid : nat -> string.

Lemma existsb_false_map {A} (f : A -> bool) (g : A -> A) l :
  existsb f l = false -> map (fun x => if f x then g x else x) l = l.
Proof.
  induction l as [|a l IH]; simpl; [reflexivity|].
  intros H. apply orb_false_iff in H as [-> H]. now rewrite IH.
Qed.

Lemma existsb_false_In {A} (f : A -> bool) l x :
  existsb f l = false -> In x l -> f x = false.
Proof.
  intros H Hin. destruct (f x) eqn:E; [|reflexivity].
  assert (existsb f l = true) by (apply existsb_exists; eauto). congruence.
Qed.

(** Every string identifier gets a code. *)
Lemma generateOrderCode_some id year :
  exists code, generateOrderCode (Some id) year = Ok code.
Proof. eexists. reflexivity. Qed.

Lemma insert_manual_ok db name :
  existsb (has_id (uuid (IntegrationsPage.next_uuid db))) (IntegrationsPage.orders db) = false ->
  insert_manual uuid db name
  = Ok ({| o_id := uuid (IntegrationsPage.next_uuid db); o_code := None;
           channel := "MANUAL"; external_id := None; customer_name := Some name;
           status := "PENDING"; carrier := None; tracking := None |},
        {| IntegrationsPage.orders :=
             IntegrationsPage.orders db
             ++ [{| o_id := uuid (IntegrationsPage.next_uuid db); o_code := None;
                    channel := "MANUAL"; external_id := None;
                    customer_name := Some name; status := "PENDING";
                    carrier := None; tracking := None |}];
           IntegrationsPage.products := IntegrationsPage.products db;
           IntegrationsPage.order_lines_tbl := IntegrationsPage.order_lines_tbl db;
           IntegrationsPage.next_uuid := S (IntegrationsPage.next_uuid db) |}).
Proof. unfold insert_manual. now intros ->. Qed.

(** Giving the new row its code: the check passes when no older row has
    the code, and only the new row changes. *)
Lemma update_code_new os row code products lines next :
  existsb (has_id (o_id row)) os = false ->
  existsb (IntegrationsPage.code_taken code) os = false ->
  update_code (IntegrationsPage.mkDb (os ++ [row]) products lines next) (o_id row) code
  = Ok (IntegrationsPage.mkDb (os ++ [set_code code row]) products lines next).
Proof.
  intros Hid Hcode. unfold update_code. simpl.
  rewrite existsb_app, List.filter_app, length_app. simpl.
  rewrite (existsb_false_filter _ _ Hid).
  assert (H1 : existsb (fun o => negb (has_id (o_id row) o)
                                 && IntegrationsPage.code_taken code o) os = false).
  { apply not_true_is_false. intros H. apply existsb_exists in H as (o & Ho & H).
    apply andb_true_iff in H as [_ H].
    rewrite (existsb_false_In _ _ _ Hcode Ho) in H. discriminate. }
  rewrite H1. unfold has_id at 1 2. rewrite String.eqb_refl. simpl.
  rewrite map_app. simpl. unfold has_id at 2. rewrite String.eqb_refl.
  now rewrite (existsb_false_map _ _ _ Hid).
Qed.

Lemma update_code_taken os row code products lines next :
  existsb (has_id (o_id row)) os = false ->
  existsb (IntegrationsPage.code_taken code) os = true ->
  exists e,
    update_code (IntegrationsPage.mkDb (os ++ [row]) products lines next) (o_id row) code
    = Throw e.
Proof.
  intros Hid Hcode. unfold update_code. simpl.
  assert (H1 : existsb (fun o => negb (has_id (o_id row) o)
                                 && IntegrationsPage.code_taken code o) (os ++ [row]) = true).
  { apply existsb_exists in Hcode as (o & Ho & H). apply existsb_exists.
    exists o. split; [apply in_or_app; now left|].
    now rewrite (existsb_false_In _ _ _ Hid Ho), H. }
  rewrite H1. simpl. eauto.
Qed.

End Quick.

Import Vocab2.

Section QuickCreate.
Import QuickOrders.

Variable uuid : nat -> string.

Lemma insert_quick_lines_ok db order_id ls :
  forallb (fun l => product_known db (ql_product_id l)) ls = true ->
  forallb (fun l => qty_fits (ql_qty l)) ls = true ->
  insert_quick_lines uuid db order_id ls
  = Ok {| IntegrationsPage.orders := IntegrationsPage.orders db;
          IntegrationsPage.products := IntegrationsPage.products db;
          IntegrationsPage.order_lines_tbl :=
            IntegrationsPage.order_lines_tbl db
            ++ number_rows uuid (IntegrationsPage.next_uuid db) order_id ls;
          IntegrationsPage.next_uuid := (IntegrationsPage.next_uuid db + length ls)%nat |}.
Proof. unfold insert_quick_lines. now intros -> ->. Qed.

Lemma insert_quick_lines_cases db order_id ls :
  (exists e, insert_quick_lines uuid db order_id ls = Throw e)
  \/ (exists db', insert_quick_lines uuid db order_id ls = Ok db'
                  /\ IntegrationsPage.orders db' = IntegrationsPage.orders db
                  /\ IntegrationsPage.products db' = IntegrationsPage.products db
                  /\ exists rows, IntegrationsPage.order_lines_tbl db'
                                  = IntegrationsPage.order_lines_tbl db ++ rows).
Proof.
  unfold insert_quick_lines.
  destruct (forallb _ ls); [|left; eauto].
  destruct (forallb _ ls); [|left; eauto].
  right. eexists. split; [reflexivity|]. simpl. eauto.
Qed.

Lemma number_rows_fields oid ls : forall first,
  map (fun l => (order_id l, product_id l, ol_qty l))
      (number_rows uuid first oid ls)
  = map (fun l => (oid, ql_product_id l, ql_qty l)) ls.
Proof. induction ls as [|l ls IH]; intros first; simpl; [reflexivity | now rewrite IH]. Qed.

(** The run of [createQuickOrder] up to the code, for a new id. *)
Lemma createQuickOrder_steps year db od :
  let id := uuid (IntegrationsPage.next_uuid db) in
  let os := IntegrationsPage.orders db in
  existsb (has_id id) os = false ->
  exists code,
    generateOrderCode (Some id) year = Ok code
    /\ createQuickOrder uuid year db od
       = if existsb (IntegrationsPage.code_taken code) os
         then (IntegrationsPage.mkDb
                 (os ++ [manual_row id (od_customer_name od) None])
                 (IntegrationsPage.products db) (IntegrationsPage.order_lines_tbl db)
                 (S (IntegrationsPage.next_uuid db)), FailedToCreate)
         else
           let db2 := IntegrationsPage.mkDb
                        (os ++ [manual_row id (od_customer_name od) (Some code)])
                        (IntegrationsPage.products db)
                        (IntegrationsPage.order_lines_tbl db)
                        (S (IntegrationsPage.next_uuid db)) in
           match insert_quick_lines uuid db2 id (od_lines od) with
           | Throw _ => (db2, FailedToCreate)
           | Ok db3 => (db3, OrderCreated code)
           end.
Proof.
  intros id os Hid. destruct (generateOrderCode_some id year) as [code Hcode].
  exists code. split; [exact Hcode|].
  unfold createQuickOrder. rewrite (insert_manual_ok uuid db _ Hid).
  cbv beta iota. simpl o_id. fold id. rewrite Hcode.
  change (manual_row id (od_customer_name od) None) with
    {| o_id := id; o_code := None; channel := "MANUAL"; external_id := None;
       customer_name := Some (od_customer_name od); status := "PENDING";
       carrier := None; tracking := None |}.
  set (row := {| o_id := id; o_code := None |}).
  change id with (o_id row) in Hid |- *.
  destruct (existsb (IntegrationsPage.code_taken code) os) eqn:Et.
  - destruct (update_code_taken os row code (IntegrationsPage.products db)
                (IntegrationsPage.order_lines_tbl db) (S (IntegrationsPage.next_uuid db))
                Hid Et) as [e He].
    fold os. now rewrite He.
  - fold os.
    rewrite (update_code_new os row code _ _ _ Hid Et). reflexivity.
Qed.

End QuickCreate.

(** X18. A quick order whose new id and code are free and whose lines
    name products on record with quantities that fit the column is
    stored whole: one new order, for the customer, in channel MANUAL and
    status PENDING, with the code derived from its id, and one order line
    per line passed, in their order, all of the new order. The products
    are untouched and the page reports the code. *)
Theorem quick_order_created (uuid : nat -> string) (year : N)
    (db : IntegrationsPage.Db) (od : QuickOrders.OrderData) :
  let id := uuid (IntegrationsPage.next_uuid db) in
  existsb (QuickOrders.has_id id) (IntegrationsPage.orders db) = false ->
  (forall code, generateOrderCode (Some id) year = Ok code ->
     existsb (IntegrationsPage.code_taken code) (IntegrationsPage.orders db) = false) ->
  forallb (fun l => QuickOrders.product_known db (QuickOrders.ql_product_id l))
          (QuickOrders.od_lines od) = true ->
  forallb (fun l => QuickOrders.qty_fits (QuickOrders.ql_qty l))
          (QuickOrders.od_lines od) = true ->
  exists code db',
    generateOrderCode (Some id) year = Ok code
    /\ QuickOrders.createQuickOrder uuid year db od = (db', QuickOrders.OrderCreated code)
    /\ IntegrationsPage.orders db'
       = IntegrationsPage.orders db
         ++ [manual_row id (QuickOrders.od_customer_name od) (Some code)]
    /\ IntegrationsPage.products db' = IntegrationsPage.products db
    /\ IntegrationsPage.order_lines_tbl db'
       = IntegrationsPage.order_lines_tbl db
         ++ QuickOrders.number_rows uuid (S (IntegrationsPage.next_uuid db)) id
              (QuickOrders.od_lines od)
    /\ map (fun l => (order_id l, product_id l, ol_qty l))
           (QuickOrders.number_rows uuid (S (IntegrationsPage.next_uuid db)) id
              (QuickOrders.od_lines od))
       = map (fun l => (id, QuickOrders.ql_product_id l, QuickOrders.ql_qty l))
             (QuickOrders.od_lines od).
Proof.
  intros id Hid Hfree Hknown Hfit.
  destruct (createQuickOrder_steps uuid year db od Hid) as (code & Hcode & Hrun).
  exists code. rewrite Hrun, (Hfree code Hcode). cbv zeta.
  rewrite insert_quick_lines_ok by assumption.
  eexists. split; [exact Hcode|]. split; [reflexivity|]. simpl.
  repeat split. apply number_rows_fields.
Qed.

Lemma quick_order_created_witness :
  let db := IntegrationsPage.mkDb
              [order_of "o-1" "25-9P7C" "SHOPIFY" "ORDER1"]
              [product_of "p-1" "GT-RED-M"; product_of "p-2" "GT-BLACK-L"] [] 0 in
  let od := QuickOrders.mkOrderData "Ada"
              [QuickOrders.mkQuickLine "p-1" 2; QuickOrders.mkQuickLine "p-2" 1] in
  exists code db',
    generateOrderCode (Some (sample_uuid 0)) 2025 = Ok code
    /\ QuickOrders.createQuickOrder sample_uuid 2025 db od
       = (db', QuickOrders.OrderCreated code)
    /\ IntegrationsPage.orders db'
       = IntegrationsPage.orders db ++ [manual_row (sample_uuid 0) "Ada" (Some code)]
    /\ IntegrationsPage.products db' = IntegrationsPage.products db
    /\ IntegrationsPage.order_lines_tbl db'
       = IntegrationsPage.order_lines_tbl db
         ++ QuickOrders.number_rows sample_uuid 1 (sample_uuid 0) (QuickOrders.od_lines od)
    /\ map (fun l => (order_id l, product_id l, ol_qty l))
           (QuickOrders.number_rows sample_uuid 1 (sample_uuid 0) (QuickOrders.od_lines od))
       = map (fun l => (sample_uuid 0, QuickOrders.ql_product_id l, QuickOrders.ql_qty l))
             (QuickOrders.od_lines od).
Proof.
  intros db od. apply (quick_order_created sample_uuid 2025 db od).
  - vm_compute. reflexivity.
  - intros code Hcode. vm_compute in Hcode. injection Hcode as <-. vm_compute. reflexivity.
  - vm_compute. reflexivity.
  - vm_compute. reflexivity.
Defined.

(** X19. When the code derived from the new id is already the code of an
    order on record, the quick order is left half made: the page reports
    a failure, yet the new order is on record, without a code, and none
    of its lines is. *)
Theorem quick_order_code_taken (uuid : nat -> string) (year : N)
    (db : IntegrationsPage.Db) (od : QuickOrders.OrderData) (code : string) :
  let id := uuid (IntegrationsPage.next_uuid db) in
  existsb (QuickOrders.has_id id) (IntegrationsPage.orders db) = false ->
  generateOrderCode (Some id) year = Ok code ->
  existsb (IntegrationsPage.code_taken code) (IntegrationsPage.orders db) = true ->
  exists db',
    QuickOrders.createQuickOrder uuid year db od = (db', QuickOrders.FailedToCreate)
    /\ IntegrationsPage.orders db'
       = IntegrationsPage.orders db
         ++ [manual_row id (QuickOrders.od_customer_name od) None]
    /\ IntegrationsPage.order_lines_tbl db' = IntegrationsPage.order_lines_tbl db.
Proof.
  intros id Hid Hcode Htaken.
  destruct (createQuickOrder_steps uuid year db od Hid) as (code' & Hcode' & Hrun).
  fold id in Hcode'. rewrite Hcode in Hcode'. injection Hcode' as <-.
  rewrite Hrun, Htaken. eexists. split; [reflexivity|]. simpl. auto.
Qed.

Lemma quick_order_code_taken_witness :
  let db := IntegrationsPage.mkDb
              [order_of "o-1" "25-G" "SHOPIFY" "ORDER1"]
              [product_of "p-1" "GT-RED-M"] [] 0 in
  let od := QuickOrders.mkOrderData "Ada" [QuickOrders.mkQuickLine "p-1" 2] in
  exists db',
    QuickOrders.createQuickOrder sample_uuid 2025 db od
    = (db', QuickOrders.FailedToCreate)
    /\ IntegrationsPage.orders db'
       = IntegrationsPage.orders db ++ [manual_row (sample_uuid 0) "Ada" None]
    /\ IntegrationsPage.order_lines_tbl db' = IntegrationsPage.order_lines_tbl db.
Proof.
  intros db od.
  apply (quick_order_code_taken sample_uuid 2025 db od "25-G"); vm_compute; reflexivity.
Defined.

(** X20. When a line names a product that is not on record, or a
    quantity that does not fit the column, the quick order is left half
    made as well: the page reports a failure, the new order is on record
    with its code, and none of its lines is, not even the good ones. *)
Theorem quick_order_lines_refused (uuid : nat -> string) (year : N)
    (db : IntegrationsPage.Db) (od : QuickOrders.OrderData) :
  let id := uuid (IntegrationsPage.next_uuid db) in
  existsb (QuickOrders.has_id id) (IntegrationsPage.orders db) = false ->
  (forall code, generateOrderCode (Some id) year = Ok code ->
     existsb (IntegrationsPage.code_taken code) (IntegrationsPage.orders db) = false) ->
  forallb (fun l => QuickOrders.product_known db (QuickOrders.ql_product_id l))
          (QuickOrders.od_lines od)
  && forallb (fun l => QuickOrders.qty_fits (QuickOrders.ql_qty l))
             (QuickOrders.od_lines od) = false ->
  exists code db',
    generateOrderCode (Some id) year = Ok code
    /\ QuickOrders.createQuickOrder uuid year db od = (db', QuickOrders.FailedToCreate)
    /\ IntegrationsPage.orders db'
       = IntegrationsPage.orders db
         ++ [manual_row id (QuickOrders.od_customer_name od) (Some code)]
    /\ IntegrationsPage.order_lines_tbl db' = IntegrationsPage.order_lines_tbl db.
Proof.
  intros id Hid Hfree Hbad.
  destruct (createQuickOrder_steps uuid year db od Hid) as (code & Hcode & Hrun).
  exists code. rewrite Hrun, (Hfree code Hcode). cbv zeta.
  unfold QuickOrders.insert_quick_lines, QuickOrders.product_known in *. simpl.
  destruct (forallb _ (QuickOrders.od_lines od)); simpl in Hbad.
  - rewrite Hbad. eexists. repeat split; eauto.
  - eexists. repeat split; eauto.
Qed.

Lemma quick_order_lines_refused_witness :
  let db := IntegrationsPage.mkDb [] [product_of "p-1" "GT-RED-M"] [] 0 in
  let od := QuickOrders.mkOrderData "Ada"
              [QuickOrders.mkQuickLine "p-1" 2; QuickOrders.mkQuickLine "p-1" 3000000000] in
  exists code db',
    generateOrderCode (Some (sample_uuid 0)) 2025 = Ok code
    /\ QuickOrders.createQuickOrder sample_uuid 2025 db od
       = (db', QuickOrders.FailedToCreate)
    /\ IntegrationsPage.orders db'
       = IntegrationsPage.orders db ++ [manual_row (sample_uuid 0) "Ada" (Some code)]
    /\ IntegrationsPage.order_lines_tbl db' = IntegrationsPage.order_lines_tbl db.
Proof.
  intros db od. apply (quick_order_lines_refused sample_uuid 2025 db od).
  - reflexivity.
  - intros code _. reflexivity.
  - vm_compute. reflexivity.
Defined.

Section QuickInvariants.
Import QuickOrders.

Lemma unique_codes_snoc os row :
  unique_codes os ->
  (forall code, IntegrationsPage.code_taken code row = true ->
                existsb (IntegrationsPage.code_taken code) os = false) ->
  unique_codes (os ++ [row]).
Proof.
  intros Hu Hrow code. rewrite List.filter_app, length_app. simpl.
  destruct (IntegrationsPage.code_taken code row) eqn:E; simpl.
  - rewrite (existsb_false_filter _ _ (Hrow code E)). simpl. lia.
  - specialize (Hu code). lia.
Qed.

End QuickInvariants.

(** X21. [createQuickOrder] never touches what is on record: however it
    ends, the orders on record before are still there, unchanged and in
    their order, followed by at most one new order; the order lines on
    record are still there, followed by the new ones; the products are
    the same; and if no two orders shared a code before, none do after. *)
Theorem quick_order_keeps_records (uuid : nat -> string) (year : N)
    (db : IntegrationsPage.Db) (od : QuickOrders.OrderData) :
  unique_codes (IntegrationsPage.orders db) ->
  let db' := fst (QuickOrders.createQuickOrder uuid year db od) in
  (exists new, IntegrationsPage.orders db' = IntegrationsPage.orders db ++ new
               /\ (length new <= 1)%nat)
  /\ (exists rows, IntegrationsPage.order_lines_tbl db'
                   = IntegrationsPage.order_lines_tbl db ++ rows)
  /\ IntegrationsPage.products db' = IntegrationsPage.products db
  /\ unique_codes (IntegrationsPage.orders db').
Proof.
  intros Hu db'. subst db'.
  destruct (existsb (QuickOrders.has_id (uuid (IntegrationsPage.next_uuid db)))
                    (IntegrationsPage.orders db)) eqn:Hid.
  - unfold QuickOrders.createQuickOrder, QuickOrders.insert_manual. rewrite Hid. simpl.
    repeat split; try assumption.
    + exists []. rewrite app_nil_r. split; [reflexivity | simpl; lia].
    + exists []. now rewrite app_nil_r.
  - destruct (createQuickOrder_steps uuid year db od Hid) as (code & Hcode & ->).
    destruct (existsb (IntegrationsPage.code_taken code) (IntegrationsPage.orders db)) eqn:Et.
    + simpl. repeat split.
      * eexists. split; [reflexivity | simpl; lia].
      * exists []. now rewrite app_nil_r.
      * apply unique_codes_snoc; [exact Hu|]. intros c Hc. discriminate.
    + cbv zeta.
      assert (Hu2 : unique_codes
                (IntegrationsPage.orders db
                 ++ [manual_row (uuid (IntegrationsPage.next_uuid db))
                       (QuickOrders.od_customer_name od) (Some code)])).
      { apply unique_codes_snoc; [exact Hu|]. intros c Hc.
        unfold IntegrationsPage.code_taken in Hc. simpl in Hc.
        apply String.eqb_eq in Hc. now subst c. }
      match goal with
      | |- context [QuickOrders.insert_quick_lines uuid ?d ?i ?l] =>
          destruct (insert_quick_lines_cases uuid d i l)
            as [[e ->] | (db3 & -> & Ho & Hp & rows & Hl)]
      end.
      * simpl. repeat split; try exact Hu2.
        -- eexists. split; [reflexivity | simpl; lia].
        -- exists []. now rewrite app_nil_r.
      * simpl. rewrite Ho, Hp, Hl. simpl. repeat split; try exact Hu2.
        -- eexists. split; [reflexivity | simpl; lia].
        -- eauto.
Qed.

Lemma quick_order_keeps_records_witness :
  let db := IntegrationsPage.mkDb
              [order_of "o-1" "25-G" "SHOPIFY" "ORDER1"]
              [product_of "p-1" "GT-RED-M"] [] 0 in
  let od := QuickOrders.mkOrderData "Ada" [QuickOrders.mkQuickLine "p-1" 2] in
  let db' := fst (QuickOrders.createQuickOrder sample_uuid 2025 db od) in
  (exists new, IntegrationsPage.orders db' = IntegrationsPage.orders db ++ new
               /\ (length new <= 1)%nat)
  /\ (exists rows, IntegrationsPage.order_lines_tbl db'
                   = IntegrationsPage.order_lines_tbl db ++ rows)
  /\ IntegrationsPage.products db' = IntegrationsPage.products db
  /\ unique_codes (IntegrationsPage.orders db').
Proof.
  intros db od. apply (quick_order_keeps_records sample_uuid 2025 db od).
  intros code. simpl. destruct (IntegrationsPage.code_taken code _); simpl; lia.
Defined.

Section CodeText.
Import JsText.

Lemma all_chars_app P s t : all_chars P (s +:+ t) = all_chars P s && all_chars P t.
Proof.
  induction s as [|c s IH]; rewrite ?append_nil, ?append_cons; simpl; [reflexivity|].
  now rewrite IH, andb_assoc.
Qed.

Lemma all_chars_impl (P Q : ascii -> bool) s :
  (forall c, P c = true -> Q c = true) -> all_chars P s = true -> all_chars Q s = true.
Proof.
  intros H. induction s as [|c s IH]; simpl; [reflexivity|].
  intros Hs. apply andb_true_iff in Hs as [Hc Hs]. now rewrite (H c Hc), IH.
Qed.

Lemma code_char_facts c :
  code_char c = true -> is_space c = false /\ upper_char c = c.
Proof.
  intros H.
  pose (P := fun c => negb (code_char c)
                      || (negb (is_space c) && Ascii.eqb (upper_char c) c)).
  assert (HP : P c = true) by (apply all_ascii; vm_compute; reflexivity).
  unfold P in HP. rewrite H in HP. simpl in HP.
  apply andb_true_iff in HP as [H1 H2].
  split; [now apply negb_true_iff | now apply Ascii.eqb_eq].
Qed.

Lemma two_digits_chars y : 0 <= y -> all_chars code_char (two_digits y) = true.
Proof.
  intros Hy. unfold two_digits. simpl.
  assert (D : forall d, 0 <= d < 10 -> code_char (digit_char d) = true).
  { apply (below_cases (fun d => code_char (digit_char d)) 10). vm_compute. reflexivity. }
  rewrite !D; [reflexivity | |]; apply Z.mod_pos_bound; lia.
Qed.

(** A code is made of digits, capital letters and the hyphen, and is not
    empty. *)
Lemma code_chars id year code :
  generateOrderCode (Some id) year = Ok code ->
  all_chars code_char code = true /\ code <> EmptyString.
Proof.
  unfold generateOrderCode. rewrite year_string by lia. intros [= <-].
  split.
  - rewrite !all_chars_app, two_digits_chars by lia. simpl.
    destruct (parseInt16_no_hyphen _ (hex_tail_no_hyphen id)) as [E | (n & E & Hn)];
      rewrite E; [reflexivity|].
    simpl toString. destruct (Z.ltb_spec n 0); [lia|].
    rewrite toUpperCase_digits.
    apply (all_chars_impl is_0_9_A_Z).
    + intros c Hc. unfold code_char. now rewrite Hc.
    + apply upper_digits_chars, nat_digits_range; lia.
  - unfold two_digits. rewrite !append_cons. discriminate.
Qed.

Lemma trimStart_no_space s : all_chars no_space s = true -> trimStart s = s.
Proof.
  destruct s as [|c s]; simpl; [reflexivity|].
  intros H. apply andb_true_iff in H as [H _].
  unfold no_space in H. apply negb_true_iff in H. now rewrite H.
Qed.

Lemma trimEnd_no_space s : all_chars no_space s = true -> trimEnd s = s.
Proof.
  induction s as [|c s IH]; simpl; [reflexivity|].
  intros H. apply andb_true_iff in H as [Hc Hs].
  unfold no_space in Hc. apply negb_true_iff in Hc.
  rewrite (IH Hs), Hc. now destruct s.
Qed.

(** Typing a code as it is printed gives the code back: trimming and
    upper-casing leave it as it is. *)
Lemma code_typed id year code :
  generateOrderCode (Some id) year = Ok code ->
  toUpperCase (trim code) = code.
Proof.
  intros H. apply code_chars in H as [H _].
  assert (Hs : all_chars no_space code = true).
  { apply (all_chars_impl code_char); [|exact H].
    intros c Hc. unfold no_space. now rewrite (proj1 (code_char_facts c Hc)). }
  unfold trim. rewrite (trimEnd_no_space _ Hs), (trimStart_no_space _ Hs).
  clear Hs. induction code as [|c s IH]; simpl; [reflexivity|].
  simpl in H. apply andb_true_iff in H as [Hc H].
  now rewrite (proj2 (code_char_facts c Hc)), IH.
Qed.

End CodeText.

(** X22. A quick order that was stored can be looked up by its code: with
    the code typed into the search field as reported, the search leads to
    the new order; and so does every ASCII text that trimmed and in upper
    case is the code. *)
Theorem search_finds_quick_order (uuid : nat -> string) (year : N)
    (db : IntegrationsPage.Db) (od : QuickOrders.OrderData) :
  let id := uuid (IntegrationsPage.next_uuid db) in
  existsb (QuickOrders.has_id id) (IntegrationsPage.orders db) = false ->
  (forall code, generateOrderCode (Some id) year = Ok code ->
     existsb (IntegrationsPage.code_taken code) (IntegrationsPage.orders db) = false) ->
  forallb (fun l => QuickOrders.product_known db (QuickOrders.ql_product_id l))
          (QuickOrders.od_lines od) = true ->
  forallb (fun l => QuickOrders.qty_fits (QuickOrders.ql_qty l))
          (QuickOrders.od_lines od) = true ->
  exists code db',
    QuickOrders.createQuickOrder uuid year db od = (db', QuickOrders.OrderCreated code)
    /\ QuickOrders.searchOrder db' code = QuickOrders.Navigate id
    /\ forall q, all_chars is_ascii q = true ->
                 toUpperCase (JsText.trim q) = code ->
                 QuickOrders.searchOrder db' q = QuickOrders.Navigate id.
Proof.
  intros id Hid Hfree Hknown Hfit.
  destruct (createQuickOrder_steps uuid year db od Hid) as (code & Hcode & Hrun).
  exists code. rewrite Hrun, (Hfree code Hcode). cbv zeta.
  rewrite insert_quick_lines_ok by assumption.
  eexists. split; [reflexivity|].
  assert (G : forall q, toUpperCase (JsText.trim q) = code ->
            QuickOrders.searchOrder
              {| IntegrationsPage.orders :=
                   IntegrationsPage.orders db
                   ++ [manual_row id (QuickOrders.od_customer_name od) (Some code)];
                 IntegrationsPage.products := IntegrationsPage.products db;
                 IntegrationsPage.order_lines_tbl :=
                   IntegrationsPage.order_lines_tbl db
                   ++ QuickOrders.number_rows uuid (S (IntegrationsPage.next_uuid db)) id
                        (QuickOrders.od_lines od);
                 IntegrationsPage.next_uuid :=
                   (S (IntegrationsPage.next_uuid db)
                    + length (QuickOrders.od_lines od))%nat |} q
            = QuickOrders.Navigate id).
  { intros q Hq. unfold QuickOrders.searchOrder, JsText.blank.
    destruct (String.eqb_spec (JsText.trim q) EmptyString) as [E|E].
    - rewrite E in Hq. simpl in Hq. subst code.
      now destruct (code_chars _ _ _ Hcode) as [_ Hne].
    - rewrite Hq. simpl. rewrite List.filter_app.
      rewrite (existsb_false_filter _ _ (Hfree code Hcode)). simpl.
      unfold IntegrationsPage.code_taken at 1. simpl. now rewrite String.eqb_refl. }
  split.
  - apply G. eapply code_typed, Hcode.
  - intros q _. apply G.
Qed.

Lemma search_finds_quick_order_witness :
  let db := IntegrationsPage.mkDb
              [order_of "o-1" "25-9P7C" "SHOPIFY" "ORDER1"]
              [product_of "p-1" "GT-RED-M"] [] 0 in
  let od := QuickOrders.mkOrderData "Ada" [QuickOrders.mkQuickLine "p-1" 2] in
  exists code db',
    QuickOrders.createQuickOrder sample_uuid 2025 db od
    = (db', QuickOrders.OrderCreated code)
    /\ QuickOrders.searchOrder db' code = QuickOrders.Navigate (sample_uuid 0)
    /\ forall q, all_chars is_ascii q = true ->
                 toUpperCase (JsText.trim q) = code ->
                 QuickOrders.searchOrder db' q = QuickOrders.Navigate (sample_uuid 0).
Proof.
  intros db od. apply (search_finds_quick_order sample_uuid 2025 db od).
  - vm_compute. reflexivity.
  - intros code Hcode. vm_compute in Hcode. injection Hcode as <-. vm_compute. reflexivity.
  - vm_compute. reflexivity.
  - vm_compute. reflexivity.
Defined.

Example search_lower_case :
  let db := fst (QuickOrders.createQuickOrder sample_uuid 2025
                   (IntegrationsPage.mkDb [] [product_of "p-1" "GT-RED-M"] [] 0)
                   (QuickOrders.mkOrderData "Ada" [QuickOrders.mkQuickLine "p-1" 2])) in
  QuickOrders.searchOrder db "  25-g " = QuickOrders.Navigate (sample_uuid 0)
  /\ QuickOrders.searchOrder db "25-H" = QuickOrders.OrderNotFound
  /\ QuickOrders.searchOrder db "   " = QuickOrders.NothingTyped.
Proof. vm_compute. repeat split; reflexivity. Qed.

(* ===================================================================== *)
(** ** Further properties: the grouping loop and the import *)
(* ===================================================================== *)

Section GroupingMore.
Import IntegrationsPage.

Lemma all_lines_push k line m :
  has k m = true ->
  Permutation (all_lines (map snd (push_line k line m)))
              (line :: all_lines (map snd m)).
Proof.
  unfold all_lines. induction m as [|[k' g] m IH]; simpl; [discriminate|].
  destruct (String.eqb k' k) eqn:E; simpl.
  - intros _. rewrite <- app_assoc. simpl.
    symmetry. apply Permutation_middle.
  - intros H. rewrite (IH H).
    change (line :: concat (map lines (map snd m)))
      with ([line] ++ concat (map lines (map snd m))).
    rewrite app_assoc.
    rewrite (Permutation_app_comm (lines g) [line]). now rewrite <- app_assoc.
Qed.

Lemma add_row_skipped m row : row_skipped row = true -> add_row m row = m.
Proof. unfold add_row. now intros ->. Qed.

Lemma add_row_lines m row :
  row_skipped row = false ->
  Permutation (all_lines (map snd (add_row m row)))
              (all_lines (map snd m) ++ [line_of row]).
Proof.
  intros Hk. unfold add_row. rewrite Hk.
  fold (line_of row).
  destruct (has (orderKey row) m) eqn:Hhas.
  - rewrite (all_lines_push _ _ _ Hhas). apply Permutation_cons_append.
  - rewrite push_line_app_miss by exact Hhas. simpl. rewrite String.eqb_refl.
    unfold all_lines. rewrite !map_app, concat_app. simpl. reflexivity.
Qed.

(** The lines of all groups are the lines of the kept rows, each once;
    within the groups they may stand in another order than in the file. *)
Lemma groupRows_lines data :
  Permutation (all_lines (groupedOrders_values data)) (map line_of (kept_rows data)).
Proof.
  unfold groupedOrders_values. induction data as [|row data IH] using rev_ind.
  - reflexivity.
  - rewrite groupRows_snoc. unfold kept_rows in *. rewrite List.filter_app. simpl.
    destruct (row_skipped row) eqn:Hs; simpl.
    + rewrite add_row_skipped by exact Hs. now rewrite app_nil_r.
    + rewrite add_row_lines by exact Hs. rewrite map_app. simpl.
      now apply Permutation_app_tail.
Qed.

Lemma groupRows_kept data : groupRows (kept_rows data) = groupRows data.
Proof.
  unfold kept_rows. induction data as [|row data IH] using rev_ind; [reflexivity|].
  rewrite List.filter_app. simpl. destruct (row_skipped row) eqn:Hs; simpl.
  - rewrite app_nil_r, groupRows_snoc, add_row_skipped by exact Hs. exact IH.
  - now rewrite !groupRows_snoc, IH.
Qed.

End GroupingMore.

(** X23. The grouping loses and invents nothing: the lines of all groups
    together are the lines of the rows that have an external id, a
    channel and a SKU, each row giving exactly one line; every group has
    at least one line; and the rows that lack one of the three leave no
    trace, the groups are the same as if these rows were not in the
    file. *)
Theorem grouping_keeps_every_row (data : list IntegrationsPage.CSVRow) :
  Permutation (all_lines (IntegrationsPage.groupedOrders_values data))
              (map line_of (kept_rows data))
  /\ Forall (fun g => IntegrationsPage.lines g <> [])
            (IntegrationsPage.groupedOrders_values data)
  /\ IntegrationsPage.groupRows (kept_rows data) = IntegrationsPage.groupRows data.
Proof.
  split; [apply groupRows_lines|]. split; [|apply groupRows_kept].
  apply Forall_forall. intros g Hg. apply list_elem_of_In in Hg.
  unfold IntegrationsPage.groupedOrders_values in Hg.
  apply in_map_iff in Hg as ([k g'] & E & Hin). simpl in E. subst g'.
  destruct (groupRows_invariant data) as (_ & Hgroups & _).
  destruct (Hgroups k g Hin) as (first & rest & _ & ->). discriminate.
Qed.

(** X24. No line of any group carries NaN or 0 as its quantity: a cell
    that cannot be read, or reads as 0, gives 1, and every other cell
    gives an integer other than 0 or, when it has more digits than a
    double holds, an infinity. *)
Theorem line_quantities_nonzero (data : list IntegrationsPage.CSVRow) :
  Forall (fun line =>
            truthy (IntegrationsPage.line_qty line) = true
            /\ ((exists z, IntegrationsPage.line_qty line = Int z /\ z <> 0)
                \/ IntegrationsPage.line_qty line = PosInf
                \/ IntegrationsPage.line_qty line = NegInf))
         (all_lines (IntegrationsPage.groupedOrders_values data)).
Proof.
  apply Forall_forall. intros line Hl. apply list_elem_of_In in Hl.
  apply (Permutation_in _ (groupRows_lines data)) in Hl.
  apply in_map_iff in Hl as (row & <- & _).
  unfold line_of. simpl. rewrite parse_qty_cases.
  assert (Hone : truthy (Int 1) = true
                 /\ ((exists z, Int 1 = Int z /\ z <> 0)
                     \/ Int 1 = PosInf \/ Int 1 = NegInf)).
  { split; [reflexivity|]. left. exists 1. split; [reflexivity | lia]. }
  destruct (parseInt_cases (IntegrationsPage.row_qty row) 0) as [-> | [z ->]];
    [exact Hone|].
  destruct (Z.eqb_spec z 0) as [|Hz]; [exact Hone|].
  pose proof (round_to_double_truthy z) as Ht.
  destruct (Z.eqb_spec z 0); [contradiction|]. simpl in Ht.
  split; [exact Ht|].
  destruct (round_to_double z) as [m| | |]; [| now right; left | now right; right
                                            | discriminate].
  left. exists m. split; [reflexivity|]. intros ->. discriminate.
Qed.

(** A quantity cell of 310 digits is kept as [Infinity], and one just
    above 2^53 as the double next to it. *)
Example line_quantity_rounded :
  IntegrationsPage.parse_qty ("1" +:+ repeat_char "0" 309) = PosInf
  /\ IntegrationsPage.parse_qty "9007199254740993" = Int 9007199254740992
  /\ IntegrationsPage.parse_qty "9007199254740995" = Int 9007199254740996
  /\ IntegrationsPage.parse_qty "-7" = Int (-7).
Proof. repeat split; vm_compute; reflexivity. Qed.

Section ImportMore.
Import IntegrationsPage.

Variable uuid : nat -> string.

Lemma record_report_count r rep :
  (length (l_newOrders (record_report r rep))
   + length (l_existingOrders (record_report r rep))
   + length (l_errors (record_report r rep))
   = S (length (l_newOrders r) + length (l_existingOrders r) + length (l_errors r)))%nat.
Proof. destruct rep; simpl; rewrite length_app; simpl; lia. Qed.

Lemma import_loop_count gen groups : forall i db r,
  let r' := snd (import_loop uuid gen i db r groups) in
  (length (l_newOrders r') + length (l_existingOrders r') + length (l_errors r')
   = length (l_newOrders r) + length (l_existingOrders r) + length (l_errors r)
     + length groups)%nat.
Proof.
  induction groups as [|g groups IH]; intros i db r; simpl; [lia|].
  destruct (importOrder uuid (gen i) db g) as [db' rep].
  specialize (IH (S i) db' (record_report r rep)). simpl in IH.
  rewrite IH, record_report_count. lia.
Qed.

Lemma insert_order_row db code ch ext name row db' :
  insert_order uuid db code ch ext name = Ok (row, db') ->
  o_code row = Some code /\ status row = "PENDING"
  /\ existsb (code_taken code) (orders db) = false
  /\ products db' = products db
  /\ order_lines_tbl db' = order_lines_tbl db.
Proof.
  unfold insert_order.
  destruct (existsb (code_taken code) (orders db)); simpl; [discriminate|].
  destruct (existsb (same_order ch ext) (orders db)); [discriminate|].
  intros [= <- <-]. simpl. auto.
Qed.

Lemma insert_lines_tables db ls db' :
  insert_lines uuid db ls = Ok db' ->
  products db' = products db
  /\ exists rows, order_lines_tbl db' = order_lines_tbl db ++ rows.
Proof.
  unfold insert_lines. destruct (mapM _ ls); [|discriminate].
  intros [= <-]. simpl. eauto.
Qed.

(** What a turn of the loop does to the tables: the products stay, the
    order lines on record stay, and the orders on record stay, followed
    by at most one new order, which is PENDING and has a code no order
    had before. *)
Lemma importOrder_tables code db g db' rep :
  importOrder uuid code db g = (db', rep) ->
  products db' = products db
  /\ (exists rows, order_lines_tbl db' = order_lines_tbl db ++ rows)
  /\ (orders db' = orders db
      \/ exists row c, orders db' = orders db ++ [row]
                       /\ o_code row = Some c /\ status row = "PENDING"
                       /\ existsb (code_taken c) (orders db) = false).
Proof.
  assert (Hsame : products db = products db
            /\ (exists rows, order_lines_tbl db = order_lines_tbl db ++ rows)
            /\ (orders db = orders db
                \/ exists row c, orders db = orders db ++ [row]
                       /\ o_code row = Some c /\ status row = "PENDING"
                       /\ existsb (code_taken c) (orders db) = false)).
  { split; [reflexivity|]. split; [exists []; now rewrite app_nil_r | now left]. }
  unfold importOrder.
  destruct (find_existing db g); [intros [= <- <-]; exact Hsame|].
  destruct (find_products db _) as [|p ps]; [intros [= <- <-]; exact Hsame|].
  destruct code as [code|e]; [|intros [= <- <-]; exact Hsame].
  destruct (insert_order uuid db code _ _ _) as [[row db1]|e] eqn:Hins;
    [|intros [= <- <-]; exact Hsame].
  pose proof (insert_order_ok _ _ _ _ _ _ _ _ Hins) as (Ho & _ & _).
  apply insert_order_row in Hins as (Hc & Hst & Hfree & Hp & Hl).
  assert (Hnew : orders db1 = orders db
            \/ exists row c, orders db1 = orders db ++ [row]
                       /\ o_code row = Some c /\ status row = "PENDING"
                       /\ existsb (code_taken c) (orders db) = false)
    by (right; exists row, code; auto).
  destruct (omap _ (lines g)) as [|l ls].
  { intros [= <- <-]. rewrite Hp, Hl. split; [reflexivity|].
    split; [exists []; now rewrite app_nil_r | exact Hnew]. }
  destruct (insert_lines uuid db1 (l :: ls)) as [db2|e] eqn:Hlines.
  - intros [= <- <-]. pose proof (insert_lines_orders _ _ _ _ Hlines) as Ho2.
    apply insert_lines_tables in Hlines as (Hp2 & rows & Hl2).
    rewrite Hp2, Hl2, Ho2, Hp, Hl. split; [reflexivity|]. split; [eauto | exact Hnew].
  - intros [= <- <-]. rewrite Hp, Hl. split; [reflexivity|].
    split; [exists []; now rewrite app_nil_r | exact Hnew].
Qed.

Lemma import_loop_tables gen groups : forall i db r,
  let db' := fst (import_loop uuid gen i db r groups) in
  products db' = products db
  /\ (exists rows, order_lines_tbl db' = order_lines_tbl db ++ rows)
  /\ (exists new, orders db' = orders db ++ new
                  /\ (length new <= length groups)%nat
                  /\ Forall (fun o => status o = "PENDING") new)
  /\ (unique_codes (orders db) -> unique_codes (orders db'))
  /\ (unique_pairs (orders db) -> unique_pairs (orders db')).
Proof.
  induction groups as [|g groups IH]; intros i db r; simpl.
  - split; [reflexivity|]. split; [exists []; now rewrite app_nil_r|].
    split; [|auto]. exists []. rewrite app_nil_r. repeat split; [simpl; lia | constructor].
  - destruct (importOrder uuid (gen i) db g) as [db1 rep] eqn:Hstep.
    destruct (importOrder_tables _ _ _ _ _ Hstep) as (Hp & (rows & Hl) & Hos).
    destruct (IH (S i) db1 (record_report r rep)) as (Hp' & (rows' & Hl') & (new & Ho' & Hlen & Hst) & Hc' & Hu').
    split; [congruence|].
    split; [exists (rows ++ rows'); rewrite Hl', Hl; now rewrite app_assoc|].
    split; [|split].
    + destruct Hos as [Ho | (row & c & Ho & _ & Hs & _)].
      * exists new. rewrite Ho', Ho. repeat split; [lia | exact Hst].
      * exists (row :: new). rewrite Ho', Ho, <- app_assoc. simpl.
        repeat split; [lia | now constructor].
    + intros Hu. apply Hc'.
      destruct Hos as [-> | (row & c & -> & Hrc & _ & Hfree)]; [exact Hu|].
      apply unique_codes_snoc; [exact Hu|]. intros c' Hc.
      unfold code_taken in Hc. rewrite Hrc in Hc. apply String.eqb_eq in Hc.
      now subst c'.
    + intros Hu. apply Hu'.
      now destruct (importOrder_step uuid _ _ _ _ _ Hu Hstep) as (Hu1 & _).
Qed.

End ImportMore.

(** X25. The summary of an import accounts for every group exactly once,
    whatever the code generator yields: the new orders, the existing
    orders and the errors together are as many as the groups, and the
    success flag is set exactly when there is no error. *)
Theorem import_accounts_for_groups (uuid : nat -> string)
    (gen : nat -> result string) (db : IntegrationsPage.Db)
    (groups : list IntegrationsPage.GroupedOrder) :
  let r := snd (IntegrationsPage.importOrdersWith uuid gen db groups) in
  (length (IntegrationsPage.newOrders r) + length (IntegrationsPage.existingOrders r)
   + length (IntegrationsPage.errors r) = length groups)%nat
  /\ (IntegrationsPage.success r = true <-> IntegrationsPage.errors r = []).
Proof.
  unfold IntegrationsPage.importOrdersWith.
  pose proof (import_loop_count uuid gen groups 0 db IntegrationsPage.no_report) as H.
  destruct (IntegrationsPage.import_loop uuid gen 0 db IntegrationsPage.no_report groups)
    as [db' r]. simpl in *. split; [lia|].
  destruct (IntegrationsPage.l_errors r); simpl; split; auto; discriminate.
Qed.

(** X26. An import only adds: whatever the code generator yields, the
    products are the same afterwards, the orders and order lines on
    record before are still there, unchanged and in their order, and the
    orders added, at most one per group, are all PENDING. *)
Theorem import_only_adds (uuid : nat -> string)
    (gen : nat -> result string) (db : IntegrationsPage.Db)
    (groups : list IntegrationsPage.GroupedOrder) :
  let db' := fst (IntegrationsPage.importOrdersWith uuid gen db groups) in
  IntegrationsPage.products db' = IntegrationsPage.products db
  /\ (exists rows, IntegrationsPage.order_lines_tbl db'
                   = IntegrationsPage.order_lines_tbl db ++ rows)
  /\ (exists new, IntegrationsPage.orders db' = IntegrationsPage.orders db ++ new
                  /\ (length new <= length groups)%nat
                  /\ Forall (fun o => status o = "PENDING") new).
Proof.
  unfold IntegrationsPage.importOrdersWith.
  pose proof (import_loop_tables uuid gen groups 0 db IntegrationsPage.no_report)
    as (Hp & Hl & Ho & _).
  destruct (IntegrationsPage.import_loop uuid gen 0 db IntegrationsPage.no_report groups)
    as [db' r]. simpl in *. auto.
Qed.

(** X27. An import never creates a duplicate: if no two orders on record
    share a code, none do afterwards, and if no two share channel and
    external id, none do afterwards, whatever the code generator
    yields. *)
Theorem import_keeps_orders_unique (uuid : nat -> string)
    (gen : nat -> result string) (db : IntegrationsPage.Db)
    (groups : list IntegrationsPage.GroupedOrder) :
  unique_codes (IntegrationsPage.orders db) ->
  unique_pairs (IntegrationsPage.orders db) ->
  let db' := fst (IntegrationsPage.importOrdersWith uuid gen db groups) in
  unique_codes (IntegrationsPage.orders db')
  /\ unique_pairs (IntegrationsPage.orders db').
Proof.
  intros Hc Hu. unfold IntegrationsPage.importOrdersWith.
  pose proof (import_loop_tables uuid gen groups 0 db IntegrationsPage.no_report)
    as (_ & _ & _ & Hc' & Hu').
  destruct (IntegrationsPage.import_loop uuid gen 0 db IntegrationsPage.no_report groups)
    as [db' r]. simpl in *. auto.
Qed.

Lemma import_keeps_orders_unique_witness :
  let db := IntegrationsPage.mkDb
              [order_of "o-1" "25-9P7C" "SHOPIFY" "ORDER1"]
              [product_of "p-1" "GT-RED-M"] [] 0 in
  let groups := [IntegrationsPage.mkGroupedOrder "SHOPIFY" "ORDER1" "John"
                   [IntegrationsPage.mkLine "GT-RED-M" (Int 2)];
                 IntegrationsPage.mkGroupedOrder "ETSY" "ORDER2" "Jane"
                   [IntegrationsPage.mkLine "GT-RED-M" (Int 1)];
                 IntegrationsPage.mkGroupedOrder "ETSY" "ORDER3" "Joan"
                   [IntegrationsPage.mkLine "GT-RED-M" (Int 1)]] in
  let db' := fst (IntegrationsPage.importOrdersWith sample_uuid
                    (fun _ => Ok "25-ZZZZ") db groups) in
  unique_codes (IntegrationsPage.orders db')
  /\ unique_pairs (IntegrationsPage.orders db').
Proof.
  intros db groups.
  apply (import_keeps_orders_unique sample_uuid (fun _ => Ok "25-ZZZZ") db groups).
  - intros code. simpl. destruct (IntegrationsPage.code_taken code _); simpl; lia.
  - intros ch ext. simpl. destruct (IntegrationsPage.same_order ch ext _); simpl; lia.
Defined.

(* ===================================================================== *)
(** ** Further properties: what the stock buttons leave alone, and the
       guard of the protected pages *)
(* ===================================================================== *)

Import Vocab3.

Section StockFrame.
Import MaterialsPage.

Lemma set_quantity_fixed id q l :
  map fixed_part (set_quantity id q l) = map fixed_part l.
Proof.
  unfold set_quantity. rewrite map_map. apply map_ext. intros m.
  now destruct (String.eqb (m_id m) id).
Qed.

Lemma updateQuantity_table_fixed id q env st :
  map fixed_part (table (updateQuantity id q env st)) = map fixed_part (table st).
Proof. destruct env; simpl; [apply set_quantity_fixed | reflexivity | reflexivity]. Qed.

Lemma click_unguarded_fixed st c :
  map fixed_part (table (click_unguarded st c)) = map fixed_part (table st).
Proof.
  destruct c as [row env|row env]; simpl;
    destruct (nth_error (materials st) row); auto using updateQuantity_table_fixed.
Qed.

Lemma click_fixed st c :
  map fixed_part (table (click st c)) = map fixed_part (table st).
Proof.
  destruct c as [row env|row env]; simpl;
    destruct (nth_error (materials st) row) as [m|]; try reflexivity;
    try destruct (decrement_disabled m); auto using updateQuantity_table_fixed.
Qed.

End StockFrame.

(** X28. The stock buttons change stock and nothing else: after any
    sequence of clicks, whatever their writes and reloads do, the table
    has the same rows in the same order, each with the id, name, variant,
    SKU, reorder point and archived flag it had. *)
Theorem clicks_change_stock_only (st : MaterialsPage.State)
    (cs : list MaterialsPage.Click) :
  map fixed_part (MaterialsPage.table (MaterialsPage.clicks st cs))
  = map fixed_part (MaterialsPage.table st)
  /\ map fixed_part (MaterialsPage.table (MaterialsPage.clicks_unguarded st cs))
     = map fixed_part (MaterialsPage.table st).
Proof.
  split.
  - unfold MaterialsPage.clicks. revert st.
    induction cs as [|c cs IH]; intros st; simpl; [reflexivity|].
    now rewrite IH, click_fixed.
  - unfold MaterialsPage.clicks_unguarded. revert st.
    induction cs as [|c cs IH]; intros st; simpl; [reflexivity|].
    now rewrite IH, click_unguarded_fixed.
Qed.

Section Guard.
Import Auth.

Context {User : Type}.

(** After at least one update the provider is done loading and its user
    is the user of its session. *)
Lemma receive_all (us : list (Update User)) : forall st,
  us <> [] ->
  loading (fold_left receive us st) = false
  /\ user (fold_left receive us st) = option_map session_user (session (fold_left receive us st)).
Proof.
  induction us as [|u us IH]; intros st Hne; [congruence|].
  simpl. destruct us as [|u' us'].
  - simpl. auto.
  - apply IH. discriminate.
Qed.

End Guard.

(** X29. The protected pages are shown to signed-in users only: once the
    provider has received anything, in any order and number, the guard
    shows its children exactly when the provider holds a session, shows
    nothing and sends the browser to the login page exactly when it holds
    none, and never shows the spinner again. *)
Theorem guard_follows_session (User : Type) (us : list (Auth.Update User)) :
  us <> [] ->
  let st := fold_left Auth.receive us Auth.initial in
  (Auth.guard st = Auth.Children <-> Auth.session st <> None)
  /\ (Auth.guard st = Auth.Nothing <-> Auth.session st = None)
  /\ (Auth.guard_redirects st = true <-> Auth.session st = None)
  /\ Auth.guard st <> Auth.Spinner.
Proof.
  intros Hne st. destruct (receive_all us Auth.initial Hne) as [Hl Hu].
  fold st in Hl, Hu. unfold Auth.guard, Auth.guard_redirects. rewrite Hl, Hu.
  destruct (Auth.session st); simpl.
  - repeat split; intros; congruence.
  - repeat split; intros; congruence.
Qed.

Lemma guard_follows_session_witness :
  let us := [Auth.StateChange Auth.SIGNED_IN (Some (Auth.mkSession "ada"));
             Auth.InitialSession None;
             Auth.StateChange Auth.OtherEvent (Some (Auth.mkSession "ada"))] in
  let st := fold_left Auth.receive us Auth.initial in
  (Auth.guard st = Auth.Children <-> Auth.session st <> None)
  /\ (Auth.guard st = Auth.Nothing <-> Auth.session st = None)
  /\ (Auth.guard_redirects st = true <-> Auth.session st = None)
  /\ Auth.guard st <> Auth.Spinner.
Proof. intros us. apply (guard_follows_session string us). discriminate. Defined.
